(** * okx_auto: the order-book replica, feature extractor, stream dispatch,
      wall-riding tactic and risk gates, embedded from the Python sources.

    Conventions of the embedding.
    - A Python [float] is modelled by its exact rational value ([Qc], the
      canonical rationals, so that Python's [==] on keys is Leibniz
      equality).  Non-finite floats and rounding of arithmetic are outside
      the model.
    - [datetime.now()] is an explicit clock reading, in microseconds ([Z]);
      [timedelta.total_seconds()] compared with [k] seconds is a comparison
      of the difference with [k * 1000000].
    - A Python [dict] that is only looked up by key is a [gmap]; one whose
      iteration order is observed is an association list.
    - Methods that mutate [self] take the state and return the new state. *)

From Stdlib Require Import ZArith QArith Qcanon List Lia Lqa.
From stdpp Require Import base decidable option list sorting gmap strings numbers pretty.

Local Open Scope Qc_scope.

(** ** Numbers *)

Abbreviation float := Qc.

(** The float written [n / d] in decimal in the source (e.g. [0.05] is
    [fl 5 100]). *)
Definition fl (n : Z) (d : positive) : float := Q2Qc (Qmake n d).

Definition Qc_abs (x : float) : float := if decide (x < 0) then - x else x.
Definition Qc_max (x y : float) : float := if decide (x < y) then y else x.
Definition Qc_min (x y : float) : float := if decide (y < x) then y else x.

(** Microseconds in [k] seconds. *)
Definition seconds (k : Z) : Z := (k * 1000000)%Z.

(** ** Python containers *)

(** [collections.deque(maxlen=n).append(x)]: append on the right, evict from
    the left once the bound is exceeded. *)
Definition deque_append {A} (maxlen : nat) (d : list A) (x : A) : list A :=
  let d' := d ++ [x] in drop (length d' - maxlen) d'.

(** [bisect.insort(l, x)] (= [insort_right]) on an ascending list: [x] goes
    after every element that is [<= x]. *)
Fixpoint insort (x : float) (l : list float) : list float :=
  match l with
  | [] => [x]
  | y :: l' => if decide (x < y) then x :: y :: l' else y :: insort x l'
  end.

(** [list.remove(x)] inside [try: ... except ValueError: pass]: the first
    occurrence goes, an absent value leaves the list alone. *)
Fixpoint list_remove_first (x : float) (l : list float) : list float :=
  match l with
  | [] => []
  | y :: l' => if decide (x = y) then l' else y :: list_remove_first x l'
  end.

(** ** zlib.crc32 and the [:.0f] format *)

Module Crc.

Definition poly : Z := 0xEDB88320%Z.

Definition step_bit (c : Z) : Z :=
  if Z.testbit c 0 then Z.lxor (Z.shiftr c 1) poly else Z.shiftr c 1.

Definition step_byte (c : Z) (b : Z) : Z :=
  Nat.iter 8 step_bit (Z.lxor c b).

(** [zlib.crc32(data)] with the default start value. *)
Definition crc32 (data : list Z) : Z :=
  Z.lxor (fold_left step_byte data 0xFFFFFFFF%Z) 0xFFFFFFFF%Z.

(** [str.encode()] on a string of ASCII characters: one byte each. *)
Definition encode (s : string) : list Z :=
  (fun a => Z.of_N (Ascii.N_of_ascii a)) <$> String.list_ascii_of_string s.

End Crc.

(** Round to the nearest integer, ties to even: what [format(x, ".0f")]
    does with the exact value of a float. *)
Definition round_half_even (x : float) : Z :=
  let n := Qnum (this x) in
  let d := Z.pos (Qden (this x)) in
  let f := (n / d)%Z in
  match (2 * (n mod d) ?= d)%Z with
  | Lt => f
  | Gt => (f + 1)%Z
  | Eq => if Z.even f then f else (f + 1)%Z
  end.

(** [f"{x:.0f}"]: the sign is that of [x] itself, so [-0.4] prints [-0]. *)
Definition format_0f (x : float) : string :=
  let r := round_half_even x in
  if decide (x < 0) then "-" +:+ pretty (Z.abs r) else pretty r.


(** ** orderbook/pro_orderbook.py *)

Module OrderBook.

Record OrderBookLevel := mkLevel {
  price : float;
  size : float;
  orders_count : Z;
  is_iceberg : bool
}.

(** [OrderBookLevel(price, size, orders_count)]: [is_iceberg] defaults to
    [False]. *)
Definition new_level (p s : float) (c : Z) : OrderBookLevel :=
  mkLevel p s c false.

(** One entry of [bids_history] / [asks_history]. *)
Record HistEntry := mkHist {
  h_price : float;
  h_size : float;
  h_time : Z
}.

Inductive WallSide := Bid | Ask.

(** The dict returned by [detect_wall]. *)
Record Wall := mkWall {
  w_side : WallSide;
  w_price : float;
  w_depth : float
}.

Record OrderBookFeatures := mkFeatures {
  best_bid : float;
  best_ask : float;
  mid_price : float;
  spread : float;
  spread_bps : float;
  bid_depth_5 : float;
  ask_depth_5 : float;
  ofi_1s : float;
  ofi_5s : float;
  wmp : float;
  liquidity_void_above : list (float * float);
  liquidity_void_below : list (float * float);
  buy_pressure : float;
  sell_pressure : float;
  has_wall : bool;
  wall_side : option WallSide;
  wall_price : float;
  wall_depth : float
}.

(** [OrderBookFeatures()] as [__init__] and the handlers build it (the
    void lists are [None] in the dataclass and set to [[]] by
    [__init__]; both are the empty list here, [wall_side = ""] is
    [None]). *)
Definition default_features : OrderBookFeatures :=
  mkFeatures 0 0 0 0 0 0 0 0 0 0 [] [] 0 0 false None 0 0.

(** The fields of [ProfessionalOrderBook].  [sorted_bids] holds the
    NEGATED bid prices in ascending order, [sorted_asks] the ask prices in
    ascending order.  [max_levels] and [last_check_time] are never read
    and are left out. *)
Record ProfessionalOrderBook := mkBook {
  inst_id : string;
  bids : gmap float OrderBookLevel;
  asks : gmap float OrderBookLevel;
  sorted_bids : list float;
  sorted_asks : list float;
  sequence : Z;
  checksum : Z;
  bids_history : list HistEntry;
  asks_history : list HistEntry;
  features : OrderBookFeatures;
  update_count : Z;
  error_count : Z
}.

Definition init (inst : string) : ProfessionalOrderBook :=
  mkBook inst ∅ ∅ [] [] (-1) 0 [] [] default_features 0 0.

(** A level of a feed message after [float(level[0])], [float(level[1])]
    and [int(level[2]) if len(level) > 2 else 0]. *)
Definition LevelMsg : Type := float * float * Z.

(** *** Queries *)

Definition get_bids (b : ProfessionalOrderBook) (levels : nat)
  : list (float * float) :=
  omap (fun k => let p := - k in
                 (fun lv => (p, size lv)) <$> bids b !! p)
       (take levels (sorted_bids b)).

Definition get_asks (b : ProfessionalOrderBook) (levels : nat)
  : list (float * float) :=
  omap (fun k => let p := k in
                 (fun lv => (p, size lv)) <$> asks b !! p)
       (take levels (sorted_asks b)).

Definition get_best_bid (b : ProfessionalOrderBook) : float * float :=
  match sorted_bids b with
  | k :: _ =>
      let p := - k in
      match bids b !! p with
      | Some lv => (p, size lv)
      | None => (0, 0)
      end
  | [] => (0, 0)
  end.

Definition get_best_ask (b : ProfessionalOrderBook) : float * float :=
  match sorted_asks b with
  | k :: _ =>
      let p := k in
      match asks b !! p with
      | Some lv => (p, size lv)
      | None => (0, 0)
      end
  | [] => (0, 0)
  end.

Definition get_mid_price (b : ProfessionalOrderBook) : float :=
  let bid_price := (get_best_bid b).1 in
  let ask_price := (get_best_ask b).1 in
  if decide (0 < bid_price ∧ 0 < ask_price) then (bid_price + ask_price) / fl 2 1
  else if decide (0 < bid_price) then bid_price
  else if decide (0 < ask_price) then ask_price
  else 0.

(** The division raises [ZeroDivisionError] when the two sizes cancel; the
    handler then returns the mid price. *)
Definition get_wmp (b : ProfessionalOrderBook) : float :=
  let '(bid_price, bid_size) := get_best_bid b in
  let '(ask_price, ask_size) := get_best_ask b in
  if decide (bid_size = 0 ∧ ask_size = 0) then get_mid_price b
  else if decide (ask_size + bid_size = 0) then get_mid_price b
  else (bid_price * ask_size + ask_price * bid_size) / (ask_size + bid_size).

Definition get_spread (b : ProfessionalOrderBook) : float :=
  let bid_price := (get_best_bid b).1 in
  let ask_price := (get_best_ask b).1 in
  if decide (0 < bid_price ∧ 0 < ask_price) then ask_price - bid_price
  else 0.

Definition get_spread_bps (b : ProfessionalOrderBook) : float :=
  let spread := get_spread b in
  let mid_price := get_mid_price b in
  if decide (0 < mid_price) then (spread / mid_price) * fl 10000 1
  else 0.

(** *** Checksum *)

(** The loop body [checksum_str += f"{price:.0f}:{size:.0f}:"]. *)
Definition add_pair (acc : string) (ps : float * float) : string :=
  acc +:+ (format_0f ps.1 +:+ ":" +:+ format_0f ps.2 +:+ ":").

Definition checksum_str (b : ProfessionalOrderBook) : string :=
  let s := fold_left add_pair (get_bids b 25) "" in
  fold_left add_pair (get_asks b 25) s.

Definition _calculate_checksum (b : ProfessionalOrderBook) : Z :=
  Z.land (Crc.crc32 (Crc.encode (checksum_str b))) 0xFFFFFFFF%Z.

(** *** Updates *)

(** One side of the book: the price map and its sorted key list. *)
Definition Side : Type := gmap float OrderBookLevel * list float.

(** Body of the per-level loops of [update_snapshot]; [key] is [Qcopp]
    for bids (the list holds [-price]) and the identity for asks. *)
Definition snapshot_level (key : float -> float) (s : Side) (lv : LevelMsg)
  : Side :=
  let '(p, sz, c) := lv in
  if decide (0 < sz) then
    (<[p := new_level p sz c]> s.1, insort (key p) s.2)
  else
    match s.1 !! p with
    | Some _ => (delete p s.1, s.2)
    | None => s
    end.

(** Body of the per-level loops of [update_increment]. *)
Definition increment_level (key : float -> float) (s : Side) (lv : LevelMsg)
  : Side :=
  let '(p, sz, c) := lv in
  if decide (sz = 0) then
    match s.1 !! p with
    | Some _ => (delete p s.1, list_remove_first (key p) s.2)
    | None => s
    end
  else
    let l := match s.1 !! p with
             | None => insort (key p) s.2
             | Some _ => s.2
             end in
    (<[p := new_level p sz c]> s.1, l).

Definition bid_key (p : float) : float := - p.
Definition ask_key (p : float) : float := p.

Definition set_sides (b : ProfessionalOrderBook) (sb sa : Side)
  : ProfessionalOrderBook :=
  mkBook (inst_id b) sb.1 sa.1 sb.2 sa.2 (sequence b) (checksum b)
         (bids_history b) (asks_history b) (features b)
         (update_count b) (error_count b).

Definition set_counters (b : ProfessionalOrderBook) (ck upd err : Z)
  : ProfessionalOrderBook :=
  mkBook (inst_id b) (bids b) (asks b) (sorted_bids b) (sorted_asks b)
         (sequence b) ck (bids_history b) (asks_history b) (features b)
         upd err.

Definition set_history (b : ProfessionalOrderBook) (hb ha : list HistEntry)
  : ProfessionalOrderBook :=
  mkBook (inst_id b) (bids b) (asks b) (sorted_bids b) (sorted_asks b)
         (sequence b) (checksum b) hb ha (features b)
         (update_count b) (error_count b).

Definition set_features (b : ProfessionalOrderBook) (f : OrderBookFeatures)
  : ProfessionalOrderBook :=
  mkBook (inst_id b) (bids b) (asks b) (sorted_bids b) (sorted_asks b)
         (sequence b) (checksum b) (bids_history b) (asks_history b) f
         (update_count b) (error_count b).

Definition update_snapshot (b : ProfessionalOrderBook)
    (bids_data asks_data : list LevelMsg) (ck : Z) : ProfessionalOrderBook :=
  let sb := fold_left (snapshot_level bid_key) bids_data (∅, []) in
  let sa := fold_left (snapshot_level ask_key) asks_data (∅, []) in
  let b1 := set_sides b sb sa in
  let calculated_checksum := _calculate_checksum b1 in
  if decide (calculated_checksum ≠ ck) then
    set_counters b1 (checksum b1) (update_count b1 + 1) (error_count b1 + 1)
  else
    set_counters b1 ck (update_count b1 + 1) (error_count b1).

(** Returns the new state and the method's boolean result. *)
Definition update_increment (b : ProfessionalOrderBook)
    (bids_data asks_data : list LevelMsg) (ck : Z)
  : ProfessionalOrderBook * bool :=
  let sb := fold_left (increment_level bid_key) bids_data
                      (bids b, sorted_bids b) in
  let sa := fold_left (increment_level ask_key) asks_data
                      (asks b, sorted_asks b) in
  let b1 := set_sides b sb sa in
  let calculated_checksum := _calculate_checksum b1 in
  if decide (calculated_checksum ≠ ck) then
    (set_counters b1 (checksum b1) (update_count b1) (error_count b1 + 1),
     false)
  else
    (set_counters b1 ck (update_count b1 + 1) (error_count b1), true).

(** *** Features *)

(** [recent[-1]["size"] - recent[0]["size"]]. *)
Definition size_change (recent : list HistEntry) : float :=
  match recent with
  | [] => 0
  | e0 :: _ => h_size (List.last recent e0) - h_size e0
  end.

(** [calculate_ofi(timeframe)] with [datetime.now()] reading [now]. *)
Definition calculate_ofi (b : ProfessionalOrderBook) (timeframe : string)
    (now : Z) : ProfessionalOrderBook * float :=
  let '(bid_price, bid_size) := get_best_bid b in
  let '(ask_price, ask_size) := get_best_ask b in
  let hb := deque_append 100 (bids_history b) (mkHist bid_price bid_size now) in
  let ha := deque_append 100 (asks_history b) (mkHist ask_price ask_size now) in
  let b' := set_history b hb ha in
  let window := if decide (timeframe = "1s") then seconds 1 else seconds 5 in
  let recent_bids := filter (fun e => (now - h_time e ≤ window)%Z) hb in
  let recent_asks := filter (fun e => (now - h_time e ≤ window)%Z) ha in
  if decide (length recent_bids < 2 ∨ length recent_asks < 2)%nat then (b', 0)
  else (b', size_change recent_bids - size_change recent_asks).

(** The ask-side loop of [detect_liquidity_void]; [None] is the
    [ZeroDivisionError] of a zero [current_price]. *)
Fixpoint scan_above (threshold : float) (l : list (float * float))
  : option (list (float * float)) :=
  match l with
  | [] => Some []
  | (current_price, _) :: tl =>
      match tl with
      | [] => Some []
      | (next_price, _) :: _ =>
          if decide (current_price = 0) then None
          else
            rest ← scan_above threshold tl;
            Some (if decide (threshold < (next_price - current_price) / current_price)
                  then (current_price, next_price) :: rest else rest)
      end
  end.

(** The bid-side loop. *)
Fixpoint scan_below (threshold : float) (l : list (float * float))
  : option (list (float * float)) :=
  match l with
  | [] => Some []
  | (current_price, _) :: tl =>
      match tl with
      | [] => Some []
      | (next_price, _) :: _ =>
          if decide (current_price = 0) then None
          else
            rest ← scan_below threshold tl;
            Some (if decide (threshold < (current_price - next_price) / current_price)
                  then (next_price, current_price) :: rest else rest)
      end
  end.

(** An exception anywhere makes the handler return [[]]. *)
Definition detect_liquidity_void (b : ProfessionalOrderBook)
    (direction : string) (threshold : float) (max_gap_levels : nat)
  : list (float * float) :=
  default []
    (above ← (if decide (direction = "above" ∨ direction = "both")
              then scan_above threshold (get_asks b 50) else Some []);
     below ← (if decide (direction = "below" ∨ direction = "both")
              then scan_below threshold (get_bids b 50) else Some []);
     Some (above ++ below)).

Definition first_wall (side : WallSide) (min_depth : float)
    (l : list (float * float)) : option Wall :=
  (fun ps => mkWall side ps.1 ps.2)
    <$> List.find (fun ps : float * float => bool_decide (min_depth ≤ ps.2)) l.

Definition detect_wall (b : ProfessionalOrderBook) (min_depth : float)
    (levels : nat) : option Wall :=
  match first_wall Bid min_depth (get_bids b levels) with
  | Some w => Some w
  | None => first_wall Ask min_depth (get_asks b levels)
  end.

(** [calculate_features()]; [t1] and [t2] are the clock readings of the
    two [calculate_ofi] calls. *)
Definition calculate_features (b : ProfessionalOrderBook) (t1 t2 : Z)
  : ProfessionalOrderBook * OrderBookFeatures :=
  let '(f_best_bid, f_bid_depth_5) := get_best_bid b in
  let '(f_best_ask, f_ask_depth_5) := get_best_ask b in
  let f_mid_price := get_mid_price b in
  let f_spread := get_spread b in
  let f_spread_bps := get_spread_bps b in
  let f_wmp := get_wmp b in
  let '(b1, f_ofi_1s) := calculate_ofi b "1s" t1 in
  let '(b2, f_ofi_5s) := calculate_ofi b1 "5s" t2 in
  let voids := detect_liquidity_void b2 "both" (fl 2 1000) 5 in
  let above := filter (fun v : float * float => v.1 < v.2) voids in
  let below := filter (fun v : float * float => v.2 < v.1) voids in
  let wall := detect_wall b2 (fl 50 1) 20 in
  let f :=
    mkFeatures f_best_bid f_best_ask f_mid_price f_spread f_spread_bps
      f_bid_depth_5 f_ask_depth_5 f_ofi_1s f_ofi_5s f_wmp above below
      (if decide (0 < f_ofi_1s) then f_ofi_1s else 0)
      (if decide (f_ofi_1s < 0) then Qc_abs f_ofi_1s else 0)
      (bool_decide (is_Some wall))
      (w_side <$> wall)
      (default 0 (w_price <$> wall))
      (default 0 (w_depth <$> wall)) in
  (set_features b2 f, f).

(** *** Reference data *)

(** A side with nothing on it: no key in the sorted list, or no price in
    the map. *)
Definition bid_side_empty (b : ProfessionalOrderBook) : Prop :=
  sorted_bids b = [] ∨ bids b = ∅.

Definition ask_side_empty (b : ProfessionalOrderBook) : Prop :=
  sorted_asks b = [] ∨ asks b = ∅.

(** The levels of the spec's scenario A: bids [[100,"5","1"],[99,"3","1"]],
    asks [[101,"2","1"]]. *)
Definition scenario_bids : list LevelMsg :=
  [(fl 100 1, fl 5 1, 1%Z); (fl 99 1, fl 3 1, 1%Z)].

Definition scenario_asks : list LevelMsg := [(fl 101 1, fl 2 1, 1%Z)].

(** The book holding these levels, received with the checksum the code
    computes for them. *)
Definition book_A : ProfessionalOrderBook :=
  (update_increment (init "BTC-USDT-SWAP") scenario_bids scenario_asks
                    2284997975).1.

(** *** The checksum string, field by field *)

(** The fields the checksum string is made of: price then size of each of
    the levels [get_bids(25)] returns, then of those of [get_asks(25)]. *)
Definition checksum_fields (b : ProfessionalOrderBook) : list string :=
  (get_bids b 25 ++ get_asks b 25)
    ≫= (fun ps => [format_0f ps.1; format_0f ps.2]).

(** Every field followed by a colon. *)
Definition terminated (fields : list string) : string :=
  foldr (fun f acc => f +:+ ":" +:+ acc) "" fields.

(** The checksum as the claim words it: CRC32 of the fields joined by
    colons, with no trailing separator. *)
Definition joined_checksum (b : ProfessionalOrderBook) : Z :=
  Z.land (Crc.crc32 (Crc.encode (String.concat ":" (checksum_fields b))))
         0xFFFFFFFF%Z.

(** [l] lists the best [n] levels of the price map [m] in priority order
    ([before p q]: price [p] comes before price [q]): it is ordered, has
    at most [n] entries, each entry is a level of the map with its size,
    and a level of the map that is not listed exists only when the list
    is full and then comes after every listed one. *)
Definition top_levels (before : float -> float -> Prop)
    (m : gmap float OrderBookLevel) (n : nat) (l : list (float * float))
  : Prop :=
  StronglySorted (fun x y => before x.1 y.1) l
  ∧ (length l ≤ n)%nat
  ∧ (∀ p s, (p, s) ∈ l → ∃ lv, m !! p = Some lv ∧ size lv = s)
  ∧ (∀ q, is_Some (m !! q) → q ∉ l.*1 →
       length l = n ∧ ∀ p, p ∈ l.*1 → before p q).

(** Two books with the same sides. *)
Definition same_sides (a b : ProfessionalOrderBook) : Prop :=
  bids a = bids b ∧ asks a = asks b
  ∧ sorted_bids a = sorted_bids b ∧ sorted_asks a = sorted_asks b.

(** The reference book after its features were computed at t = 0 and its
    best bid then grew from 5 to 10. *)
Definition ofi_scenario_book : ProfessionalOrderBook :=
  let b1 := (calculate_features book_A 0 0).1 in
  (update_increment b1 [(fl 100 1, fl 10 1, 1%Z)] [] 0).1.

(** *** Representation invariant *)

(** The sorted key list of a side is strictly ascending and holds exactly
    the keys of the prices in the map. *)
Definition wf_side (key : float -> float) (s : Side) : Prop :=
  StronglySorted Qclt s.2
  ∧ ∀ k, k ∈ s.2 ↔ ∃ p, key p = k ∧ is_Some (s.1 !! p).

Definition wf (b : ProfessionalOrderBook) : Prop :=
  wf_side bid_key (bids b, sorted_bids b)
  ∧ wf_side ask_key (asks b, sorted_asks b).

(** The calls that change a book once it is fed by increments. *)
Inductive BookCall :=
| UpdateIncrement (bids_data asks_data : list LevelMsg) (ck : Z)
| CalculateOfi (timeframe : string) (now : Z)
| CalculateFeatures (t1 t2 : Z).

Definition book_call (b : ProfessionalOrderBook) (c : BookCall)
  : ProfessionalOrderBook :=
  match c with
  | UpdateIncrement bd ad ck => (update_increment b bd ad ck).1
  | CalculateOfi tf now => (calculate_ofi b tf now).1
  | CalculateFeatures t1 t2 => (calculate_features b t1 t2).1
  end.

Definition book_calls (b : ProfessionalOrderBook) (cs : list BookCall)
  : ProfessionalOrderBook :=
  fold_left book_call cs b.

(** Neighbouring entries of a list, in order. *)
Definition adjacent {A} (l : list A) : list (A * A) := zip l (tail l).

(** The gaps the ask-side loop reports, spelt out over neighbouring levels. *)
Definition gaps_above (threshold : float) (l : list (float * float))
  : list (float * float) :=
  (fun pr : (float * float) * (float * float) => (pr.1.1, pr.2.1))
    <$> filter (fun pr : (float * float) * (float * float) =>
                  threshold < (pr.2.1 - pr.1.1) / pr.1.1)
               (adjacent l).

(** The gaps the bid-side loop reports. *)
Definition gaps_below (threshold : float) (l : list (float * float))
  : list (float * float) :=
  (fun pr : (float * float) * (float * float) => (pr.2.1, pr.1.1))
    <$> filter (fun pr : (float * float) * (float * float) =>
                  threshold < (pr.1.1 - pr.2.1) / pr.1.1)
               (adjacent l).

(** The prices a feed message lists. *)
Definition msg_prices (lvs : list LevelMsg) : list float :=
  (fun lv : LevelMsg => lv.1.1) <$> lvs.

(** The level a snapshot stores for an entry of positive size. *)
Definition listed (lvs : list LevelMsg) (p : float) (lv : OrderBookLevel)
  : Prop :=
  ∃ sz c, (p, sz, c) ∈ lvs ∧ 0 < sz ∧ lv = new_level p sz c.

End OrderBook.

(** ** orderbook/microstructure_features.py *)

Module Features.
Import OrderBook.

Inductive Trend := rising | falling | stable.

(** An entry of [depth_history]. *)
Record DepthEntry := mkDepth {
  d_bid_depth : float;
  d_ask_depth : float;
  d_time : Z
}.

(** The fields of [MicrostructureFeatures]; the order book it refers to
    is shared with its other users and is threaded next to this record. *)
Record MicrostructureFeatures := mkExtractor {
  ofi_history : list float;
  ofi_timestamps : list Z;
  spread_history : list float;
  depth_history : list DepthEntry;
  last_update : option Z
}.

Definition init : MicrostructureFeatures := mkExtractor [] [] [] [] None.

(** [update()]: [t0] is the reading of [datetime.now()] in [update]
    itself, [t1] and [t2] those inside [calculate_features]. *)
Definition update (b : ProfessionalOrderBook) (fx : MicrostructureFeatures)
    (t0 t1 t2 : Z) : ProfessionalOrderBook * MicrostructureFeatures :=
  let '(b', f) := calculate_features b t1 t2 in
  (b',
   mkExtractor
     (deque_append 100 (ofi_history fx) (ofi_1s f))
     (deque_append 100 (ofi_timestamps fx) t0)
     (deque_append 100 (spread_history fx) (spread_bps f))
     (deque_append 100 (depth_history fx)
                   (mkDepth (bid_depth_5 f) (ask_depth_5 f) t0))
     (Some t0)).

Definition Qc_sum (l : list float) : float := foldr Qcplus 0 l.

(** [np.arange(n)] as floats. *)
Definition arange (n : nat) : list float :=
  (fun i : nat => Qc_of_Z (Z.of_nat i)) <$> seq 0 n.

(** [np.polyfit(x, y, 1)[0]]: the slope of the least-squares line, from the
    normal equations.  With fewer than two points the system is singular
    ([None]): numpy then raises or yields [nan], and either way
    [get_ofi_trend] answers [stable]. *)
Definition polyfit_slope (x y : list float) : option float :=
  let n := Qc_of_Z (Z.of_nat (length x)) in
  let sx := Qc_sum x in
  let sy := Qc_sum y in
  let sxy := Qc_sum (zip_with Qcmult x y) in
  let sxx := Qc_sum (zip_with Qcmult x x) in
  let den := n * sxx - sx * sx in
  if decide (den = 0) then None
  else Some ((n * sxy - sx * sy) / den).

(** The slice [l[-window:]] of Python for an integer [window]. *)
Definition slice_last {A} (window : Z) (l : list A) : list A :=
  if decide (0 < window)%Z then drop (length l - Z.to_nat window) l
  else drop (Z.to_nat (- window)) l.

Definition get_ofi_trend (fx : MicrostructureFeatures) (window : Z) : Trend :=
  if decide (Z.of_nat (length (ofi_history fx)) < window)%Z then stable
  else
    let recent_ofi := slice_last window (ofi_history fx) in
    let x := arange (length recent_ofi) in
    let y := recent_ofi in
    match polyfit_slope x y with
    | None => stable
    | Some slope =>
        if decide (fl 1 100 < slope) then rising
        else if decide (slope < - fl 1 100) then falling
        else stable
    end.

(** *** Scenario data *)

(** One fed sample: the best bid, at 100, is given [size] by an incremental
    update, and [update()] then runs with the clock at [t], [t + 1] and
    [t + 2] microseconds. *)
Definition feed_best_bid
    (st : ProfessionalOrderBook * MicrostructureFeatures)
    (sample : float * Z) : ProfessionalOrderBook * MicrostructureFeatures :=
  let b1 := (update_increment st.1 [(fl 100 1, sample.1, 1%Z)] [] 0).1 in
  update b1 st.2 sample.2 (sample.2 + 1) (sample.2 + 2).

(** Samples fed to the book of scenario A, whose best ask stays 2 at 101. *)
Definition feed_sizes (samples : list (float * Z))
  : ProfessionalOrderBook * MicrostructureFeatures :=
  fold_left feed_best_bid samples (book_A, init).

(** Sizes 1, 2, ..., 10, 50 ms apart. *)
Definition unit_steps : list (float * Z) :=
  (fun k : Z => (fl (1 + k) 1, 50000 * k)%Z) <$> seqZ 0 10.

(** Sizes 1.000, 1.001, ..., 1.009, 50 ms apart. *)
Definition milli_steps : list (float * Z) :=
  (fun k : Z => (fl (1000 + k) 1000, 50000 * k)%Z) <$> seqZ 0 10.

(** Sizes 1, 2, ..., 10, 2 s apart. *)
Definition slow_steps : list (float * Z) :=
  (fun k : Z => (fl (1 + k) 1, seconds (2 * k))%Z) <$> seqZ 0 10.

Inductive SpreadStatus := normal | wide | extreme.

#[export] Instance SpreadStatus_eq_dec : EqDecision SpreadStatus.
Proof. solve_decision. Defined.

#[export] Instance Trend_eq_dec : EqDecision Trend.
Proof. solve_decision. Defined.

(** [get_spread_status()]; it recomputes the features, with the clock
    reading [t1] and [t2]. *)
Definition get_spread_status (b : ProfessionalOrderBook) (t1 t2 : Z)
  : ProfessionalOrderBook * SpreadStatus :=
  let '(b', f) := calculate_features b t1 t2 in
  (b',
   if decide (fl 50 1 < spread_bps f) then extreme
   else if decide (fl 20 1 < spread_bps f) then wide
   else normal).

(** [detect_liquidity_squeeze(threshold)]. *)
Definition detect_liquidity_squeeze (b : ProfessionalOrderBook)
    (threshold : float) (t1 t2 : Z) : ProfessionalOrderBook * bool :=
  let '(b', f) := calculate_features b t1 t2 in
  let total_depth := bid_depth_5 f + ask_depth_5 f in
  if decide (total_depth = 0) then (b', false)
  else
    let imbalance := Qc_abs (bid_depth_5 f - ask_depth_5 f) / total_depth in
    (b', bool_decide (threshold < imbalance)).

(** The dict returned by [calculate_pressure_index]. *)
Record PressureIndex := mkPressure {
  p_buy_pressure : float;
  p_sell_pressure : float;
  p_net_pressure : float;
  p_imbalance : float
}.

Definition calculate_pressure_index (b : ProfessionalOrderBook) (t1 t2 : Z)
  : ProfessionalOrderBook * PressureIndex :=
  let '(b', f) := calculate_features b t1 t2 in
  let buy := Qc_max 0 (ofi_1s f) in
  let sell := Qc_max 0 (- ofi_1s f) in
  (b',
   mkPressure buy sell (buy - sell)
     (if decide (0 < bid_depth_5 f + ask_depth_5 f)
      then ofi_1s f / (bid_depth_5 f + ask_depth_5 f) else 0)).

(** The entries of the dict of [get_all_features] that the analyzer reads
    or that derive from the book; [inst_id] and the ISO [timestamp] are left
    out. *)
Record AllFeatures := mkAll {
  a_best_bid : float;
  a_best_ask : float;
  a_mid_price : float;
  a_wmp : float;
  a_spread : float;
  a_spread_bps : float;
  a_spread_status : SpreadStatus;
  a_ofi_1s : float;
  a_ofi_5s : float;
  a_ofi_trend : Trend;
  a_bid_depth_5 : float;
  a_ask_depth_5 : float;
  a_pressure : PressureIndex;
  a_has_wall : bool;
  a_wall_side : option WallSide;
  a_wall_price : float;
  a_liquidity_voids : nat;
  a_liquidity_squeeze : bool
}.

(** The eight clock readings of one [get_all_features()]: two for each of
    its four feature computations, in the order of the calls. *)
Definition Readings : Type := (Z * Z) * (Z * Z) * (Z * Z) * (Z * Z).

Definition get_all_features (b : ProfessionalOrderBook)
    (fx : MicrostructureFeatures) (r : Readings)
  : ProfessionalOrderBook * AllFeatures :=
  let '(r1, r2, r3, r4) := r in
  let '(b1, f) := calculate_features b r1.1 r1.2 in
  let '(b2, status) := get_spread_status b1 r2.1 r2.2 in
  let trend := get_ofi_trend fx 10 in
  let '(b3, pressure) := calculate_pressure_index b2 r3.1 r3.2 in
  let '(b4, squeeze) := detect_liquidity_squeeze b3 (fl 7 10) r4.1 r4.2 in
  (b4,
   mkAll (best_bid f) (best_ask f) (mid_price f) (wmp f) (spread f)
     (spread_bps f) status (ofi_1s f) (ofi_5s f) trend
     (bid_depth_5 f) (ask_depth_5 f) pressure (has_wall f) (wall_side f)
     (wall_price f)
     (length (liquidity_void_above f) + length (liquidity_void_below f))
     squeeze).

Inductive GamblerReason :=
| PanicSelling | FomoBuying | ChasingRally | PanicCovering.

(** The dict of [_identify_gambler_behavior]; the reason texts are kept as
    tags. *)
Record GamblerSignals := mkSignals {
  panic_selling : bool;
  fomo_buying : bool;
  chasing_rally : bool;
  panic_covering : bool;
  reason : list GamblerReason
}.

Definition _identify_gambler_behavior (features : AllFeatures)
  : GamblerSignals :=
  let s1 := bool_decide (a_spread_status features = extreme
                         ∧ fl 100 1 < p_sell_pressure (a_pressure features)
                         ∧ a_ofi_trend features = falling) in
  let s2 := bool_decide (a_spread_status features = wide
                         ∧ fl 100 1 < p_buy_pressure (a_pressure features)
                         ∧ a_ofi_trend features = rising) in
  let s3 := bool_decide (a_mid_price features * fl 1001 1000
                           < a_wmp features
                         ∧ fl 50 1 < a_ofi_1s features) in
  let s4 := bool_decide (a_spread_status features = extreme
                         ∧ fl 100 1 < p_buy_pressure (a_pressure features)
                         ∧ a_ofi_trend features = rising) in
  mkSignals s1 s2 s3 s4
    ((if s1 then [PanicSelling] else [])
     ++ (if s2 then [FomoBuying] else [])
     ++ (if s3 then [ChasingRally] else [])
     ++ (if s4 then [PanicCovering] else [])).

(** [MicrostructureAnalyzer.analyze] on an instrument that has an
    extractor: [update()] with its three readings, then
    [get_all_features()], then the signals. *)
Definition analyze (b : ProfessionalOrderBook) (fx : MicrostructureFeatures)
    (t0 t1 t2 : Z) (r : Readings)
  : ProfessionalOrderBook * MicrostructureFeatures
    * (AllFeatures * GamblerSignals) :=
  let '(b1, fx1) := update b fx t0 t1 t2 in
  let '(b2, features) := get_all_features b1 fx1 r in
  (b2, fx1, (features, _identify_gambler_behavior features)).

(** The four histories of the extractor hold one entry per [update()]. *)
Definition aligned (fx : MicrostructureFeatures) : Prop :=
  length (ofi_timestamps fx) = length (ofi_history fx)
  ∧ length (spread_history fx) = length (ofi_history fx)
  ∧ length (depth_history fx) = length (ofi_history fx)
  ∧ (length (ofi_history fx) ≤ 100)%nat.

End Features.

(** ** core/kill_switch.py *)

Module KillSwitch.

(** Calls made on the execution engine. *)
Inductive Call :=
| GetBalance
| GetAvgLatency
| GetPositions
| CancelAllOrders (inst_id : string).

(** What the engine and the clock answer during one iteration of the
    monitor loop: [get_balance()] ([None], or the parsed
    [details[0]["eq"]]), [get_avg_latency()], the [instId]s of
    [get_positions()], and [datetime.now()]. *)
Record Env := mkEnv {
  balance_eq : option float;
  avg_latency : float;
  positions : list string;
  now : Z
}.

Record RiskKillSwitch := mkSwitch {
  max_daily_loss_ratio : float;
  max_position_ratio : float;
  max_latency_ms : float;
  is_triggered : bool;
  trigger_reason : string;
  trigger_time : option Z;
  daily_start_balance : float;
  current_balance : float;
  latency_samples : list float;
  running : bool
}.

Definition init : RiskKillSwitch :=
  mkSwitch (fl 5 100) (fl 5 10) (fl 100 1) false "" None 0 0 [] false.

(** [start()] when not yet running: the initial balance is read. *)
Definition start (s : RiskKillSwitch) (balance : option float)
  : RiskKillSwitch * list Call :=
  if running s then (s, [])
  else
    let s1 :=
      match balance with
      | Some eq =>
          mkSwitch (max_daily_loss_ratio s) (max_position_ratio s)
            (max_latency_ms s) (is_triggered s) (trigger_reason s)
            (trigger_time s) eq eq (latency_samples s) (running s)
      | None => s
      end in
    (mkSwitch (max_daily_loss_ratio s1) (max_position_ratio s1)
       (max_latency_ms s1) (is_triggered s1) (trigger_reason s1)
       (trigger_time s1) (daily_start_balance s1) (current_balance s1)
       (latency_samples s1) true,
     [GetBalance]).

Definition _update_data (s : RiskKillSwitch) (e : Env)
  : RiskKillSwitch * list Call :=
  let cur := match balance_eq e with
             | Some eq => eq
             | None => current_balance s
             end in
  let samples :=
    if decide (0 < avg_latency e) then
      let l := latency_samples s ++ [avg_latency e] in
      if decide (100 < length l)%nat then drop 1 l else l
    else latency_samples s in
  (mkSwitch (max_daily_loss_ratio s) (max_position_ratio s)
     (max_latency_ms s) (is_triggered s) (trigger_reason s)
     (trigger_time s) (daily_start_balance s) cur samples (running s),
   [GetBalance; GetAvgLatency]).

Definition _trigger (s : RiskKillSwitch) (reason : string) (e : Env)
  : RiskKillSwitch * list Call :=
  (mkSwitch (max_daily_loss_ratio s) (max_position_ratio s)
     (max_latency_ms s) true reason (Some (now e))
     (daily_start_balance s) (current_balance s) (latency_samples s)
     (running s),
   GetPositions :: (CancelAllOrders <$> positions e)).

Definition loss_ratio (s : RiskKillSwitch) : float :=
  (daily_start_balance s - current_balance s) / daily_start_balance s.

Definition mean_latency (s : RiskKillSwitch) : float :=
  foldr Qcplus 0 (latency_samples s)
  / Qc_of_Z (Z.of_nat (length (latency_samples s))).

Definition _check_conditions (s : RiskKillSwitch) (e : Env)
  : RiskKillSwitch * list Call :=
  if decide (0 < daily_start_balance s
             ∧ max_daily_loss_ratio s < loss_ratio s) then
    _trigger s "daily_loss" e
  else if decide (latency_samples s ≠ []
                  ∧ max_latency_ms s < mean_latency s) then
    _trigger s "latency" e
  else (s, []).

(** One iteration of the [while self.running] loop of [_monitor_loop]
    (the sleeps separate iterations and are not represented). *)
Definition monitor_step (s : RiskKillSwitch) (e : Env)
  : RiskKillSwitch * list Call :=
  if is_triggered s then (s, [])
  else
    let '(s1, c1) := _update_data s e in
    let '(s2, c2) := _check_conditions s1 e in
    (s2, c1 ++ c2).

(** The loop over the successive answers of the environment, with the
    calls issued so far. *)
Fixpoint _monitor_loop (s : RiskKillSwitch) (es : list Env)
  : RiskKillSwitch * list Call :=
  match es with
  | [] => (s, [])
  | e :: es' =>
      let '(s1, c1) := monitor_step s e in
      let '(s2, c2) := _monitor_loop s1 es' in
      (s2, c1 ++ c2)
  end.

Definition reset (s : RiskKillSwitch) : RiskKillSwitch :=
  mkSwitch (max_daily_loss_ratio s) (max_position_ratio s)
    (max_latency_ms s) false "" None (current_balance s)
    (current_balance s) (latency_samples s) (running s).

Definition is_safe (s : RiskKillSwitch) : bool := negb (is_triggered s).

Definition is_cancel (c : Call) : bool :=
  match c with CancelAllOrders _ => true | _ => false end.

Definition is_sweep (c : Call) : bool :=
  match c with GetPositions => true | _ => false end.

(** One answer of the environment in the daily-loss scenario: the account
    equity, a 20 ms latency, two open positions, the clock in seconds. *)
Definition tick (balance : Z) (t : Z) : Env :=
  mkEnv (Some (fl balance 1)) (fl 20 1) ["BTC-USDT-SWAP"; "ETH-USDT-SWAP"]
        (seconds t).

(** The reason [_check_conditions] would trip for in state [s], if any:
    the daily loss is looked at first, then the latency. *)
Definition due (s : RiskKillSwitch) : option string :=
  if decide (0 < daily_start_balance s
             ∧ max_daily_loss_ratio s < loss_ratio s) then Some "daily_loss"
  else if decide (latency_samples s ≠ []
                  ∧ max_latency_ms s < mean_latency s) then Some "latency"
  else None.

End KillSwitch.

(** ** core/risk_manager.py *)

Module RiskManager.

Record RiskMetrics := mkMetrics {
  total_balance : float;
  available_balance : float;
  total_position_value : float;
  unrealized_pnl : float;
  daily_pnl : float;
  leverage : float;
  daily_loss_ratio : float
}.

Record RiskManager := mkManager {
  metrics : RiskMetrics;
  start_balance : float;
  daily_start_balance : float;
  total_trades : Z;
  winning_trades : Z;
  losing_trades : Z;
  max_daily_loss : float;
  leverage_limit : Z;
  max_position_size : float;
  emergency_stop : bool
}.

(** [RiskManager()] under the defaults of [Config]:
    [MAX_DAILY_LOSS = 0.05], [LEVERAGE_LIMIT = 20],
    [MAX_POSITION_SIZE = 1000]. *)
Definition init : RiskManager :=
  mkManager (mkMetrics 0 0 0 0 0 0 0) 0 0 0 0 0 (fl 5 100) 20 (fl 1000 1)
            false.

(** The reason strings of [pre_trade_check], with the numbers they
    interpolate. *)
Inductive Reason :=
| EmergencyStopped
| DailyLossReached (ratio : float)
| PositionTooLarge (position_value limit : float)
| InsufficientBalance (required_margin available : float)
| LeverageExceeded (new_leverage : float) (limit : Z)
| CheckPassed.

Inductive Exn := ZeroDivisionError.

(** What a call does: it returns its pair or raises. *)
Inductive Outcome :=
| Returns (passed : bool) (reason : Reason)
| Raises (e : Exn).

Definition set_emergency_stop (r : RiskManager) (v : bool) : RiskManager :=
  mkManager (metrics r) (start_balance r) (daily_start_balance r)
    (total_trades r) (winning_trades r) (losing_trades r)
    (max_daily_loss r) (leverage_limit r) (max_position_size r) v.

(** [_kelly_criterion]; its result only feeds a log line. *)
Definition _kelly_criterion (r : RiskManager)
    (win_rate avg_win avg_loss : float) : float :=
  if decide (avg_win = 0) then max_position_size r * fl 1 10
  else
    let kelly_f := (win_rate * avg_win - (1 - win_rate) * avg_loss) / avg_win in
    let kelly_f := Qc_max 0 (Qc_min kelly_f (fl 25 100)) in
    total_balance (metrics r) * kelly_f.

(** [pre_trade_check(inst_id, side, size, price)].  The function has no
    handler of its own: a division by zero leaves it as an exception. *)
Definition pre_trade_check (r : RiskManager) (inst_id side : string)
    (size price : float) : RiskManager * Outcome :=
  if emergency_stop r then (r, Returns false EmergencyStopped)
  else if decide (daily_loss_ratio (metrics r) ≤ - max_daily_loss r) then
    (set_emergency_stop r true,
     Returns false (DailyLossReached (daily_loss_ratio (metrics r))))
  else
    let position_value := size * price in
    if decide (max_position_size r < position_value) then
      (r, Returns false (PositionTooLarge position_value (max_position_size r)))
    else if decide (leverage_limit r = 0%Z) then (r, Raises ZeroDivisionError)
    else
      let required_margin := position_value / Qc_of_Z (leverage_limit r) in
      if decide (available_balance (metrics r) < required_margin) then
        (r, Returns false
              (InsufficientBalance required_margin
                                   (available_balance (metrics r))))
      else if decide (total_balance (metrics r) = 0) then
        (r, Raises ZeroDivisionError)
      else
        let new_leverage :=
          (total_position_value (metrics r) + position_value)
          / total_balance (metrics r) in
        if decide (Qc_of_Z (leverage_limit r) < new_leverage) then
          (r, Returns false (LeverageExceeded new_leverage (leverage_limit r)))
        else (r, Returns true CheckPassed).

(** An entry of [balance["details"]] after [float(...)] of its amounts. *)
Record Detail := mkDetail {
  ccy : string;
  bal : float;
  availBal : float
}.

(** An entry of [positions] after [float(...)] of its amounts. *)
Record Position := mkPosition {
  instId : string;
  notionalUsd : float;
  upl : float
}.

(** [s.endswith(suffix)]. *)
Definition endswith (s suffix : string) : bool :=
  bool_decide (String.list_ascii_of_string suffix
               `suffix_of` String.list_ascii_of_string s).

Definition set_metrics (r : RiskManager) (m : RiskMetrics) : RiskManager :=
  mkManager m (start_balance r) (daily_start_balance r) (total_trades r)
    (winning_trades r) (losing_trades r) (max_daily_loss r)
    (leverage_limit r) (max_position_size r) (emergency_stop r).

Definition set_start_balances (r : RiskManager) (s d : float) : RiskManager :=
  mkManager (metrics r) s d (total_trades r) (winning_trades r)
    (losing_trades r) (max_daily_loss r) (leverage_limit r)
    (max_position_size r) (emergency_stop r).

Definition set_trades (r : RiskManager) (t w l : Z) : RiskManager :=
  mkManager (metrics r) (start_balance r) (daily_start_balance r) t w l
    (max_daily_loss r) (leverage_limit r) (max_position_size r)
    (emergency_stop r).

(** The positions the loop of [update_metrics] adds up. *)
Definition counted (positions : list Position) : list Position :=
  filter (fun pos => endswith (instId pos) "-USDT" = true) positions.

(** [update_metrics(balance, positions)].  [balance] is [None] when the
    argument is falsy or has no ["details"]; entries with missing keys or
    unparsable amounts, which end the method in its handler, are not
    represented. *)
Definition update_metrics (r : RiskManager) (balance : option (list Detail))
    (positions : list Position) : RiskManager :=
  let m := metrics r in
  let usdt :=
    match balance with
    | Some details =>
        List.find (fun d => bool_decide (ccy d = "USDT")) details
    | None => None
    end in
  let total := match usdt with
               | Some d => bal d
               | None => total_balance m
               end in
  let avail := match usdt with
               | Some d => availBal d
               | None => available_balance m
               end in
  let r1 := if decide (start_balance r = 0)
            then set_start_balances r total total else r in
  let total_position :=
    foldl (fun acc pos => acc + Qc_abs (notionalUsd pos)) 0
          (counted positions) in
  let total_unrealized_pnl :=
    foldl (fun acc pos => acc + upl pos) 0 (counted positions) in
  let lev := if decide (0 < total) then total_position / total
             else leverage m in
  let pnl := total - daily_start_balance r1 in
  let ratio := if decide (0 < daily_start_balance r1)
               then pnl / daily_start_balance r1
               else daily_loss_ratio m in
  set_metrics r1
    (mkMetrics total avail total_position total_unrealized_pnl pnl lev ratio).

(** [post_trade_check(trade_result)]; [realizedPnl] is the parsed value of
    the entry when it is present and truthy. *)
Definition post_trade_check (r : RiskManager) (realizedPnl : option float)
  : RiskManager :=
  let t := (total_trades r + 1)%Z in
  match realizedPnl with
  | Some pnl =>
      if decide (0 < pnl)
      then set_trades r t (winning_trades r + 1)%Z (losing_trades r)
      else set_trades r t (winning_trades r) (losing_trades r + 1)%Z
  | None => set_trades r t (winning_trades r) (losing_trades r)
  end.

Definition check_emergency_stop (r : RiskManager) : RiskManager * bool :=
  if decide (daily_loss_ratio (metrics r) ≤ - max_daily_loss r)
  then (set_emergency_stop r true, true)
  else (r, false).

(** The ["win_rate"] entry of [get_risk_summary]. *)
Definition win_rate (r : RiskManager) : float :=
  if decide (0 < total_trades r)%Z
  then Qc_of_Z (winning_trades r) / Qc_of_Z (total_trades r)
  else 0.

Definition reset_daily (r : RiskManager) : RiskManager :=
  set_start_balances r (start_balance r) (total_balance (metrics r)).

Definition enable_emergency_stop (r : RiskManager) : RiskManager :=
  set_emergency_stop r true.

Definition disable_emergency_stop (r : RiskManager) : RiskManager :=
  set_emergency_stop r false.

(** The calls on a manager other than [disable_emergency_stop]. *)
Inductive RiskCall :=
| UpdateMetrics (balance : option (list Detail)) (positions : list Position)
| PreTradeCheck (inst_id side : string) (size price : float)
| PostTradeCheck (realizedPnl : option float)
| CheckEmergencyStop
| ResetDaily
| EnableEmergencyStop.

Definition risk_call (r : RiskManager) (c : RiskCall) : RiskManager :=
  match c with
  | UpdateMetrics balance positions => update_metrics r balance positions
  | PreTradeCheck i sd sz p => (pre_trade_check r i sd sz p).1
  | PostTradeCheck pnl => post_trade_check r pnl
  | CheckEmergencyStop => (check_emergency_stop r).1
  | ResetDaily => reset_daily r
  | EnableEmergencyStop => enable_emergency_stop r
  end.

Definition risk_calls (r : RiskManager) (cs : list RiskCall) : RiskManager :=
  fold_left risk_call cs r.

(** The balance of the module's own example:
    [{"ccy": "USDT", "bal": "10000", "availBal": "9000"}]. *)
Definition example_balance : option (list Detail) :=
  Some [mkDetail "USDT" (fl 10000 1) (fl 9000 1)].

(** The balance of the example after a 6% loss. *)
Definition example_loss : option (list Detail) :=
  Some [mkDetail "USDT" (fl 9400 1) (fl 9000 1)].

End RiskManager.

(** ** strategies/tactical_strategies.py: WallRidingStrategy *)

Module WallRiding.

Record WallInfo := mkInfo {
  first_seen : Z;
  last_seen : Z;
  depth : float
}.

(** The inner dict [price -> info]; [can_ride_wall] iterates over it, so
    its insertion order is kept. *)
Definition WallMap : Type := list (float * WallInfo).

Record WallRidingStrategy := mkStrategy {
  wall_depth_threshold : float;
  wall_persistence_time : Z;
  ride_offset : Z;
  walls : gmap string WallMap
}.

Definition init : WallRidingStrategy := mkStrategy (fl 100 1) 5 1 ∅.

Definition set_walls (s : WallRidingStrategy) (w : gmap string WallMap)
  : WallRidingStrategy :=
  mkStrategy (wall_depth_threshold s) (wall_persistence_time s)
             (ride_offset s) w.

(** The order-book message after [float(level[0])], [float(level[1])]. *)
Record BookMsg := mkMsg {
  instId : string;
  msg_bids : list (float * float)
}.

Definition wall_lookup (p : float) (m : WallMap) : option WallInfo :=
  snd <$> List.find (fun e : float * WallInfo => bool_decide (e.1 = p)) m.

(** [m[p]["last_seen"] = t] on a key that is present. *)
Fixpoint touch (p : float) (t : Z) (m : WallMap) : WallMap :=
  match m with
  | [] => []
  | (q, i) :: m' =>
      if decide (q = p) then (q, mkInfo (first_seen i) t (depth i)) :: m'
      else (q, i) :: touch p t m'
  end.

(** What the module's global name [datetime] gives when [datetime.now()]
    is evaluated: a reading, or [None] for the [NameError] of an unbound
    name.  tactical_strategies.py does not import [datetime], so the
    shipped module runs with [None]. *)
Definition Clock : Type := option Z.

(** The body of the loop over [bids[:20]].  [None] is an exception
    leaving the loop; the state it carries is what had been written. *)
Definition observe_level (clock : Clock) (inst : string) (thr : float)
    (w : gmap string WallMap) (lv : float * float)
  : gmap string WallMap * bool :=
  let '(price, dp) := lv in
  if decide (thr ≤ dp) then
    let w1 := match w !! inst with
              | None => <[inst := []]> w
              | Some _ => w
              end in
    let m := default [] (w1 !! inst) in
    match clock with
    | None => (w1, false)
    | Some t =>
        match wall_lookup price m with
        | None => (<[inst := m ++ [(price, mkInfo t t dp)]]> w1, true)
        | Some _ => (<[inst := touch price t m]> w1, true)
        end
    end
  else (w, true).

Fixpoint observe_levels (clock : Clock) (inst : string) (thr : float)
    (w : gmap string WallMap) (l : list (float * float))
  : gmap string WallMap * bool :=
  match l with
  | [] => (w, true)
  | lv :: l' =>
      let '(w1, ok) := observe_level clock inst thr w lv in
      if ok then observe_levels clock inst thr w1 l' else (w1, false)
  end.

(** [on_orderbook(data)] for a non-empty message.  An exception ends the
    handler after the writes already made.  The handler runs without
    awaiting anything; its successive [datetime.now()] readings are taken
    as the one instant [clock]. *)
Definition on_orderbook (s : WallRidingStrategy) (clock : Clock)
    (data : BookMsg) : WallRidingStrategy :=
  let inst := instId data in
  let '(w1, ok) :=
    observe_levels clock inst (wall_depth_threshold s) (walls s)
                   (take 20 (msg_bids data)) in
  if ok then
    match clock with
    | None => set_walls s w1
    | Some current_time =>
        match w1 !! inst with
        | None => set_walls s w1
        | Some m =>
            set_walls s
              (<[inst := filter (fun e : float * WallInfo =>
                                   ¬ (seconds 2 < current_time - last_seen e.2)%Z)
                                m]> w1)
        end
    end
  else set_walls s w1.

Record Ride := mkRide {
  wall_price : float;
  ride_price : float;
  wall_depth : float;
  persistence : Z
}.

(** [can_ride_wall(inst_id)]; [persistence] is in microseconds. *)
Definition can_ride_wall (s : WallRidingStrategy) (clock : Clock)
    (inst : string) : option Ride :=
  match walls s !! inst with
  | None => None
  | Some [] => None
  | Some m =>
      match clock with
      | None => None
      | Some current_time =>
          (fun e : float * WallInfo =>
             mkRide e.1 (e.1 * (1 + fl 1 1000)) (depth e.2)
                    (current_time - first_seen e.2))
            <$> List.find
                  (fun e : float * WallInfo =>
                     bool_decide (seconds (wall_persistence_time s)
                                  ≤ current_time - first_seen e.2)%Z)
                  m
      end
  end.

(** What one round of the loop body does to the instrument's map when the
    clock answers [t]. *)
Definition observe_in (t : Z) (thr : float) (m : WallMap)
    (lv : float * float) : WallMap :=
  if decide (thr ≤ lv.2) then
    match wall_lookup lv.1 m with
    | None => m ++ [(lv.1, mkInfo t t lv.2)]
    | Some _ => touch lv.1 t m
    end
  else m.

(** The price [p] is listed with a depth at or above the threshold. *)
Definition observed (thr : float) (p : float) (l : list (float * float))
  : Prop :=
  Exists (fun lv : float * float => lv.1 = p ∧ thr ≤ lv.2) l.

(** The depth of the first such listing. *)
Definition first_depth (thr : float) (p : float) (l : list (float * float))
  : option float :=
  snd <$> List.find
            (fun lv : float * float => bool_decide (lv.1 = p ∧ thr ≤ lv.2)) l.

(** A wall that has not gone unseen for more than two seconds at [t]. *)
Definition still_seen (t : Z) (i : WallInfo) : Prop :=
  (t - last_seen i ≤ seconds 2)%Z.

#[export] Instance still_seen_dec t i : Decision (still_seen t i).
Proof. unfold still_seen. apply _. Defined.

(** The inner dicts have one entry per price. *)
Definition wf_walls (s : WallRidingStrategy) : Prop :=
  ∀ inst, NoDup (default [] (walls s !! inst)).*1.

(** One bid level of depth 150 at 50000 on BTC-USDT-SWAP. *)
Definition wall_msg : BookMsg :=
  mkMsg "BTC-USDT-SWAP" [(fl 50000 1, fl 150 1)].

(** The message handled once at each of the clock readings [ts], in
    seconds. *)
Definition feed (s : WallRidingStrategy) (ts : list Z) (data : BookMsg)
  : WallRidingStrategy :=
  fold_left (fun s t => on_orderbook s (Some (seconds t)) data) ts s.

(** The handler run on successive messages under the clocks [cs]: a
    reading for each message, or [None] where [datetime] is unbound. *)
Definition handle_all (s : WallRidingStrategy)
    (ms : list (Clock * BookMsg)) : WallRidingStrategy :=
  fold_left (fun s m => on_orderbook s m.1 m.2) ms s.

(** The shipped module: every [datetime.now()] raises. *)
Definition unbound (msgs : list BookMsg) : list (Clock * BookMsg) :=
  (fun d => (None, d)) <$> msgs.

End WallRiding.

(** ** core/websocket_streamer.py *)

Module Streamer.

(** A registered coroutine: its identity, and whether awaiting it raises. *)
Record Callback := mkCallback {
  cb_id : nat;
  cb_raises : bool
}.

Definition Payload : Type := string.

(** A decoded message: [arg] is [None] when the key is absent and
    [Some None] when [arg] has no ["channel"]. *)
Record Message := mkMessage {
  m_arg : option (option string);
  m_data : option Payload;
  m_event : option string
}.

Record WebSocketStreamer := mkStreamer {
  callbacks : gmap string (list Callback);
  subscriptions : list (string * string)
}.

Definition init : WebSocketStreamer :=
  mkStreamer
    (<["ticker" := []]> (<["orderbook" := []]> (<["trades" := []]>
     (<["liquidation" := []]> (<["account" := []]> (<["orders" := []]> ∅))))))
    [].

Definition register_callback (s : WebSocketStreamer) (channel : string)
    (callback : Callback) : WebSocketStreamer :=
  match callbacks s !! channel with
  | Some l => mkStreamer (<[channel := l ++ [callback]]> (callbacks s))
                         (subscriptions s)
  | None => s
  end.

(** [for callback in l: await callback(payload)]: the calls made, in
    order; a raising callback is the last one called. *)
Fixpoint invoke_all (l : list Callback) (payload : Payload)
  : list (nat * Payload) :=
  match l with
  | [] => []
  | c :: l' =>
      (cb_id c, payload)
        :: (if cb_raises c then [] else invoke_all l' payload)
  end.

Definition dispatch (s : WebSocketStreamer) (key : string)
    (payload : Payload) : list (nat * Payload) :=
  match callbacks s !! key with
  | Some l => invoke_all l payload
  | None => []
  end.

(** [_handle_message(data)]: the callback invocations it performs. *)
Definition _handle_message (s : WebSocketStreamer) (data : Message)
  : list (nat * Payload) :=
  match m_data data, m_arg data with
  | Some payload, Some arg =>
      match arg with
      | None => []
      | Some channel =>
          if decide (channel = "tickers") then dispatch s "ticker" payload
          else if decide (channel = "books") then dispatch s "orderbook" payload
          else if decide (channel = "trades") then dispatch s "trades" payload
          else if decide (channel = "liquidation-orders") then
            dispatch s "liquidation" payload
          else if decide (channel = "account") then dispatch s "account" payload
          else if decide (channel = "orders") then dispatch s "orders" payload
          else []
      end
  | _, _ => []
  end.

(** The branches of [_handle_message]: wire channel and callback key. *)
Definition handled_channels : list (string * string) :=
  [("tickers", "ticker"); ("books", "orderbook"); ("trades", "trades");
   ("liquidation-orders", "liquidation"); ("account", "account");
   ("orders", "orders")].

(** A data message on [channel]. *)
Definition data_message (channel : string) (payload : Payload) : Message :=
  mkMessage (Some (Some channel)) (Some payload) None.

(** The streamer of [stream_orderbook]: one callback under "orderbook". *)
Definition orderbook_streamer : WebSocketStreamer :=
  register_callback init "orderbook" (mkCallback 1 false).

(** The keys of [self.callbacks]. *)
Definition callback_keys : list string :=
  ["ticker"; "orderbook"; "trades"; "liquidation"; "account"; "orders"].

(** Registrations made one after the other. *)
Definition register_all (s : WebSocketStreamer)
    (regs : list (string * Callback)) : WebSocketStreamer :=
  fold_left (fun s reg => register_callback s reg.1 reg.2) regs s.

(** The callbacks registered under [key], in the order of registration. *)
Definition registered_under (key : string) (regs : list (string * Callback))
  : list Callback :=
  snd <$> filter (fun reg : string * Callback => reg.1 = key) regs.

End Streamer.

(** * Properties *)

(** ** Sorted key lists *)

Section SortedLists.

Lemma elem_of_insort x y l : y ∈ insort x l ↔ y = x ∨ y ∈ l.
Proof.
  induction l as [|z l IH]; simpl.
  - rewrite list_elem_of_singleton, elem_of_nil. tauto.
  - destruct (decide (x < z)).
    + rewrite !elem_of_cons. tauto.
    + rewrite !elem_of_cons, IH. tauto.
Qed.

Lemma insort_sorted x l :
  x ∉ l → StronglySorted Qclt l → StronglySorted Qclt (insort x l).
Proof.
  intros Hx Hs. induction Hs as [|z l Hs IH Hz]; simpl.
  - repeat constructor.
  - destruct (decide (x < z)) as [Hlt|Hge].
    + constructor; [by constructor|].
      constructor; [done|].
      eapply Forall_impl; [exact Hz|]. intros w Hw. by etrans.
    + apply not_elem_of_cons in Hx as [Hne Hx].
      constructor; [by apply IH|].
      apply Forall_forall. intros w Hw.
      apply elem_of_insort in Hw as [->|Hw].
      * apply Qcnot_lt_le in Hge.
        destruct (Qcle_lt_or_eq _ _ Hge); [done|congruence].
      * by eapply Forall_forall in Hz.
Qed.

Lemma elem_of_remove_first_sorted x y l :
  StronglySorted Qclt l → y ∈ list_remove_first x l ↔ y ≠ x ∧ y ∈ l.
Proof.
  intros Hs. induction Hs as [|z l Hs IH Hz]; simpl.
  - rewrite elem_of_nil. tauto.
  - destruct (decide (x = z)) as [->|Hne].
    + rewrite elem_of_cons. split.
      * intros Hy. split; [|by right]. intros ->.
        eapply Forall_forall in Hz; [|exact Hy].
        by apply Qclt_not_eq in Hz.
      * intros [? [?|?]]; done.
    + rewrite !elem_of_cons, IH. split.
      * intros [->|[? ?]]; [split; [congruence|by left]|by split; [|right]].
      * intros [? [->|?]]; [by left|by right].
Qed.

Lemma remove_first_sorted x l :
  StronglySorted Qclt l → StronglySorted Qclt (list_remove_first x l).
Proof.
  intros Hs. induction Hs as [|z l Hs IH Hz]; simpl; [constructor|].
  destruct (decide (x = z)); [done|].
  constructor; [done|].
  apply Forall_forall. intros w Hw.
  apply elem_of_remove_first_sorted in Hw as [_ Hw]; [|done].
  by eapply Forall_forall in Hz.
Qed.

(** Taking a key out of a strictly sorted list and putting it back gives
    the list back. *)
Lemma insort_remove_first x l :
  StronglySorted Qclt l → x ∈ l → insort x (list_remove_first x l) = l.
Proof.
  intros Hs. induction Hs as [|z l Hs IH Hz]; simpl; intros Hx.
  - by apply elem_of_nil in Hx.
  - destruct (decide (x = z)) as [->|Hne].
    + destruct l as [|w l]; simpl; [done|].
      apply Forall_cons in Hz as [Hzw _].
      by rewrite decide_True.
    + apply elem_of_cons in Hx as [->|Hx]; [done|].
      simpl. rewrite decide_False.
      * by rewrite IH.
      * eapply Forall_forall in Hz; [|exact Hx].
        intros Hlt. by eapply Qclt_not_le; [exact Hz|apply Qclt_le_weak].
Qed.

End SortedLists.

(** ** The order-book replica *)

Section OrderBookFacts.

Import OrderBook.

Lemma bid_key_inj : Inj (=) (=) bid_key.
Proof.
  intros p q H. unfold bid_key in H.
  rewrite <- (Qcopp_involutive p), <- (Qcopp_involutive q). by rewrite H.
Qed.

Lemma ask_key_inj : Inj (=) (=) ask_key.
Proof. by intros p q H. Qed.

Lemma wf_init inst : wf (init inst).
Proof.
  split; (split; simpl; [apply SSorted_nil|]); intros k;
    rewrite elem_of_nil; (split; [done|]);
    intros (p & _ & Hp); rewrite lookup_empty in Hp; by destruct Hp.
Qed.

(** Deleting a level that is present takes its price out of the map and
    its key out of the list. *)
Lemma increment_delete_present key (s : Side) p c lv0 :
  s.1 !! p = Some lv0 →
  increment_level key s (p, 0, c)
  = (delete p s.1, list_remove_first (key p) s.2).
Proof.
  intros Hp. unfold increment_level. rewrite decide_True by done.
  by rewrite Hp.
Qed.

(** Applying a non-zero size to an absent price inserts it. *)
Lemma increment_insert_absent key (s : Side) p sz c :
  sz ≠ 0 → s.1 !! p = None →
  increment_level key s (p, sz, c)
  = (<[p := new_level p sz c]> s.1, insort (key p) s.2).
Proof.
  intros Hsz Hp. unfold increment_level. rewrite decide_False by done.
  by rewrite Hp.
Qed.

(** Applying a non-zero size to a present price overwrites the level and
    leaves the key list alone. *)
Lemma increment_update_present key (s : Side) p sz c lv0 :
  sz ≠ 0 → s.1 !! p = Some lv0 →
  increment_level key s (p, sz, c) = (<[p := new_level p sz c]> s.1, s.2).
Proof.
  intros Hsz Hp. unfold increment_level. rewrite decide_False by done.
  by rewrite Hp.
Qed.

(** The invariant is kept by every step of an incremental update. *)
Lemma increment_level_wf key (s : Side) lv :
  Inj (=) (=) key → wf_side key s → wf_side key (increment_level key s lv).
Proof.
  intros Hinj [Hs Hk]. destruct s as [m l], lv as [[p sz] c]. simpl in *.
  unfold increment_level. simpl.
  destruct (decide (sz = 0)) as [->|Hsz].
  - destruct (m !! p) as [lv0|] eqn:Hp; [|by split].
    split; simpl; [by apply remove_first_sorted|].
    intros k. rewrite elem_of_remove_first_sorted by done. rewrite Hk.
    split.
    + intros [Hne (q & <- & Hq)]. exists q. split; [done|].
      rewrite lookup_delete_ne; [done|]. by intros ->.
    + intros (q & <- & Hq).
      destruct (decide (p = q)) as [->|Hpq].
      * rewrite lookup_delete_eq in Hq. by destruct Hq.
      * rewrite lookup_delete_ne in Hq by done.
        split; [|by exists q]. intros Heq. by apply Hinj in Heq.
  - destruct (m !! p) as [lv0|] eqn:Hp; simpl.
    + split; simpl; [done|]. intros k. rewrite Hk. split.
      * intros (q & <- & Hq). exists q. split; [done|].
        rewrite lookup_insert_is_Some. destruct (decide (p = q)); auto.
      * intros (q & <- & Hq). exists q. split; [done|].
        apply lookup_insert_is_Some in Hq as [<-|[_ Hq]]; [by rewrite Hp|done].
    + assert (key p ∉ l) as Hnotin.
      { rewrite Hk. intros (q & Heq & Hq). apply Hinj in Heq as ->.
        rewrite Hp in Hq. by destruct Hq. }
      split; simpl; [by apply insort_sorted|].
      intros k. rewrite elem_of_insort, Hk. split.
      * intros [->|(q & <- & Hq)].
        -- exists p. split; [done|]. by rewrite lookup_insert_eq.
        -- exists q. split; [done|]. rewrite lookup_insert_is_Some.
           destruct (decide (p = q)); auto.
      * intros (q & <- & Hq).
        apply lookup_insert_is_Some in Hq as [<-|[_ Hq]]; [by left|].
        right. by exists q.
Qed.

Lemma increment_levels_wf key (s : Side) lvs :
  Inj (=) (=) key → wf_side key s →
  wf_side key (fold_left (increment_level key) lvs s).
Proof.
  intros Hinj. revert s. induction lvs as [|lv lvs IH]; simpl; [done|].
  intros s Hs. apply IH. by apply increment_level_wf.
Qed.

(** Delete then re-add on one side: the level is gone in between, and the
    result is the side with the price mapped to the new level and the very
    same key list. *)
Lemma side_delete_readd key (s : Side) p c0 :
  Inj (=) (=) key → wf_side key s → is_Some (s.1 !! p) →
  let s1 := increment_level key s (p, 0, c0) in
  s1.1 !! p = None
  ∧ (key p ∉ s1.2)
  ∧ (∀ sz c, sz ≠ 0 →
      increment_level key s1 (p, sz, c) = (<[p := new_level p sz c]> s.1, s.2)).
Proof.
  intros Hinj [Hs Hk] [lv0 Hp]. cbv zeta.
  rewrite (increment_delete_present _ _ _ _ lv0) by done. cbn [fst snd].
  split; [apply lookup_delete_eq|].
  split.
  { rewrite elem_of_remove_first_sorted by done. by intros [? _]. }
  intros sz c Hsz.
  rewrite increment_insert_absent; [|done|apply lookup_delete_eq].
  cbn [fst snd]. rewrite insert_delete_eq. f_equal.
  apply insort_remove_first; [done|].
  apply Hk. exists p. split; [done|]. by rewrite Hp.
Qed.

(** The sides after [update_increment] are the folds of the level loops,
    whether or not the checksum matched. *)
Lemma update_increment_sides b bd ad ck :
  let b' := (update_increment b bd ad ck).1 in
  (bids b', sorted_bids b')
    = fold_left (increment_level bid_key) bd (bids b, sorted_bids b)
  ∧ (asks b', sorted_asks b')
    = fold_left (increment_level ask_key) ad (asks b, sorted_asks b).
Proof.
  cbv zeta. unfold update_increment.
  destruct (fold_left (increment_level bid_key) bd _) as [mb lb].
  destruct (fold_left (increment_level ask_key) ad _) as [ma la].
  by destruct (decide _).
Qed.

Lemma update_increment_wf b bd ad ck :
  wf b → wf (update_increment b bd ad ck).1.
Proof.
  intros [Hb Ha]. destruct (update_increment_sides b bd ad ck) as [Eb Ea].
  split; [rewrite Eb|rewrite Ea]; apply increment_levels_wf;
    auto using bid_key_inj, ask_key_inj.
Qed.

Lemma get_best_bid_updated b b2 p lv :
  wf b → is_Some (bids b !! p) → (get_best_bid b).1 = p →
  sorted_bids b2 = sorted_bids b → bids b2 = <[p := lv]> (bids b) →
  get_best_bid b2 = (p, size lv).
Proof.
  intros [[_ Hk] _] Hp Hbest El Em. cbn [fst snd] in Hk.
  unfold get_best_bid in *. rewrite El, Em.
  destruct (sorted_bids b) as [|k l].
  - exfalso. apply (elem_of_nil (bid_key p)). apply Hk. by exists p.
  - cbv zeta in *.
    destruct (proj1 (Hk k) ltac:(by left)) as (q & Hq & [lv0 Hlv0]).
    unfold bid_key in Hq. subst k. rewrite Qcopp_involutive in *.
    rewrite Hlv0 in Hbest. cbn [fst] in Hbest. subst q.
    by rewrite lookup_insert_eq.
Qed.

Lemma get_best_ask_updated b b2 p lv :
  wf b → is_Some (asks b !! p) → (get_best_ask b).1 = p →
  sorted_asks b2 = sorted_asks b → asks b2 = <[p := lv]> (asks b) →
  get_best_ask b2 = (p, size lv).
Proof.
  intros [_ [_ Hk]] Hp Hbest El Em. cbn [fst snd] in Hk.
  unfold get_best_ask in *. rewrite El, Em.
  destruct (sorted_asks b) as [|k l].
  - exfalso. apply (elem_of_nil (ask_key p)). apply Hk. by exists p.
  - cbv zeta in *.
    destruct (proj1 (Hk k) ltac:(by left)) as (q & Hq & [lv0 Hlv0]).
    unfold ask_key in Hq. subst k.
    rewrite Hlv0 in Hbest. cbn [fst] in Hbest. subst q.
    by rewrite lookup_insert_eq.
Qed.

(** C6, the bid side and the ask side.  On a book whose sorted key lists
    are strictly ascending and hold exactly the prices of its maps, a delta
    entry of size 0 for a price that is present removes it from the price
    map and from the sorted key list; a following entry for the same price
    with a positive size leaves the book side exactly as a direct update of
    the level would: the price maps to a level carrying that price, the new
    size and the new order count, the sorted list is the original one, the
    other side is untouched, the invariant holds again, and when the price
    was the best one, the best-price accessor answers it with the new size,
    whatever checksums the two messages carry. *)
Theorem delete_then_readd_restores b p sz c0 c ck1 ck2 :
  wf b → 0 < sz →
  (is_Some (bids b !! p) →
   let b1 := (update_increment b [(p, 0, c0)] [] ck1).1 in
   let b2 := (update_increment b1 [(p, sz, c)] [] ck2).1 in
   bids b1 !! p = None
   ∧ (bid_key p ∉ sorted_bids b1)
   ∧ bids b2 = <[p := new_level p sz c]> (bids b)
   ∧ sorted_bids b2 = sorted_bids b
   ∧ (asks b2, sorted_asks b2) = (asks b, sorted_asks b)
   ∧ (∀ n, get_bids b2 n
           = get_bids (update_increment b [(p, sz, c)] [] ck2).1 n)
   ∧ wf b2
   ∧ (price <$> bids b2 !! p) = Some p
   ∧ (size <$> bids b2 !! p) = Some sz
   ∧ (orders_count <$> bids b2 !! p) = Some c
   ∧ ((get_best_bid b).1 = p → get_best_bid b2 = (p, sz)))
  ∧ (is_Some (asks b !! p) →
     let b1 := (update_increment b [] [(p, 0, c0)] ck1).1 in
     let b2 := (update_increment b1 [] [(p, sz, c)] ck2).1 in
     asks b1 !! p = None
     ∧ (ask_key p ∉ sorted_asks b1)
     ∧ asks b2 = <[p := new_level p sz c]> (asks b)
     ∧ sorted_asks b2 = sorted_asks b
     ∧ (bids b2, sorted_bids b2) = (bids b, sorted_bids b)
     ∧ (∀ n, get_asks b2 n
             = get_asks (update_increment b [] [(p, sz, c)] ck2).1 n)
     ∧ wf b2
     ∧ (price <$> asks b2 !! p) = Some p
     ∧ (size <$> asks b2 !! p) = Some sz
     ∧ (orders_count <$> asks b2 !! p) = Some c
     ∧ ((get_best_ask b).1 = p → get_best_ask b2 = (p, sz))).
Proof.
  intros Hwf Hsz.
  assert (sz ≠ 0) as Hne by (intros ->; by apply Qclt_not_eq in Hsz).
  split; intros Hp; cbv zeta.
  - pose proof Hwf as [Hb Ha]. pose proof Hp as [lv0 Hlv0].
    destruct (side_delete_readd bid_key (bids b, sorted_bids b) p c0
                bid_key_inj Hb Hp) as (H1 & H2 & H3).
    specialize (H3 sz c Hne).
    destruct (update_increment_sides b [(p, 0, c0)] [] ck1) as [E1 E1'].
    set (b1 := (update_increment b [(p, 0, c0)] [] ck1).1) in *.
    destruct (update_increment_sides b1 [(p, sz, c)] [] ck2) as [E2 E2'].
    set (b2 := (update_increment b1 [(p, sz, c)] [] ck2).1) in *.
    destruct (update_increment_sides b [(p, sz, c)] [] ck2) as [E3 E3'].
    set (b3 := (update_increment b [(p, sz, c)] [] ck2).1) in *.
    cbn [fold_left] in E1, E1', E2, E2', E3, E3'.
    rewrite <- E1 in H1, H2, H3. cbn [fst snd] in H1, H2, H3.
    rewrite E1' in E2'. rewrite H3 in E2.
    rewrite (increment_update_present _ _ _ _ _ lv0) in E3 by done.
    cbn [fst snd] in E3.
    assert (bids b2 = bids b3 ∧ sorted_bids b2 = sorted_bids b3) as [Em El].
    { split; congruence. }
    assert (Hm2 : bids b2 = <[p := new_level p sz c]> (bids b))
      by congruence.
    assert (Hl2 : sorted_bids b2 = sorted_bids b) by congruence.
    split_and!.
    + exact H1.
    + exact H2.
    + exact Hm2.
    + exact Hl2.
    + exact E2'.
    + intros n. unfold get_bids. by rewrite Em, El.
    + subst b2 b1. by do 2 apply update_increment_wf.
    + rewrite Hm2, lookup_insert_eq. reflexivity.
    + rewrite Hm2, lookup_insert_eq. reflexivity.
    + rewrite Hm2, lookup_insert_eq. reflexivity.
    + intros Hbest.
      exact (get_best_bid_updated b b2 p _ Hwf Hp Hbest Hl2 Hm2).
  - pose proof Hwf as [Hb Ha]. pose proof Hp as [lv0 Hlv0].
    destruct (side_delete_readd ask_key (asks b, sorted_asks b) p c0
                ask_key_inj Ha Hp) as (H1 & H2 & H3).
    specialize (H3 sz c Hne).
    destruct (update_increment_sides b [] [(p, 0, c0)] ck1) as [E1' E1].
    set (b1 := (update_increment b [] [(p, 0, c0)] ck1).1) in *.
    destruct (update_increment_sides b1 [] [(p, sz, c)] ck2) as [E2' E2].
    set (b2 := (update_increment b1 [] [(p, sz, c)] ck2).1) in *.
    destruct (update_increment_sides b [] [(p, sz, c)] ck2) as [E3' E3].
    set (b3 := (update_increment b [] [(p, sz, c)] ck2).1) in *.
    cbn [fold_left] in E1, E1', E2, E2', E3, E3'.
    rewrite <- E1 in H1, H2, H3. cbn [fst snd] in H1, H2, H3.
    rewrite E1' in E2'. rewrite H3 in E2.
    rewrite (increment_update_present _ _ _ _ _ lv0) in E3 by done.
    cbn [fst snd] in E3.
    assert (asks b2 = asks b3 ∧ sorted_asks b2 = sorted_asks b3) as [Em El].
    { split; congruence. }
    assert (Hm2 : asks b2 = <[p := new_level p sz c]> (asks b))
      by congruence.
    assert (Hl2 : sorted_asks b2 = sorted_asks b) by congruence.
    split_and!.
    + exact H1.
    + exact H2.
    + exact Hm2.
    + exact Hl2.
    + exact E2'.
    + intros n. unfold get_asks. by rewrite Em, El.
    + subst b2 b1. by do 2 apply update_increment_wf.
    + rewrite Hm2, lookup_insert_eq. reflexivity.
    + rewrite Hm2, lookup_insert_eq. reflexivity.
    + rewrite Hm2, lookup_insert_eq. reflexivity.
    + intros Hbest.
      exact (get_best_ask_updated b b2 p _ Hwf Hp Hbest Hl2 Hm2).
Qed.

Lemma wf_book_A : wf book_A.
Proof. apply update_increment_wf, wf_init. Qed.

Lemma delete_then_readd_witness :
  let p := fl 100 1 in
  let b1 := (update_increment book_A [(p, 0, 0%Z)] [] 0).1 in
  let b2 := (update_increment b1 [(p, fl 7 1, 2%Z)] [] 0).1 in
  (wf book_A ∧ 0 < fl 7 1 ∧ is_Some (bids book_A !! p)
   ∧ (get_best_bid book_A).1 = p)
  ∧ bids b1 !! p = None
  ∧ bids b2 = <[p := new_level p (fl 7 1) 2]> (bids book_A)
  ∧ sorted_bids b2 = sorted_bids book_A
  ∧ (size <$> bids b2 !! p) = Some (fl 7 1)
  ∧ get_best_bid b2 = (p, fl 7 1).
Proof.
  cbv zeta.
  assert (H1 : wf book_A) by exact wf_book_A.
  assert (H2 : 0 < fl 7 1) by (vm_compute; reflexivity).
  assert (H3 : is_Some (bids book_A !! fl 100 1)).
  { apply (bool_decide_unpack _). vm_compute. exact I. }
  assert (H4 : (get_best_bid book_A).1 = fl 100 1)
    by (vm_compute; reflexivity).
  destruct (delete_then_readd_restores book_A (fl 100 1) (fl 7 1)
              0 2 0 0 H1 H2) as [H _].
  destruct (H H3) as (Ha & _ & Hb & Hc & _ & _ & _ & _ & Hs & _ & Hbest).
  exact (conj (conj H1 (conj H2 (conj H3 H4)))
              (conj Ha (conj Hb (conj Hc (conj Hs (Hbest H4)))))).
Defined.

(** The invariant is needed.  A snapshot that lists 100 twice leaves two
    keys for the one price, and incremental updates go on from that book:
    the entry of size 0 removes the price from the map and one key only,
    so the other key stays in the sorted list and [get_best_bid] answers
    (0.0, 0.0) although 99 is still bid; the entry that adds the price
    again inserts a second key, and [get_bids] lists the level twice where
    a book that never held it lists it once. *)
Lemma readd_after_repeated_snapshot :
  let p := fl 100 1 in
  let b := update_snapshot (init "BTC-USDT-SWAP")
             [(p, fl 5 1, 1%Z); (p, fl 6 1, 1%Z); (fl 99 1, fl 3 1, 1%Z)]
             [] 0 in
  let b1 := (update_increment b [(p, 0, 0%Z)] [] 0).1 in
  let b2 := (update_increment b1 [(p, fl 7 1, 1%Z)] [] 0).1 in
  let fresh :=
    (update_increment
       (update_increment (init "BTC-USDT-SWAP")
                         [(fl 99 1, fl 3 1, 1%Z)] [] 0).1
       [(p, fl 7 1, 1%Z)] [] 0).1 in
  is_Some (bids b !! p)
  ∧ bids b1 !! p = None
  ∧ sorted_bids b1 = [bid_key p; bid_key (fl 99 1)]
  ∧ get_best_bid b1 = (0, 0)
  ∧ get_bids b1 25 = [(fl 99 1, fl 3 1)]
  ∧ sorted_bids b2 = [bid_key p; bid_key p; bid_key (fl 99 1)]
  ∧ get_bids b2 25 = [(p, fl 7 1); (p, fl 7 1); (fl 99 1, fl 3 1)]
  ∧ get_bids fresh 25 = [(p, fl 7 1); (fl 99 1, fl 3 1)].
Proof.
  cbv zeta. split_and!; apply (bool_decide_unpack _); vm_compute; exact I.
Qed.

(** C10.  A side with nothing on it makes its best-price accessor return
    the pair (0.0, 0.0); and as soon as one of the two sides is empty,
    [get_spread] and [get_spread_bps] return 0.0. *)
Theorem empty_side_sentinels b :
  (bid_side_empty b → get_best_bid b = (0, 0))
  ∧ (ask_side_empty b → get_best_ask b = (0, 0))
  ∧ (bid_side_empty b ∨ ask_side_empty b →
     get_spread b = 0 ∧ get_spread_bps b = 0).
Proof.
  assert (Hbid : bid_side_empty b → get_best_bid b = (0, 0)).
  { intros [H|H]; unfold get_best_bid; rewrite H; [done|].
    destruct (sorted_bids b); [done|]. by rewrite lookup_empty. }
  assert (Hask : ask_side_empty b → get_best_ask b = (0, 0)).
  { intros [H|H]; unfold get_best_ask; rewrite H; [done|].
    destruct (sorted_asks b); [done|]. by rewrite lookup_empty. }
  split_and!; [done|done|].
  intros H.
  assert (get_spread b = 0) as Hs.
  { unfold get_spread. rewrite decide_False; [done|].
    intros [H1 H2]. destruct H as [H|H].
    - rewrite (Hbid H) in H1. by apply (irreflexivity Qclt 0).
    - rewrite (Hask H) in H2. by apply (irreflexivity Qclt 0). }
  split; [done|]. unfold get_spread_bps. rewrite Hs.
  destruct (decide _); [|done].
  unfold Qcdiv. by rewrite !Qcmult_0_l.
Qed.

Lemma empty_side_sentinels_witness :
  bid_side_empty (init "BTC-USDT-SWAP")
  ∧ get_best_bid (init "BTC-USDT-SWAP") = (0, 0)
  ∧ get_spread (init "BTC-USDT-SWAP") = 0
  ∧ get_spread_bps (init "BTC-USDT-SWAP") = 0.
Proof.
  assert (H : bid_side_empty (init "BTC-USDT-SWAP")) by (left; reflexivity).
  destruct (empty_side_sentinels (init "BTC-USDT-SWAP")) as (Ha & _ & Hb).
  destruct (Hb (or_introl H)) as [Hc Hd].
  exact (conj H (conj (Ha H) (conj Hc Hd))).
Defined.

(** The reference book is consistent: the checksum it was received with is
    the one the code computes, the update was accepted and recorded. *)
Lemma book_A_consistent :
  checksum_str book_A = "100:5:99:3:101:2:"
  ∧ _calculate_checksum book_A = 2284997975%Z
  ∧ checksum book_A = 2284997975%Z
  ∧ (update_increment (init "BTC-USDT-SWAP") scenario_bids scenario_asks
                      2284997975).2 = true
  ∧ update_count book_A = 1%Z ∧ error_count book_A = 0%Z.
Proof. vm_compute. by split_and!. Qed.

(** Whatever the checksum, the fields other than the two sides and the
    three counters are those of the book before the update. *)
Lemma update_increment_frame b bd ad ck :
  let b' := (update_increment b bd ad ck).1 in
  inst_id b' = inst_id b ∧ sequence b' = sequence b
  ∧ bids_history b' = bids_history b ∧ asks_history b' = asks_history b
  ∧ features b' = features b.
Proof. cbv zeta. unfold update_increment. by destruct (decide _). Qed.

(** C2, as the code has it.  When the checksum recomputed after applying
    the levels differs from the one the message carries, [update_increment]
    returns [False] and nothing is rolled back: both sides are the result
    of the level loops, [error_count] has grown by exactly 1,
    [update_count] and the stored [checksum] are the old ones, every other
    field is unchanged, and the committed book still fails the carried
    checksum.  The replica has no [consistent] field; the rejection is
    visible in the result and in [error_count] only. *)
Theorem mismatch_commits_without_rollback b bd ad ck :
  let sb := fold_left (increment_level bid_key) bd (bids b, sorted_bids b) in
  let sa := fold_left (increment_level ask_key) ad (asks b, sorted_asks b) in
  _calculate_checksum (set_sides b sb sa) ≠ ck →
  let r := update_increment b bd ad ck in
  r.2 = false
  ∧ (bids r.1, sorted_bids r.1) = sb
  ∧ (asks r.1, sorted_asks r.1) = sa
  ∧ error_count r.1 = (error_count b + 1)%Z
  ∧ update_count r.1 = update_count b
  ∧ checksum r.1 = checksum b
  ∧ (inst_id r.1 = inst_id b ∧ sequence r.1 = sequence b
     ∧ bids_history r.1 = bids_history b ∧ asks_history r.1 = asks_history b
     ∧ features r.1 = features b)
  ∧ _calculate_checksum r.1 ≠ ck.
Proof.
  cbv zeta. intros Hne. unfold update_increment.
  rewrite decide_True by done.
  destruct (fold_left (increment_level bid_key) bd _) as [mb lb].
  destruct (fold_left (increment_level ask_key) ad _) as [ma la].
  by split_and!.
Qed.

Lemma mismatch_commits_witness :
  let r := update_increment book_A [(fl 100 1, fl 7 1, 2%Z)] [] 0 in
  r.2 = false ∧ error_count r.1 = (error_count book_A + 1)%Z
  ∧ update_count r.1 = update_count book_A
  ∧ checksum r.1 = checksum book_A.
Proof.
  cbv zeta.
  assert (H : _calculate_checksum
                (set_sides book_A
                   (fold_left (increment_level bid_key)
                      [(fl 100 1, fl 7 1, 2%Z)]
                      (bids book_A, sorted_bids book_A))
                   (fold_left (increment_level ask_key) []
                      (asks book_A, sorted_asks book_A))) ≠ 0%Z).
  { vm_compute. discriminate. }
  destruct (mismatch_commits_without_rollback book_A
              [(fl 100 1, fl 7 1, 2%Z)] [] 0 H)
    as (Ha & _ & _ & Hb & Hc & Hd & _).
  exact (conj Ha (conj Hb (conj Hc Hd))).
Defined.

(** C2 as stated fails: a mismatching (here empty) update of the consistent
    reference book is rejected and leaves a book that differs from the one
    before in [error_count] alone, so no flag of the replica went from true
    to false. *)
Lemma no_consistent_flag :
  let r := update_increment book_A [] [] 0 in
  _calculate_checksum book_A ≠ 0%Z
  ∧ r.2 = false
  ∧ r.1 = set_counters book_A (checksum book_A) (update_count book_A)
                       (error_count book_A + 1)
  ∧ ¬ ∃ consistent : ProfessionalOrderBook → bool,
        (∀ x e, consistent (set_counters x (checksum x) (update_count x) e)
                = consistent x)
        ∧ consistent book_A = true ∧ consistent r.1 = false.
Proof.
  cbv zeta.
  assert (Hne : _calculate_checksum book_A ≠ 0%Z).
  { vm_compute. discriminate. }
  assert (Hr : (update_increment book_A [] [] 0).1
               = set_counters book_A (checksum book_A) (update_count book_A)
                              (error_count book_A + 1)).
  { unfold update_increment. cbn [fold_left].
    assert (set_sides book_A (bids book_A, sorted_bids book_A)
                      (asks book_A, sorted_asks book_A) = book_A) as ->
      by (by destruct book_A).
    by rewrite decide_True. }
  split_and!; [done| |done|].
  - unfold update_increment. cbn [fold_left].
    assert (set_sides book_A (bids book_A, sorted_bids book_A)
                      (asks book_A, sorted_asks book_A) = book_A) as ->
      by (by destruct book_A).
    by rewrite decide_True.
  - intros (f & Hf & Ht & Hfalse). rewrite Hr, Hf in Hfalse. congruence.
Qed.

Lemma string_app_assoc (s1 s2 s3 : string) :
  (s1 +:+ s2) +:+ s3 = s1 +:+ (s2 +:+ s3).
Proof.
  induction s1 as [|a s1 IH]; [done|].
  change (String a ((s1 +:+ s2) +:+ s3) = String a (s1 +:+ (s2 +:+ s3))).
  by rewrite IH.
Qed.

Lemma string_app_nil_r (s : string) : s +:+ "" = s.
Proof.
  induction s as [|a s IH]; [done|].
  change (String a (s +:+ "") = String a s). by rewrite IH.
Qed.

Lemma terminated_cons f l : terminated (f :: l) = f +:+ ":" +:+ terminated l.
Proof. reflexivity. Qed.

Lemma terminated_app l1 l2 :
  terminated (l1 ++ l2) = terminated l1 +:+ terminated l2.
Proof.
  induction l1 as [|f l1 IH]; [done|].
  rewrite <- app_comm_cons, !terminated_cons, IH.
  by rewrite !string_app_assoc.
Qed.

(** The accumulation loop appends, for each pair, its two fields each
    followed by a colon. *)
Lemma fold_add_pair l acc :
  fold_left add_pair l acc
  = acc +:+ terminated (l ≫= (fun ps => [format_0f ps.1; format_0f ps.2])).
Proof.
  revert acc. induction l as [|ps l IH]; intros acc.
  - simpl. by rewrite string_app_nil_r.
  - cbn [fold_left]. rewrite IH. unfold add_pair.
    rewrite bind_cons, terminated_app, !terminated_cons.
    change (terminated []) with "".
    by rewrite !string_app_assoc.
Qed.

Lemma terminated_concat (fields : list string) :
  fields ≠ [] → terminated fields = String.concat ":" fields +:+ ":".
Proof.
  induction fields as [|f fields IH]; [done|]. intros _.
  destruct fields as [|g fields].
  - by rewrite terminated_cons.
  - rewrite terminated_cons, IH by done.
    change (String.concat ":" (f :: g :: fields))
      with (f +:+ ":" +:+ String.concat ":" (g :: fields)).
    by rewrite !string_app_assoc.
Qed.

Lemma checksum_str_terminated b :
  checksum_str b = terminated (checksum_fields b).
Proof.
  unfold checksum_str, checksum_fields. rewrite !fold_add_pair.
  by rewrite bind_app, terminated_app.
Qed.


(** *** The levels a query returns *)

Section TopLevels.

Variables (key inv : float -> float) (before : float -> float -> Prop).
Hypothesis key_inv : ∀ k, key (inv k) = k.
Hypothesis inv_key : ∀ p, inv (key p) = p.
Hypothesis before_key : ∀ p q, before p q ↔ key p < key q.

Variable m : gmap float OrderBookLevel.

Let entry (k : float) : option (float * float) :=
  (fun lv => (inv k, size lv)) <$> m !! inv k.

Lemma entries_prices l :
  (∀ k, k ∈ l → is_Some (m !! inv k)) → (omap entry l).*1 = inv <$> l.
Proof.
  induction l as [|k l IH]; intros Hl; [done|].
  destruct (Hl k) as [lv Hlv]; [by left|].
  cbn [omap list_omap]. unfold entry at 1. rewrite Hlv. cbn.
  f_equal. apply IH. intros k' Hk'. apply Hl. by right.
Qed.

Lemma entries_sorted l :
  (∀ k, k ∈ l → is_Some (m !! inv k)) → StronglySorted Qclt l →
  StronglySorted (fun x y => before x.1 y.1) (omap entry l).
Proof.
  intros Hl Hs. induction Hs as [|k l Hs IH Hk]; [constructor|].
  destruct (Hl k) as [lv Hlv]; [by left|].
  cbn [omap list_omap]. unfold entry at 1. rewrite Hlv. cbn.
  constructor.
  - apply IH. intros k' Hk'. apply Hl. by right.
  - apply Forall_forall. intros [p s] Hps.
    apply list_elem_of_omap in Hps as (k' & Hk' & Hf).
    unfold entry in Hf. destruct (m !! inv k') as [lv'|]; [|done].
    injection Hf as <- <-. cbn.
    apply before_key. rewrite !key_inv.
    by eapply Forall_forall in Hk.
Qed.

Lemma side_top_levels l n :
  wf_side key (m, l) → top_levels before m n (omap entry (take n l)).
Proof.
  intros [Hs Hk]. cbn [fst snd] in *.
  assert (Hpresent : ∀ k, k ∈ take n l → is_Some (m !! inv k)).
  { intros k Hin. assert (k ∈ l) as Hkl.
    { rewrite <- (take_drop n l). apply elem_of_app. by left. }
    apply Hk in Hkl as (p & <- & Hp). by rewrite inv_key. }
  assert (Hst : StronglySorted Qclt (take n l)).
  { rewrite <- (take_drop n l) in Hs. by apply StronglySorted_app_1_l in Hs. }
  split_and!.
  - by apply entries_sorted.
  - rewrite <- (length_fmap fst), entries_prices, length_fmap by done.
    rewrite length_take. lia.
  - intros p s Hps. apply list_elem_of_omap in Hps as (k & Hin & Hf).
    unfold entry in Hf. destruct (m !! inv k) as [lv|] eqn:E; [|done].
    injection Hf as <- <-. by exists lv.
  - intros q Hq Hnot. rewrite entries_prices in Hnot |- * by done.
    assert (key q ∈ l) as Hin by (apply Hk; by exists q).
    assert (key q ∉ take n l) as Hnt.
    { intros Hin'. apply Hnot. rewrite <- (inv_key q).
      apply list_elem_of_fmap. by exists (key q). }
    rewrite <- (take_drop n l) in Hin.
    apply elem_of_app in Hin as [Hin|Hin]; [done|].
    split.
    + rewrite <- (length_fmap fst), entries_prices, length_fmap by done.
      rewrite length_take.
      destruct (decide (n ≤ length l)%nat) as [|Hgt]; [lia|].
      rewrite drop_ge in Hin by lia. by apply elem_of_nil in Hin.
    + intros p Hp. apply list_elem_of_fmap in Hp as (k & -> & Hkin).
      apply before_key. rewrite key_inv.
      rewrite <- (take_drop n l) in Hs.
      by eapply StronglySorted_app_1_elem_of in Hs.
Qed.

End TopLevels.

Lemma Qcopp_lt (p q : float) : p < q → - q < - p.
Proof.
  unfold Qclt, Qcopp. intros H. simpl. rewrite !Qred_correct.
  by apply Qopp_lt_compat.
Qed.

Lemma get_bids_top b n :
  wf b → top_levels (fun p q => q < p) (bids b) n (get_bids b n).
Proof.
  intros [Hb _].
  apply (side_top_levels bid_key Qcopp (fun p q => q < p)); [| | |done].
  - intros k. apply Qcopp_involutive.
  - intros p. apply Qcopp_involutive.
  - intros p q. unfold bid_key. split; intros H.
    + by apply Qcopp_lt.
    + apply Qcopp_lt in H. by rewrite !Qcopp_involutive in H.
Qed.

Lemma get_asks_top b n :
  wf b → top_levels Qclt (asks b) n (get_asks b n).
Proof.
  intros [_ Ha].
  by apply (side_top_levels ask_key (fun k => k) Qclt).
Qed.


(** C1, as the code has it.  The string hashed by [_calculate_checksum] is
    made of the rounded price and size of the levels returned by
    [get_bids(25)] and then [get_asks(25)], EACH field followed by a colon:
    whenever a level is present it is the colon-joined string plus one
    trailing colon.  The checksum is the CRC32 of its bytes masked to 32
    bits.  On a book satisfying the representation invariant the levels
    hashed are the best 25 bids in descending price order and the best 25
    asks in ascending price order. *)
Theorem checksum_of_terminated_fields b :
  checksum_str b = terminated (checksum_fields b)
  ∧ (checksum_fields b ≠ [] →
     checksum_str b = String.concat ":" (checksum_fields b) +:+ ":")
  ∧ _calculate_checksum b
    = Z.land (Crc.crc32 (Crc.encode (terminated (checksum_fields b))))
             0xFFFFFFFF%Z
  ∧ (0 ≤ _calculate_checksum b < 2 ^ 32)%Z
  ∧ (wf b →
     top_levels (fun p q => q < p) (bids b) 25 (get_bids b 25)
     ∧ top_levels Qclt (asks b) 25 (get_asks b 25)).
Proof.
  split_and!.
  - apply checksum_str_terminated.
  - intros H. rewrite checksum_str_terminated. by apply terminated_concat.
  - unfold _calculate_checksum. by rewrite checksum_str_terminated.
  - unfold _calculate_checksum. change 0xFFFFFFFF%Z with (Z.ones 32).
    rewrite Z.land_ones by lia. apply Z.mod_pos_bound. lia.
  - unfold _calculate_checksum. change 0xFFFFFFFF%Z with (Z.ones 32).
    rewrite Z.land_ones by lia. apply Z.mod_pos_bound. lia.
  - intros Hwf. split; [by apply get_bids_top|by apply get_asks_top].
Qed.

Lemma checksum_of_terminated_fields_witness :
  (wf book_A ∧ checksum_fields book_A ≠ [])
  ∧ checksum_str book_A = String.concat ":" (checksum_fields book_A) +:+ ":"
  ∧ top_levels (fun p q => q < p) (bids book_A) 25 (get_bids book_A 25).
Proof.
  assert (H1 : wf book_A) by exact wf_book_A.
  assert (H2 : checksum_fields book_A ≠ []) by (vm_compute; discriminate).
  destruct (checksum_of_terminated_fields book_A) as (_ & Ha & _ & _ & Hb).
  destruct (Hb H1) as [Hc _].
  exact (conj (conj H1 H2) (conj (Ha H2) Hc)).
Defined.

(** C1 as stated fails: on the reference book the code hashes
    "100:5:99:3:101:2:" and not the colon-joined "100:5:99:3:101:2". *)
Lemma trailing_separator_changes_checksum :
  checksum_str book_A = "100:5:99:3:101:2:"
  ∧ String.concat ":" (checksum_fields book_A) = "100:5:99:3:101:2"
  ∧ _calculate_checksum book_A = 2284997975%Z
  ∧ joined_checksum book_A = 897434052%Z
  ∧ _calculate_checksum book_A ≠ joined_checksum book_A.
Proof. vm_compute. split_and!; done. Qed.

(** *** Feature computation *)


(** [calculate_ofi] writes the two histories and nothing else. *)
Lemma calculate_ofi_sides b tf t : same_sides (calculate_ofi b tf t).1 b.
Proof.
  unfold calculate_ofi.
  destruct (get_best_bid b) as [bp bs], (get_best_ask b) as [ap az].
  by destruct (decide _).
Qed.

(** Every query of the book reads the sides only. *)
Lemma same_sides_queries a b :
  same_sides a b →
  get_best_bid a = get_best_bid b ∧ get_best_ask a = get_best_ask b
  ∧ get_mid_price a = get_mid_price b ∧ get_spread a = get_spread b
  ∧ get_spread_bps a = get_spread_bps b ∧ get_wmp a = get_wmp b
  ∧ (∀ n, get_bids a n = get_bids b n) ∧ (∀ n, get_asks a n = get_asks b n)
  ∧ (∀ d t g, detect_liquidity_void a d t g = detect_liquidity_void b d t g)
  ∧ (∀ d n, detect_wall a d n = detect_wall b d n).
Proof.
  intros (Hb & Ha & Hsb & Hsa).
  assert (E1 : get_best_bid a = get_best_bid b).
  { unfold get_best_bid. by rewrite Hb, Hsb. }
  assert (E2 : get_best_ask a = get_best_ask b).
  { unfold get_best_ask. by rewrite Ha, Hsa. }
  assert (E3 : get_mid_price a = get_mid_price b).
  { unfold get_mid_price. by rewrite E1, E2. }
  assert (E4 : get_spread a = get_spread b).
  { unfold get_spread. by rewrite E1, E2. }
  assert (E5 : ∀ n, get_bids a n = get_bids b n).
  { intros n. unfold get_bids. by rewrite Hb, Hsb. }
  assert (E6 : ∀ n, get_asks a n = get_asks b n).
  { intros n. unfold get_asks. by rewrite Ha, Hsa. }
  split_and!; try done.
  - unfold get_spread_bps. by rewrite E3, E4.
  - unfold get_wmp. by rewrite E1, E2, E3.
  - intros d t g. unfold detect_liquidity_void. by rewrite E5, E6.
  - intros d n. unfold detect_wall. by rewrite E5, E6.
Qed.


Lemma same_sides_trans a b c : same_sides a b → same_sides b c → same_sides a c.
Proof. intros (?&?&?&?) (?&?&?&?). split_and!; congruence. Qed.

(** What [calculate_features] returns, apart from the two OFI values and
    the pressures derived from them, is read off the sides of the book; and
    it leaves the sides as they are. *)
Lemma calculate_features_book_part b t1 t2 :
  let r := calculate_features b t1 t2 in
  let voids := detect_liquidity_void b "both" (fl 2 1000) 5 in
  let wall := detect_wall b (fl 50 1) 20 in
  same_sides r.1 b
  ∧ (best_bid r.2, bid_depth_5 r.2) = get_best_bid b
  ∧ (best_ask r.2, ask_depth_5 r.2) = get_best_ask b
  ∧ mid_price r.2 = get_mid_price b
  ∧ spread r.2 = get_spread b
  ∧ spread_bps r.2 = get_spread_bps b
  ∧ wmp r.2 = get_wmp b
  ∧ liquidity_void_above r.2
    = filter (fun v : float * float => v.1 < v.2) voids
  ∧ liquidity_void_below r.2
    = filter (fun v : float * float => v.2 < v.1) voids
  ∧ has_wall r.2 = bool_decide (is_Some wall)
  ∧ wall_side r.2 = w_side <$> wall
  ∧ wall_price r.2 = default 0 (w_price <$> wall)
  ∧ wall_depth r.2 = default 0 (w_depth <$> wall).
Proof.
  cbv zeta. unfold calculate_features.
  destruct (get_best_bid b) as [bp bs] eqn:Eb.
  destruct (get_best_ask b) as [ap az] eqn:Ea.
  pose proof (calculate_ofi_sides b "1s" t1) as H1.
  destruct (calculate_ofi b "1s" t1) as [b1 o1]. cbn [fst] in H1.
  pose proof (calculate_ofi_sides b1 "5s" t2) as H2.
  destruct (calculate_ofi b1 "5s" t2) as [b2 o5]. cbn [fst] in H2.
  assert (H : same_sides b2 b) by (by eapply same_sides_trans).
  destruct (same_sides_queries b2 b H)
    as (_ & _ & _ & _ & _ & _ & _ & _ & Hv & Hw).
  cbn [fst snd best_bid bid_depth_5 best_ask ask_depth_5 mid_price spread
       spread_bps wmp liquidity_void_above liquidity_void_below has_wall
       wall_side wall_price wall_depth].
  rewrite Hv, Hw. by split_and!.
Qed.

(** C7, as the code has it.  Computing the features twice in a row, at any
    clock readings, gives the same best bid and ask with their depths, mid
    price, spread, spread in basis points, WMP, void lists and wall
    descriptor, and leaves the book sides untouched.  The two OFI values
    and the pressures derived from them are not covered: each computation
    appends the current best sizes, stamped with the clock, to the
    histories they are computed from. *)
Theorem features_recomputed_from_book b t1 t2 t3 t4 :
  let r1 := calculate_features b t1 t2 in
  let r2 := calculate_features r1.1 t3 t4 in
  same_sides r2.1 b
  ∧ best_bid r2.2 = best_bid r1.2 ∧ best_ask r2.2 = best_ask r1.2
  ∧ bid_depth_5 r2.2 = bid_depth_5 r1.2 ∧ ask_depth_5 r2.2 = ask_depth_5 r1.2
  ∧ mid_price r2.2 = mid_price r1.2
  ∧ spread r2.2 = spread r1.2 ∧ spread_bps r2.2 = spread_bps r1.2
  ∧ wmp r2.2 = wmp r1.2
  ∧ liquidity_void_above r2.2 = liquidity_void_above r1.2
  ∧ liquidity_void_below r2.2 = liquidity_void_below r1.2
  ∧ has_wall r2.2 = has_wall r1.2 ∧ wall_side r2.2 = wall_side r1.2
  ∧ wall_price r2.2 = wall_price r1.2 ∧ wall_depth r2.2 = wall_depth r1.2.
Proof.
  cbv zeta.
  destruct (calculate_features_book_part b t1 t2)
    as (S1 & A1 & B1 & C1 & D1 & E1 & F1 & G1 & I1 & J1 & K1 & L1 & M1).
  set (r1 := calculate_features b t1 t2) in *.
  destruct (calculate_features_book_part r1.1 t3 t4)
    as (S2 & A2 & B2 & C2 & D2 & E2 & F2 & G2 & I2 & J2 & K2 & L2 & M2).
  set (r2 := calculate_features r1.1 t3 t4) in *.
  destruct (same_sides_queries r1.1 b S1)
    as (Q1 & Q2 & Q3 & Q4 & Q5 & Q6 & _ & _ & Q9 & Q10).
  rewrite Q1 in A2. rewrite Q2 in B2. rewrite Q3 in C2. rewrite Q4 in D2.
  rewrite Q5 in E2. rewrite Q6 in F2. rewrite Q9 in G2, I2.
  rewrite Q10 in J2, K2, L2, M2.
  rewrite <- A1 in A2. rewrite <- B1 in B2.
  injection A2 as A2 A2'. injection B2 as B2 B2'.
  split_and!; try congruence.
  by eapply same_sides_trans.
Qed.



(** C7 as stated fails on the OFI fields.  The features of the reference
    book are computed at t = 0 (best-bid size 5) and the best bid then
    grows to 10.  With no further update, a computation at t = 0.5 s gives
    ofi_1s = 5 and the next one at t = 2 s gives ofi_1s = 0. *)
Lemma ofi_differs_on_recompute :
  let r1 := calculate_features ofi_scenario_book 500000 500000 in
  let r2 := calculate_features r1.1 (seconds 2) (seconds 2) in
  same_sides r1.1 ofi_scenario_book
  ∧ ofi_1s r1.2 = fl 5 1 ∧ ofi_1s r2.2 = 0
  ∧ buy_pressure r1.2 = fl 5 1 ∧ buy_pressure r2.2 = 0
  ∧ ofi_1s r2.2 ≠ ofi_1s r1.2.
Proof.
  cbv zeta. split.
  - by destruct (calculate_features_book_part ofi_scenario_book
                   500000 500000) as [H _].
  - apply (bool_decide_unpack _). vm_compute. exact I.
Qed.

End OrderBookFacts.

(** ** Kill switch *)

Section KillSwitchFacts.
Import KillSwitch.

(** Once tripped, an iteration of the loop changes nothing and calls
    nothing. *)
Lemma monitor_step_triggered s e :
  is_triggered s = true → monitor_step s e = (s, []).
Proof. intros H. unfold monitor_step. by rewrite H. Qed.

Lemma monitor_loop_triggered s es :
  is_triggered s = true → _monitor_loop s es = (s, []).
Proof.
  intros H. induction es as [|e es IH]; [done|].
  cbn [_monitor_loop]. by rewrite monitor_step_triggered, IH.
Qed.

Lemma monitor_loop_app s es1 es2 :
  _monitor_loop s (es1 ++ es2)
  = ((_monitor_loop (_monitor_loop s es1).1 es2).1,
     (_monitor_loop s es1).2 ++ (_monitor_loop (_monitor_loop s es1).1 es2).2).
Proof.
  revert s. induction es1 as [|e es1 IH]; intros s.
  - cbn [app _monitor_loop fst snd]. by destruct (_monitor_loop s es2).
  - rewrite <- app_comm_cons. cbn [_monitor_loop].
    destruct (monitor_step s e) as [s1 c1]. rewrite IH.
    destruct (_monitor_loop s1 es1) as [s2 c2]. cbn [fst snd].
    destruct (_monitor_loop s2 es2) as [s3 c3]. cbn [fst snd].
    by rewrite app_assoc.
Qed.

(** An iteration that ends untripped started untripped and only polled the
    engine. *)
Lemma monitor_step_untriggered s e :
  is_triggered (monitor_step s e).1 = false →
  is_triggered s = false
  ∧ (monitor_step s e).2 = [GetBalance; GetAvgLatency].
Proof.
  unfold monitor_step.
  destruct (is_triggered s) eqn:Ht; [by intros H; cbn in H; congruence|].
  unfold _update_data, _check_conditions.
  repeat destruct (decide _); cbn; intros H; try discriminate; done.
Qed.

Lemma monitor_loop_untriggered s es :
  is_triggered (_monitor_loop s es).1 = false →
  is_triggered s = false
  ∧ (_monitor_loop s es).2
    = mjoin (replicate (length es) [GetBalance; GetAvgLatency])
  ∧ ∀ k, is_triggered (_monitor_loop s (take k es)).1 = false.
Proof.
  revert s. induction es as [|e es IH]; intros s H.
  - cbn in *. split_and!; [done..|]. intros k. by rewrite take_nil.
  - cbn [_monitor_loop] in H |- *.
    destruct (monitor_step s e) as [s1 c1] eqn:E1.
    destruct (_monitor_loop s1 es) as [s2 c2] eqn:E2. cbn [fst snd] in *.
    assert (is_triggered (_monitor_loop s1 es).1 = false) as H2
      by (by rewrite E2).
    destruct (IH s1 H2) as (Hs1 & Hc & Hk). rewrite E2 in Hc. cbn in Hc.
    assert (is_triggered (monitor_step s e).1 = false) as H1
      by (by rewrite E1).
    destruct (monitor_step_untriggered s e H1) as [Hs Hc1].
    rewrite E1 in Hc1. cbn in Hc1. subst c1 c2.
    split_and!; [done|done|].
    intros [|k]; [done|]. cbn [take _monitor_loop]. rewrite E1.
    specialize (Hk k). by destruct (_monitor_loop s1 (take k es)).
Qed.

(** The iteration at which the loss ratio, after the balance update, is
    past the limit. *)
Lemma monitor_step_daily_loss s e :
  is_triggered s = false →
  let s1 := (_update_data s e).1 in
  0 < daily_start_balance s1 →
  max_daily_loss_ratio s1 < loss_ratio s1 →
  monitor_step s e
  = ((_trigger s1 "daily_loss" e).1,
     [GetBalance; GetAvgLatency; GetPositions]
       ++ (CancelAllOrders <$> positions e)).
Proof.
  intros Ht s1 Hpos Hloss. unfold monitor_step. rewrite Ht.
  subst s1. destruct (_update_data s e) as [s1 c1] eqn:E. cbn [fst] in *.
  assert (c1 = [GetBalance; GetAvgLatency]) as ->.
  { unfold _update_data in E. by injection E. }
  unfold _check_conditions. by rewrite decide_True.
Qed.

(** C3.  Run the monitor loop over the ticks [pre], then a tick [e] at
    which the balance read from the engine puts the daily loss ratio past
    [max_daily_loss_ratio], then any further ticks [post].  If the breaker
    is still untripped after [pre], then: it is untripped after every
    prefix of [pre] and tripped, in one and the same state, after [e] and
    after every later tick, so [is_triggered] goes from false to true
    exactly once; that state records reason "daily_loss" and the clock
    reading of [e]; the whole run polls the engine on each tick up to [e],
    fetches the positions once and cancels all orders once for each
    position of that answer, and calls nothing on the ticks of [post];
    the breaker is unsafe however long [post] is, and safe again after
    [reset]. *)
Theorem daily_loss_trips_once (s : RiskKillSwitch) (pre post : list Env)
    (e : Env) :
  let s0 := (_monitor_loop s pre).1 in
  let s1 := (_update_data s0 e).1 in
  let tripped := (_trigger s1 "daily_loss" e).1 in
  is_triggered s0 = false →
  0 < daily_start_balance s1 →
  max_daily_loss_ratio s1 < loss_ratio s1 →
  (∀ k, is_triggered (_monitor_loop s (take k pre)).1 = false)
  ∧ (∀ k, (_monitor_loop s (pre ++ e :: take k post)).1 = tripped)
  ∧ is_triggered tripped = true
  ∧ trigger_reason tripped = "daily_loss"
  ∧ trigger_time tripped = Some (now e)
  ∧ (_monitor_loop s (pre ++ e :: post)).2
    = mjoin (replicate (length pre) [GetBalance; GetAvgLatency])
      ++ [GetBalance; GetAvgLatency; GetPositions]
      ++ (CancelAllOrders <$> positions e)
  ∧ is_safe tripped = false
  ∧ is_safe (reset tripped) = true
  ∧ trigger_reason (reset tripped) = ""
  ∧ trigger_time (reset tripped) = None.
Proof.
  intros s0 s1 tripped H0 Hpos Hloss.
  destruct (monitor_loop_untriggered s pre H0) as (_ & Hcalls & Hpre).
  assert (Hstep : monitor_step s0 e
                  = (tripped, [GetBalance; GetAvgLatency; GetPositions]
                                ++ (CancelAllOrders <$> positions e)))
    by exact (monitor_step_daily_loss s0 e H0 Hpos Hloss).
  assert (Hrun : ∀ l, _monitor_loop s (pre ++ e :: l)
                      = (tripped,
                         (_monitor_loop s pre).2
                         ++ ([GetBalance; GetAvgLatency; GetPositions]
                             ++ (CancelAllOrders <$> positions e)))).
  { intros l. rewrite monitor_loop_app. fold s0.
    cbn [_monitor_loop]. rewrite Hstep.
    rewrite (monitor_loop_triggered tripped l) by done.
    cbn [fst snd]. by rewrite app_nil_r. }
  split_and!; try done.
  - intros k. by rewrite Hrun.
  - by rewrite Hrun, Hcalls.
Qed.

Lemma daily_loss_trips_once_witness :
  let s := (start init (Some (fl 10000 1))).1 in
  let pre := [tick 10000 1; tick 9800 2; tick 9600 3] in
  let e := tick 9400 4 in
  let post := [tick 9400 14; tick 9300 24] in
  let final := _monitor_loop s (pre ++ e :: post) in
  is_triggered (_monitor_loop s pre).1 = false
  ∧ is_triggered final.1 = true
  ∧ trigger_reason final.1 = "daily_loss"
  ∧ trigger_time final.1 = Some (seconds 4)
  ∧ filter is_sweep final.2 = [GetPositions]
  ∧ filter is_cancel final.2
    = [CancelAllOrders "BTC-USDT-SWAP"; CancelAllOrders "ETH-USDT-SWAP"].
Proof.
  cbv zeta.
  set (s := (start init (Some (fl 10000 1))).1).
  set (pre := [tick 10000 1; tick 9800 2; tick 9600 3]).
  set (e := tick 9400 4).
  set (post := [tick 9400 14; tick 9300 24]).
  assert (H0 : is_triggered (_monitor_loop s pre).1 = false)
    by (vm_compute; reflexivity).
  assert (H1 : 0 < daily_start_balance
                     (_update_data (_monitor_loop s pre).1 e).1)
    by (vm_compute; reflexivity).
  assert (H2 : max_daily_loss_ratio
                 (_update_data (_monitor_loop s pre).1 e).1
               < loss_ratio (_update_data (_monitor_loop s pre).1 e).1)
    by (vm_compute; reflexivity).
  destruct (daily_loss_trips_once s pre post e H0 H1 H2)
    as (_ & Hst & Ht & Hr & Htm & Hc & _).
  specialize (Hst (length post)). rewrite firstn_all in Hst.
  rewrite Hst, Hc.
  exact (conj H0 (conj Ht (conj Hr (conj Htm (conj eq_refl eq_refl))))).
Defined.

End KillSwitchFacts.

(** ** Pre-trade gate *)

Section RiskManagerFacts.
Import RiskManager.

(** The gate rejects while the emergency stop is set, whatever the
    signal, and leaves the manager as it is. *)
Lemma pre_trade_check_emergency_stop r inst_id side size price :
  emergency_stop r = true →
  pre_trade_check r inst_id side size price
  = (r, Returns false EmergencyStopped).
Proof. intros H. unfold pre_trade_check. by rewrite H. Qed.

(** With the stop not yet set and the daily loss ratio at or below
    [- max_daily_loss], the gate rejects and sets the stop. *)
Lemma pre_trade_check_daily_loss r inst_id side size price :
  emergency_stop r = false →
  daily_loss_ratio (metrics r) ≤ - max_daily_loss r →
  pre_trade_check r inst_id side size price
  = (set_emergency_stop r true,
     Returns false (DailyLossReached (daily_loss_ratio (metrics r))))
  ∧ emergency_stop (pre_trade_check r inst_id side size price).1 = true.
Proof.
  intros H1 H2. unfold pre_trade_check. rewrite H1.
  by rewrite decide_True.
Qed.

(** Away from a zero balance and a zero leverage limit the gate returns
    its pair. *)
Lemma pre_trade_check_returns r inst_id side size price :
  leverage_limit r ≠ 0%Z →
  total_balance (metrics r) ≠ 0 →
  ∃ passed reason,
    (pre_trade_check r inst_id side size price).2 = Returns passed reason.
Proof.
  intros H1 H2. unfold pre_trade_check.
  destruct (emergency_stop r); [by eexists _, _|].
  repeat (destruct (decide _); try done; try by eexists _, _).
Qed.

(** C4.  The pre-trade gate is not total on a manager whose metrics have
    not been updated yet: on the freshly built [RiskManager], the signal
    (BTC-USDT, buy, size 0.0, price 50000.0) passes the stop, loss,
    position-size and margin checks and then divides by the zero
    [total_balance]; the call ends in [ZeroDivisionError] instead of
    returning a pair. *)
Theorem pre_trade_check_raises_on_fresh_manager :
  pre_trade_check init "BTC-USDT" "buy" 0 (fl 50000 1)
  = (init, Raises ZeroDivisionError).
Proof. vm_compute. reflexivity. Qed.

End RiskManagerFacts.

(** ** Message routing *)

Section StreamerFacts.
Import Streamer.

Lemma handle_message_routes s channel key payload :
  (channel, key) ∈ handled_channels →
  _handle_message s (data_message channel payload) = dispatch s key payload.
Proof.
  unfold handled_channels. rewrite !elem_of_cons, elem_of_nil.
  intros H. unfold _handle_message, data_message. cbn [m_data m_arg].
  destruct H as [H|[H|[H|[H|[H|[H|[]]]]]]]; injection H as -> ->;
    repeat (destruct (decide _) as [E|E]; [try discriminate E; try done|]);
    done.
Qed.

Lemma register_callback_appends s key l c :
  callbacks s !! key = Some l →
  callbacks (register_callback s key c) !! key = Some (l ++ [c]).
Proof.
  intros H. unfold register_callback. rewrite H. cbn [callbacks].
  by rewrite lookup_insert_eq.
Qed.

Lemma invoke_all_in_order l payload :
  Forall (λ c, cb_raises c = false) l →
  invoke_all l payload = (λ c, (cb_id c, payload)) <$> l.
Proof.
  induction 1 as [|c l Hc _ IH]; [done|].
  cbn [invoke_all fmap list_fmap]. by rewrite Hc, IH.
Qed.

(** On the channels that [_handle_message] has a branch for, the callbacks
    registered under the matching key are called one after the other, in
    the order of their registration, as long as none of them raises. *)
Lemma handled_channel_dispatch s channel key l payload :
  (channel, key) ∈ handled_channels →
  callbacks s !! key = Some l →
  Forall (λ c, cb_raises c = false) l →
  _handle_message s (data_message channel payload)
  = (λ c, (cb_id c, payload)) <$> l.
Proof.
  intros H1 H2 H3. rewrite (handle_message_routes _ _ key) by done.
  unfold dispatch. rewrite H2. by apply invoke_all_in_order.
Qed.

(** C9.  A data message of the "books-l2-tbt" channel reaches no
    subscriber: with a callback registered under "orderbook", the same
    payload is handed to it when the channel is "books" and to nobody when
    the channel is "books-l2-tbt". *)
Theorem books_l2_tbt_not_routed :
  _handle_message orderbook_streamer (data_message "books" "payload")
  = [(1%nat, "payload")]
  ∧ _handle_message orderbook_streamer
      (data_message "books-l2-tbt" "payload") = [].
Proof. split; vm_compute; reflexivity. Qed.

End StreamerFacts.

(** ** Wall riding *)

Section WallRidingFacts.
Import WallRiding.

Lemma wall_lookup_nil p : wall_lookup p [] = None.
Proof. done. Qed.

Lemma wall_lookup_cons p q i m :
  wall_lookup p ((q, i) :: m)
  = if decide (q = p) then Some i else wall_lookup p m.
Proof.
  unfold wall_lookup. cbn [List.find fst].
  destruct (decide (q = p)) as [E|E].
  - by rewrite bool_decide_eq_true_2.
  - by rewrite bool_decide_eq_false_2.
Qed.

Lemma wall_lookup_None p m : wall_lookup p m = None ↔ p ∉ m.*1.
Proof.
  induction m as [|[q i] m IH].
  - rewrite wall_lookup_nil. cbn. rewrite elem_of_nil. tauto.
  - rewrite wall_lookup_cons. cbn [fmap list_fmap fst].
    rewrite not_elem_of_cons. destruct (decide (q = p)) as [E|E].
    + split; [done|]. intros [H _]. by destruct H.
    + rewrite IH. split; [by split|tauto].
Qed.

Lemma wall_lookup_elem_of p i m : wall_lookup p m = Some i → (p, i) ∈ m.
Proof.
  induction m as [|[q j] m IH]; [done|].
  rewrite wall_lookup_cons. destruct (decide (q = p)) as [->|E].
  - intros [= ->]. by left.
  - intros H. right. by apply IH.
Qed.

Lemma wall_lookup_app p m q i :
  wall_lookup p (m ++ [(q, i)])
  = match wall_lookup p m with
    | Some j => Some j
    | None => if decide (q = p) then Some i else None
    end.
Proof.
  induction m as [|[q' j] m IH].
  - cbn [app]. by rewrite wall_lookup_cons, wall_lookup_nil.
  - rewrite <- app_comm_cons, !wall_lookup_cons.
    by destruct (decide (q' = p)).
Qed.

Lemma touch_keys p t m : (touch p t m).*1 = m.*1.
Proof.
  induction m as [|[q i] m IH]; [done|].
  cbn [touch]. destruct (decide (q = p)); [done|].
  cbn [fmap list_fmap fst] in *. by rewrite IH.
Qed.

Lemma wall_lookup_touch p q t m :
  wall_lookup p (touch q t m)
  = if decide (q = p)
    then (fun i => mkInfo (first_seen i) t (depth i)) <$> wall_lookup p m
    else wall_lookup p m.
Proof.
  induction m as [|[q' i] m IH].
  - cbn [touch]. rewrite wall_lookup_nil. by destruct (decide _).
  - cbn [touch]. destruct (decide (q' = q)) as [->|E].
    + rewrite !wall_lookup_cons. by destruct (decide (q = p)).
    + rewrite !wall_lookup_cons, IH.
      destruct (decide (q' = p)) as [->|E']; [|done].
      by rewrite decide_False by congruence.
Qed.

Lemma wall_lookup_observe_in t thr m lv p :
  wall_lookup p (observe_in t thr m lv)
  = if decide (lv.1 = p ∧ thr ≤ lv.2) then
      Some match wall_lookup p m with
           | Some i => mkInfo (first_seen i) t (depth i)
           | None => mkInfo t t lv.2
           end
    else wall_lookup p m.
Proof.
  unfold observe_in. destruct lv as [q d]. cbn [fst snd].
  destruct (decide (thr ≤ d)) as [Hd|Hd].
  - destruct (wall_lookup q m) as [j|] eqn:Ej.
    + rewrite wall_lookup_touch. destruct (decide (q = p)) as [->|E].
      * rewrite decide_True by done. by rewrite Ej.
      * by rewrite decide_False by tauto.
    + rewrite wall_lookup_app. destruct (decide (q = p)) as [->|E].
      * rewrite decide_True by done. by rewrite Ej.
      * rewrite decide_False by tauto. by destruct (wall_lookup p m).
  - by rewrite decide_False by tauto.
Qed.

Lemma observe_in_NoDup t thr m lv :
  NoDup m.*1 → NoDup (observe_in t thr m lv).*1.
Proof.
  intros H. unfold observe_in. destruct (decide _); [|done].
  destruct (wall_lookup lv.1 m) eqn:E.
  - by rewrite touch_keys.
  - rewrite fmap_app. cbn [fmap list_fmap fst].
    apply NoDup_app. split_and!; [done| |apply NoDup_singleton].
    intros x Hx. rewrite list_elem_of_singleton. intros ->.
    by apply wall_lookup_None in E.
Qed.

Lemma fold_observe_in_NoDup t thr l m :
  NoDup m.*1 → NoDup (fold_left (observe_in t thr) l m).*1.
Proof.
  revert m. induction l as [|lv l IH]; intros m H; [done|].
  cbn [fold_left]. by apply IH, observe_in_NoDup.
Qed.

(** A known wall through one message: refreshed if listed, else left. *)
Lemma fold_observe_in_known t thr l m p i :
  wall_lookup p m = Some i →
  wall_lookup p (fold_left (observe_in t thr) l m)
  = Some (if decide (observed thr p l)
          then mkInfo (first_seen i) t (depth i) else i).
Proof.
  revert m i. induction l as [|lv l IH]; intros m i Hm.
  - cbn [fold_left]. rewrite decide_False; [done|].
    unfold observed. rewrite Exists_nil. tauto.
  - cbn [fold_left].
    pose proof (wall_lookup_observe_in t thr m lv p) as Hstep.
    rewrite Hm in Hstep. destruct (decide (lv.1 = p ∧ thr ≤ lv.2)) as [E|E].
    + rewrite (IH _ _ Hstep). cbn [first_seen depth].
      rewrite (decide_True (P := observed thr p (lv :: l)))
        by (by apply Exists_cons_hd).
      by destruct (decide _).
    + rewrite (IH _ _ Hstep).
      destruct (decide (observed thr p l)) as [O|O].
      * by rewrite decide_True by (by apply Exists_cons_tl).
      * rewrite decide_False; [done|].
        unfold observed. rewrite Exists_cons. tauto.
Qed.

(** An unknown price through one message: entered at its first listing. *)
Lemma fold_observe_in_unknown t thr l m p :
  wall_lookup p m = None →
  wall_lookup p (fold_left (observe_in t thr) l m)
  = (fun d => mkInfo t t d) <$> first_depth thr p l.
Proof.
  revert m. induction l as [|lv l IH]; intros m Hm; [done|].
  cbn [fold_left]. unfold first_depth. cbn [List.find].
  pose proof (wall_lookup_observe_in t thr m lv p) as Hstep.
  rewrite Hm in Hstep. destruct (decide (lv.1 = p ∧ thr ≤ lv.2)) as [E|E].
  - rewrite bool_decide_eq_true_2 by done.
    rewrite (fold_observe_in_known _ _ _ _ _ _ Hstep).
    cbn [first_seen depth]. by destruct (decide _).
  - rewrite bool_decide_eq_false_2 by done. by apply IH.
Qed.

Lemma first_depth_Some thr p l d :
  first_depth thr p l = Some d → (p, d) ∈ l ∧ thr ≤ d.
Proof.
  unfold first_depth. destruct (List.find _ l) as [[q d']|] eqn:E; [|done].
  intros [= <-]. apply find_some in E as [Hin Hb].
  apply bool_decide_eq_true in Hb as [Hq Hd]. cbn in Hq, Hd. subst q.
  split; [|done]. by apply list_elem_of_In.
Qed.

Lemma first_depth_observed thr p l :
  observed thr p l ↔ is_Some (first_depth thr p l).
Proof.
  unfold observed, first_depth. induction l as [|lv l IH].
  - rewrite Exists_nil. cbn. split; [done|]. by intros [? ?].
  - rewrite Exists_cons. cbn [List.find].
    destruct (decide (lv.1 = p ∧ thr ≤ lv.2)) as [E|E].
    + rewrite bool_decide_eq_true_2 by done. split; [by eexists|tauto].
    + rewrite bool_decide_eq_false_2 by done. rewrite <- IH. tauto.
Qed.

Lemma wall_lookup_filter (P : float * WallInfo → Prop) `{∀ e, Decision (P e)}
    p m :
  NoDup m.*1 →
  wall_lookup p (filter P m)
  = match wall_lookup p m with
    | Some i => if decide (P (p, i)) then Some i else None
    | None => None
    end.
Proof.
  induction m as [|[q i] m IH]; intros Hnd; [done|].
  cbn [fmap list_fmap fst] in Hnd. apply NoDup_cons in Hnd as [Hq Hnd].
  rewrite wall_lookup_cons, filter_cons.
  destruct (decide (q = p)) as [->|E].
  - destruct (decide (P (p, i))).
    + rewrite wall_lookup_cons. by rewrite decide_True.
    + apply wall_lookup_None. intros Hin. apply Hq.
      apply list_elem_of_fmap in Hin as [e [-> He]].
      apply list_elem_of_filter in He as [_ He].
      apply list_elem_of_fmap. by exists e.
  - destruct (decide (P (q, i))); [|by apply IH].
    rewrite wall_lookup_cons, decide_False by done. by apply IH.
Qed.

(** With a clock the loop over the levels runs to its end, and the
    instrument's map is the fold of [observe_in]. *)
Lemma observe_levels_map t inst thr l w :
  (observe_levels (Some t) inst thr w l).2 = true
  ∧ default [] ((observe_levels (Some t) inst thr w l).1 !! inst)
    = fold_left (observe_in t thr) l (default [] (w !! inst))
  ∧ ∀ j, j ≠ inst →
      default [] ((observe_levels (Some t) inst thr w l).1 !! j)
      = default [] (w !! j).
Proof.
  revert w. induction l as [|[q d] l IH]; intros w; [done|].
  cbn [observe_levels fold_left].
  assert (∃ w1, observe_level (Some t) inst thr w (q, d) = (w1, true)
                ∧ default [] (w1 !! inst)
                  = observe_in t thr (default [] (w !! inst)) (q, d)
                ∧ ∀ j, j ≠ inst → default [] (w1 !! j) = default [] (w !! j))
    as (w1 & -> & Hw1 & Hj).
  { unfold observe_level, observe_in. cbn [fst snd].
    destruct (decide (thr ≤ d)); [|by eexists].
    set (w0 := match w !! inst with
               | Some _ => w
               | None => <[inst:=[]]> w
               end).
    assert (default [] (w0 !! inst) = default [] (w !! inst)) as Hw0.
    { subst w0. destruct (w !! inst) as [m0|] eqn:Em.
      - exact (f_equal (default []) Em).
      - by rewrite lookup_insert_eq. }
    assert (∀ j, j ≠ inst → w0 !! j = w !! j) as Hj0.
    { intros j Hj. subst w0. destruct (w !! inst); [done|].
      by rewrite lookup_insert_ne. }
    rewrite Hw0.
    destruct (wall_lookup q (default [] (w !! inst))); eexists;
      (split; [done|]); rewrite lookup_insert_eq; (split; [done|]);
      intros j Hj; by rewrite lookup_insert_ne, Hj0. }
  destruct (IH w1) as (H1 & H2 & H3). split_and!; [done| |].
  - by rewrite H2, Hw1.
  - intros j Hne. by rewrite H3, Hj.
Qed.

Lemma on_orderbook_map s t data :
  default [] (walls (on_orderbook s (Some t) data) !! instId data)
  = filter (fun e : float * WallInfo => still_seen t e.2)
      (fold_left (observe_in t (wall_depth_threshold s))
                 (take 20 (msg_bids data))
                 (default [] (walls s !! instId data))).
Proof.
  unfold on_orderbook.
  destruct (observe_levels_map t (instId data) (wall_depth_threshold s)
              (take 20 (msg_bids data)) (walls s)) as (Hok & Hm & _).
  destruct (observe_levels _ _ _ _ _) as [w1 ok]. cbn [fst snd] in *.
  subst ok. rewrite <- Hm.
  destruct (w1 !! instId data) as [m|] eqn:E; cbn [set_walls walls].
  - rewrite lookup_insert_eq. cbn [default]. apply list_filter_iff.
    intros e. unfold still_seen. lia.
  - by rewrite E.
Qed.

Lemma observe_levels_unbound inst thr l w j :
  default [] ((observe_levels None inst thr w l).1 !! j)
  = default [] (w !! j).
Proof.
  revert w. induction l as [|[q d] l IH]; intros w; [done|].
  cbn [observe_levels observe_level].
  destruct (decide (thr ≤ d)); [|apply IH]. cbn [fst].
  destruct (w !! inst) eqn:Em; [done|].
  destruct (decide (j = inst)) as [->|Hj].
  - rewrite lookup_insert_eq. symmetry. exact (f_equal (default []) Em).
  - by rewrite lookup_insert_ne.
Qed.

Lemma on_orderbook_unbound s data j :
  default [] (walls (on_orderbook s None data) !! j)
  = default [] (walls s !! j).
Proof.
  unfold on_orderbook.
  pose proof (observe_levels_unbound (instId data) (wall_depth_threshold s)
                (take 20 (msg_bids data)) (walls s) j) as H.
  destruct (observe_levels _ _ _ _ _) as [w1 ok]. cbn [fst] in H.
  by destruct ok.
Qed.

Lemma on_orderbook_other s t data j :
  j ≠ instId data →
  default [] (walls (on_orderbook s (Some t) data) !! j)
  = default [] (walls s !! j).
Proof.
  intros Hj. unfold on_orderbook.
  destruct (observe_levels_map t (instId data) (wall_depth_threshold s)
              (take 20 (msg_bids data)) (walls s)) as (Hok & _ & Ho).
  specialize (Ho j Hj).
  destruct (observe_levels _ _ _ _ _) as [w1 ok]. cbn [fst snd] in *.
  subst ok. destruct (w1 !! instId data); cbn [set_walls walls]; [|done].
  by rewrite lookup_insert_ne.
Qed.

Lemma wf_walls_init : wf_walls init.
Proof. intros j. cbn. rewrite lookup_empty. apply NoDup_nil_2. Qed.

Lemma on_orderbook_wf s clock data :
  wf_walls s → wf_walls (on_orderbook s clock data).
Proof.
  intros Hwf j. destruct clock as [t|].
  - destruct (decide (j = instId data)) as [->|Hj].
    + rewrite on_orderbook_map.
      eapply sublist_NoDup;
        [|apply fmap_sublist, sublist_filter].
      apply fold_observe_in_NoDup, Hwf.
    + rewrite on_orderbook_other by done. apply Hwf.
  - rewrite on_orderbook_unbound. apply Hwf.
Qed.

Lemma feed_wf s ts data : wf_walls s → wf_walls (feed s ts data).
Proof.
  revert s. induction ts as [|t ts IH]; intros s H; [done|].
  apply IH. by apply on_orderbook_wf.
Qed.

(** The module's [datetime] being unbound, [can_ride_wall] has no answer
    to give. *)
Lemma can_ride_wall_unbound s inst : can_ride_wall s None inst = None.
Proof.
  unfold can_ride_wall. destruct (walls s !! inst) as [[|e m]|]; done.
Qed.

Lemma can_ride_wall_find s now inst :
  can_ride_wall s (Some now) inst
  = (fun e : float * WallInfo =>
       mkRide e.1 (e.1 * (1 + fl 1 1000)) (depth e.2)
              (now - first_seen e.2))
      <$> List.find
            (fun e : float * WallInfo =>
               bool_decide (seconds (wall_persistence_time s)
                            ≤ now - first_seen e.2)%Z)
            (default [] (walls s !! inst)).
Proof.
  unfold can_ride_wall. destruct (walls s !! inst) as [[|e m]|]; done.
Qed.

Lemma can_ride_wall_Some s now inst r :
  can_ride_wall s (Some now) inst = Some r →
  ∃ i, (wall_price r, i) ∈ default [] (walls s !! inst)
       ∧ (seconds (wall_persistence_time s) ≤ now - first_seen i)%Z
       ∧ ride_price r = wall_price r * (1 + fl 1 1000)
       ∧ wall_depth r = depth i
       ∧ persistence r = (now - first_seen i)%Z.
Proof.
  rewrite can_ride_wall_find.
  destruct (List.find _ _) as [[q i]|] eqn:E; [|done].
  intros [= <-]. apply find_some in E as [Hin Hb].
  apply bool_decide_eq_true in Hb. exists i. cbn.
  split_and!; try done. by apply list_elem_of_In.
Qed.

Lemma can_ride_wall_is_Some s now inst :
  (∃ e, e ∈ default [] (walls s !! inst)
        ∧ (seconds (wall_persistence_time s) ≤ now - first_seen e.2)%Z)
  ↔ is_Some (can_ride_wall s (Some now) inst).
Proof.
  rewrite can_ride_wall_find. split.
  - intros (e & Hin & He).
    destruct (List.find _ _) as [x|] eqn:E; [by eexists|].
    apply list_elem_of_In in Hin.
    pose proof (find_none _ _ E e Hin) as Hn. cbn beta in Hn.
    apply bool_decide_eq_false in Hn. done.
  - destruct (List.find _ _) as [x|] eqn:E; [|by intros [? ?]].
    intros _. apply find_some in E as [Hin Hb].
    apply bool_decide_eq_true in Hb. exists x.
    split; [by apply list_elem_of_In|done].
Qed.

Lemma on_orderbook_settings s clock data :
  wall_depth_threshold (on_orderbook s clock data) = wall_depth_threshold s
  ∧ wall_persistence_time (on_orderbook s clock data)
    = wall_persistence_time s
  ∧ ride_offset (on_orderbook s clock data) = ride_offset s.
Proof.
  unfold on_orderbook.
  destruct (observe_levels _ _ _ _ _) as [w1 ok].
  destruct ok; [|done]. destruct clock as [t|]; [|done].
  by destruct (w1 !! instId data).
Qed.

Lemma on_orderbook_wall_msg_unbound s :
  wall_depth_threshold s = fl 100 1 →
  walls s = ∅ ∨ walls s = {["BTC-USDT-SWAP" := []]} →
  walls (on_orderbook s None wall_msg) = {["BTC-USDT-SWAP" := []]}
  ∧ wall_depth_threshold (on_orderbook s None wall_msg) = fl 100 1.
Proof.
  intros Hthr Hw. split; [|by rewrite (proj1 (on_orderbook_settings _ _ _))].
  unfold on_orderbook, wall_msg.
  cbn [instId msg_bids take observe_levels observe_level].
  rewrite Hthr. rewrite decide_True by (vm_compute; discriminate).
  destruct Hw as [-> | ->].
  - rewrite lookup_empty. cbn [walls set_walls]. apply insert_empty.
  - rewrite lookup_singleton_eq. done.
Qed.

Lemma handle_all_wall_msg_unbound n s :
  wall_depth_threshold s = fl 100 1 →
  walls s = {["BTC-USDT-SWAP" := []]} →
  walls (handle_all s (unbound (replicate n wall_msg)))
  = {["BTC-USDT-SWAP" := []]}.
Proof.
  revert s. induction n as [|n IH]; intros s Hthr Hw; [exact Hw|].
  unfold handle_all, unbound in *.
  cbn [replicate fmap list_fmap fold_left fst snd].
  destruct (on_orderbook_wall_msg_unbound s Hthr (or_intror Hw)) as [H1 H2].
  by apply IH.
Qed.

(** C5.  tactical_strategies.py calls [datetime.now()] without importing
    [datetime], so every call raises [NameError] inside the handlers'
    [try].  For the level of depth 150 against the threshold 100, handled
    any number of times: the first message creates the instrument's empty
    dict, no wall ever enters it, and [can_ride_wall] answers [None] after
    every sample, the sixth included. *)
Theorem shipped_module_never_rides n :
  let s := handle_all init (unbound (replicate n wall_msg)) in
  walls s !! "BTC-USDT-SWAP"
  = (if decide (n = 0%nat) then None else Some [])
  ∧ ∀ clock, can_ride_wall s clock "BTC-USDT-SWAP" = None.
Proof.
  cbv zeta.
  assert (H : walls (handle_all init (unbound (replicate n wall_msg)))
              !! "BTC-USDT-SWAP"
              = (if decide (n = 0%nat) then None else Some [])).
  { destruct n as [|n]; [done|].
    rewrite decide_False by done.
    destruct (on_orderbook_wall_msg_unbound init eq_refl (or_introl eq_refl))
      as [H1 H2].
    unfold handle_all, unbound in *.
    cbn [replicate fmap list_fmap fold_left fst snd].
    pose proof (handle_all_wall_msg_unbound n _ H2 H1) as H3.
    unfold handle_all, unbound in H3. rewrite H3.
    by rewrite lookup_singleton_eq. }
  split; [exact H|].
  intros clock. unfold can_ride_wall. rewrite H.
  by destruct (decide (n = 0%nat)).
Qed.

End WallRidingFacts.

(** ** OFI trend *)

Section FeaturesFacts.
Import OrderBook Features.

(** Rewriting an order statement over [Qc] into one over [Q]. *)
Ltac to_Q :=
  unfold fl, Qc_of_Z in *;
  unfold Qclt, Qcle, Qcdiv, Qcminus, Qcplus, Qcmult, Qcopp, Qcinv, Q2Qc in *;
  cbn [this] in *;
  repeat rewrite Qred_correct in *;
  unfold inject_Z in *.

Lemma Qc_sum_snoc l x : Qc_sum (l ++ [x]) = Qc_sum l + x.
Proof.
  unfold Qc_sum. induction l as [|y l IH]; cbn [app foldr]; [ring|].
  rewrite IH. ring.
Qed.

Lemma arange_S n : arange (S n) = arange n ++ [Qc_of_Z (Z.of_nat n)].
Proof. unfold arange. by rewrite seq_S, fmap_app. Qed.

Lemma length_arange n : length (arange n) = n.
Proof. unfold arange. by rewrite length_fmap, length_seq. Qed.

Lemma Qc_of_nat_S n :
  Qc_of_Z (Z.of_nat (S n)) = Qc_of_Z (Z.of_nat n) + 1.
Proof. by rewrite Nat2Z.inj_succ, <- Z.add_1_r, Z2Qc_inj_add, Z2Qc_inj_1. Qed.

Lemma sum_arange n :
  2 * Qc_sum (arange n)
  = Qc_of_Z (Z.of_nat n) * (Qc_of_Z (Z.of_nat n) - 1).
Proof.
  induction n as [|n IH].
  - change (arange 0) with ([] : list float).
    change (Z.of_nat 0) with 0%Z. rewrite Z2Qc_inj_0.
    unfold Qc_sum. cbn [foldr]. ring.
  - rewrite arange_S, Qc_sum_snoc, Qc_of_nat_S.
    rewrite Qcmult_plus_distr_r, IH. ring.
Qed.

Lemma sum_squares_arange n :
  2 * (1 + 2) * Qc_sum (zip_with Qcmult (arange n) (arange n))
  = (Qc_of_Z (Z.of_nat n) - 1) * Qc_of_Z (Z.of_nat n)
    * (2 * Qc_of_Z (Z.of_nat n) - 1).
Proof.
  induction n as [|n IH].
  - change (arange 0) with ([] : list float).
    change (Z.of_nat 0) with 0%Z. rewrite Z2Qc_inj_0.
    unfold Qc_sum. cbn [zip_with foldr]. ring.
  - rewrite arange_S, zip_with_app by done. cbn [zip_with].
    rewrite Qc_sum_snoc, Qc_of_nat_S.
    rewrite Qcmult_plus_distr_r, IH. ring.
Qed.

(** The determinant of the normal equations over x = 0, ..., n-1. *)
Lemma polyfit_den n :
  let q := Qc_of_Z (Z.of_nat n) in
  2 * 2 * (1 + 2)
  * (q * Qc_sum (zip_with Qcmult (arange n) (arange n))
     - Qc_sum (arange n) * Qc_sum (arange n))
  = q * q * (q - 1) * (q + 1).
Proof.
  intros q.
  pose proof (sum_arange n) as H1. pose proof (sum_squares_arange n) as H2.
  fold q in H1, H2.
  set (s1 := Qc_sum (arange n)) in *.
  set (s2 := Qc_sum (zip_with Qcmult (arange n) (arange n))) in *.
  transitivity (2 * q * (2 * (1 + 2) * s2) - (1 + 2) * (2 * s1) * (2 * s1));
    [ring|].
  rewrite H1, H2. ring.
Qed.

Lemma polyfit_den_nonzero n :
  (2 ≤ n)%nat →
  Qc_of_Z (Z.of_nat n) * Qc_sum (zip_with Qcmult (arange n) (arange n))
  - Qc_sum (arange n) * Qc_sum (arange n) ≠ 0.
Proof.
  intros Hn Hden. pose proof (polyfit_den n) as H. cbv zeta in H.
  rewrite Hden in H.
  assert (0 < Qc_of_Z (Z.of_nat n) - 1) as H1.
  { rewrite <- Z2Qc_inj_1, <- Z2Qc_inj_sub, <- Z2Qc_inj_0.
    apply (proj1 (Z2Qc_inj_lt _ _)). lia. }
  assert (0 < Qc_of_Z (Z.of_nat n)) as H0.
  { rewrite <- Z2Qc_inj_0. apply (proj1 (Z2Qc_inj_lt _ _)). lia. }
  assert (0 < Qc_of_Z (Z.of_nat n) + 1) as H2.
  { rewrite <- Z2Qc_inj_1, <- Z2Qc_inj_add, <- Z2Qc_inj_0.
    apply (proj1 (Z2Qc_inj_lt _ _)). lia. }
  assert (0 < Qc_of_Z (Z.of_nat n) * Qc_of_Z (Z.of_nat n)
              * (Qc_of_Z (Z.of_nat n) - 1) * (Qc_of_Z (Z.of_nat n) + 1))
    as Hpos by (repeat apply Qcmult_pos_pos; done).
  rewrite <- H in Hpos. rewrite Qcmult_0_r in Hpos.
  by apply Qclt_not_eq in Hpos.
Qed.

Lemma length_slice_last {A} (window : Z) (l : list A) :
  (0 < window ≤ Z.of_nat (length l))%Z →
  slice_last window l = drop (length l - Z.to_nat window) l
  ∧ length (slice_last window l) = Z.to_nat window.
Proof.
  intros H. unfold slice_last. rewrite decide_True by lia.
  split; [done|]. rewrite length_drop. lia.
Qed.

(** The slope and the intercept that goes with it solve the normal
    equations of the least-squares line. *)
Lemma polyfit_slope_normal_equations x y a :
  polyfit_slope x y = Some a →
  let n := Qc_of_Z (Z.of_nat (length x)) in
  n ≠ 0 →
  let b := (Qc_sum y - a * Qc_sum x) / n in
  a * Qc_sum (zip_with Qcmult x x) + b * Qc_sum x
  = Qc_sum (zip_with Qcmult x y)
  ∧ a * Qc_sum x + b * n = Qc_sum y.
Proof.
  unfold polyfit_slope. cbv zeta. destruct (decide _) as [|Hden]; [done|].
  intros [= <-] Hn. split; field; by split.
Qed.

Lemma get_ofi_trend_short fx window :
  (Z.of_nat (length (ofi_history fx)) < window)%Z →
  get_ofi_trend fx window = stable.
Proof. intros H. unfold get_ofi_trend. by rewrite decide_True. Qed.

Lemma get_ofi_trend_fit fx window :
  (2 ≤ window ≤ Z.of_nat (length (ofi_history fx)))%Z →
  let y := drop (length (ofi_history fx) - Z.to_nat window)
                (ofi_history fx) in
  length y = Z.to_nat window
  ∧ ∃ slope,
      polyfit_slope (arange (Z.to_nat window)) y = Some slope
      ∧ get_ofi_trend fx window
        = if decide (fl 1 100 < slope) then rising
          else if decide (slope < - fl 1 100) then falling
          else stable.
Proof.
  intros H y.
  destruct (length_slice_last window (ofi_history fx)) as [Hs Hl]; [lia|].
  fold y in Hs. rewrite Hs in Hl. split; [done|].
  unfold get_ofi_trend. rewrite decide_False by lia. cbv zeta.
  rewrite Hs, Hl.
  assert (∃ slope, polyfit_slope (arange (Z.to_nat window)) y = Some slope)
    as [slope Hslope].
  { unfold polyfit_slope. cbv zeta. rewrite length_arange.
    rewrite decide_False; [by eexists|].
    apply polyfit_den_nonzero. lia. }
  exists slope. by rewrite Hslope.
Qed.

(** Ten samples, each more than 0.01 above the one before it. *)
Lemma polyfit_slope_ten_rising y0 y1 y2 y3 y4 y5 y6 y7 y8 y9 slope :
  y0 + fl 1 100 < y1 → y1 + fl 1 100 < y2 → y2 + fl 1 100 < y3 →
  y3 + fl 1 100 < y4 → y4 + fl 1 100 < y5 → y5 + fl 1 100 < y6 →
  y6 + fl 1 100 < y7 → y7 + fl 1 100 < y8 → y8 + fl 1 100 < y9 →
  polyfit_slope (arange 10) [y0; y1; y2; y3; y4; y5; y6; y7; y8; y9]
  = Some slope →
  fl 1 100 < slope.
Proof.
  intros H0 H1 H2 H3 H4 H5 H6 H7 H8.
  unfold polyfit_slope. cbv zeta. destruct (decide _) as [|Hden]; [done|].
  intros [= <-]. clear Hden.
  unfold arange, Qc_sum.
  cbn [seq fmap list_fmap zip_with foldr length Z.of_nat Pos.of_succ_nat
       Pos.succ].
  repeat match goal with
         | |- context [Z.of_nat ?n] =>
             let v := eval vm_compute in (Z.of_nat n) in
             change (Z.of_nat n) with v
         end.
  to_Q. apply Qlt_shift_div_l; [reflexivity|]. lra.
Qed.

Lemma get_ofi_trend_ten_rising fx :
  (10 ≤ length (ofi_history fx))%nat →
  let y := drop (length (ofi_history fx) - 10) (ofi_history fx) in
  (∀ k a b, y !! k = Some a → y !! S k = Some b → a + fl 1 100 < b) →
  get_ofi_trend fx 10 = rising.
Proof.
  intros Hlen y Hinc.
  destruct (get_ofi_trend_fit fx 10) as (Hl & slope & Hs & ->); [lia|].
  change (Z.to_nat 10) with 10%nat in Hl, Hs.
  fold y in Hl, Hs. clearbody y.
  destruct y as [|y0 [|y1 [|y2 [|y3 [|y4 [|y5 [|y6 [|y7 [|y8 [|y9 [|? ?]]]]]]]]]]];
    try discriminate Hl.
  clear Hl. rewrite decide_True; [reflexivity|].
  eapply polyfit_slope_ten_rising; [..|exact Hs].
  - exact (Hinc 0%nat y0 y1 eq_refl eq_refl).
  - exact (Hinc 1%nat y1 y2 eq_refl eq_refl).
  - exact (Hinc 2%nat y2 y3 eq_refl eq_refl).
  - exact (Hinc 3%nat y3 y4 eq_refl eq_refl).
  - exact (Hinc 4%nat y4 y5 eq_refl eq_refl).
  - exact (Hinc 5%nat y5 y6 eq_refl eq_refl).
  - exact (Hinc 6%nat y6 y7 eq_refl eq_refl).
  - exact (Hinc 7%nat y7 y8 eq_refl eq_refl).
  - exact (Hinc 8%nat y8 y9 eq_refl eq_refl).
Qed.

Lemma unit_steps_history :
  ofi_history (feed_sizes unit_steps).2 = Qc_of_Z <$> seqZ 0 10.
Proof. apply (bool_decide_unpack _). vm_compute. exact I. Qed.

(** C8.  [get_ofi_trend(window)] answers "stable" whenever fewer than
    [window] OFI samples are held.  With at least [window] samples and
    [window] at least 2, it takes the last [window] samples against
    x = 0, ..., window-1, the slope of their least-squares line (slope and
    intercept solve the normal equations), and answers "rising" when the
    slope is above 0.01, "falling" when it is below -0.01 and "stable"
    otherwise.  In particular [get_ofi_trend(10)] is "rising" whenever each
    of the last ten samples exceeds the one before it by more than 0.01, as
    when best-bid sizes 1, 2, ..., 10 are fed 50 ms apart against an
    unchanged best ask: the OFI samples are then 0, 1, ..., 9. *)
Theorem ofi_trend_rule (fx : MicrostructureFeatures) (window : Z) :
  let h := ofi_history fx in
  ((Z.of_nat (length h) < window)%Z → get_ofi_trend fx window = stable)
  ∧ ((2 ≤ window ≤ Z.of_nat (length h))%Z →
     let x := arange (Z.to_nat window) in
     let y := drop (length h - Z.to_nat window) h in
     length y = Z.to_nat window
     ∧ ∃ slope intercept,
         polyfit_slope x y = Some slope
         ∧ slope * Qc_sum (zip_with Qcmult x x) + intercept * Qc_sum x
           = Qc_sum (zip_with Qcmult x y)
         ∧ slope * Qc_sum x + intercept * Qc_of_Z window = Qc_sum y
         ∧ get_ofi_trend fx window
           = if decide (fl 1 100 < slope) then rising
             else if decide (slope < - fl 1 100) then falling
             else stable)
  ∧ ((10 ≤ length h)%nat →
     (∀ k a b, drop (length h - 10) h !! k = Some a →
               drop (length h - 10) h !! S k = Some b →
               a + fl 1 100 < b) →
     get_ofi_trend fx 10 = rising)
  ∧ ofi_history (feed_sizes unit_steps).2 = Qc_of_Z <$> seqZ 0 10
  ∧ get_ofi_trend (feed_sizes unit_steps).2 10 = rising.
Proof.
  intros h. split_and!.
  - apply get_ofi_trend_short.
  - intros Hw x y.
    destruct (get_ofi_trend_fit fx window Hw) as (Hl & slope & Hs & Ht).
    fold h in Hl, Hs. fold y in Hl, Hs. fold x in Hs.
    split; [done|].
    assert (Hn : Qc_of_Z (Z.of_nat (length x)) = Qc_of_Z window).
    { unfold x. rewrite length_arange. f_equal. lia. }
    assert (Hnz : Qc_of_Z (Z.of_nat (length x)) ≠ 0).
    { rewrite Hn, <- Z2Qc_inj_0. intros E. apply Z2Qc_inj in E. lia. }
    destruct (polyfit_slope_normal_equations x y slope Hs Hnz) as [E1 E2].
    rewrite Hn in E1, E2.
    exists slope, ((Qc_sum y - slope * Qc_sum x) / Qc_of_Z window).
    by split_and!.
  - apply get_ofi_trend_ten_rising.
  - apply unit_steps_history.
  - vm_compute. reflexivity.
Qed.

Lemma ofi_trend_rule_witness :
  let fx := (feed_sizes unit_steps).2 in
  (2 ≤ 10 ≤ Z.of_nat (length (ofi_history fx)))%Z
  ∧ (∃ slope,
       polyfit_slope (arange 10) (drop 0 (ofi_history fx)) = Some slope
       ∧ get_ofi_trend fx 10
         = if decide (fl 1 100 < slope) then rising
           else if decide (slope < - fl 1 100) then falling
           else stable).
Proof.
  cbv zeta.
  assert (Hw : (2 ≤ 10 ≤ Z.of_nat (length (ofi_history
                                              (feed_sizes unit_steps).2)))%Z)
    by (vm_compute; split; discriminate).
  destruct (ofi_trend_rule (feed_sizes unit_steps).2 10) as (_ & H & _).
  destruct (H Hw) as (_ & slope & _ & Hs & _ & _ & Ht).
  split; [exact Hw|]. exists slope. split; [|exact Ht].
  rewrite unit_steps_history in Hs. exact Hs.
Defined.

(** Ten strictly increasing best-bid sizes against an unchanged best ask
    that leave the trend "stable": sizes 1.000, 1.001, ..., 1.009 fed 50 ms
    apart give the OFI samples 0, 0.001, ..., 0.009, of slope 0.001; sizes
    1, 2, ..., 10 fed 2 s apart give ten OFI samples 0.0, each 1 s window
    holding one reading only. *)
Lemma increasing_sizes_can_be_stable :
  StronglySorted Qclt (fst <$> milli_steps)
  ∧ StronglySorted Qclt (fst <$> slow_steps)
  ∧ get_best_ask book_A = (fl 101 1, fl 2 1)
  ∧ get_best_ask (feed_sizes milli_steps).1 = (fl 101 1, fl 2 1)
  ∧ get_best_ask (feed_sizes slow_steps).1 = (fl 101 1, fl 2 1)
  ∧ length (ofi_history (feed_sizes milli_steps).2) = 10%nat
  ∧ length (ofi_history (feed_sizes slow_steps).2) = 10%nat
  ∧ get_ofi_trend (feed_sizes milli_steps).2 10 = stable
  ∧ get_ofi_trend (feed_sizes slow_steps).2 10 = stable.
Proof.
  split_and!; try (vm_compute; reflexivity);
    apply (bool_decide_unpack _); vm_compute; exact I.
Qed.

End FeaturesFacts.

(** ** Order book: invariants and edge behaviour *)

Section OrderBookMore.
Import OrderBook.

Lemma same_sides_wf a b : same_sides a b → wf b → wf a.
Proof.
  intros (H1 & H2 & H3 & H4). unfold wf. by rewrite H1, H2, H3, H4.
Qed.

Lemma book_call_wf b c : wf b → wf (book_call b c).
Proof.
  intros H. destruct c as [bd ad ck|tf now|t1 t2]; cbn [book_call].
  - by apply update_increment_wf.
  - eapply same_sides_wf; [apply calculate_ofi_sides|done].
  - eapply same_sides_wf; [|done].
    by destruct (calculate_features_book_part b t1 t2) as [? _].
Qed.

(** Every book reached from a fresh one by incremental updates, OFI
    computations and feature computations keeps its sorted key lists
    strictly ascending and holding exactly the prices of its maps. *)
Theorem reachable_books_are_wf inst cs : wf (book_calls (init inst) cs).
Proof.
  unfold book_calls. generalize (wf_init inst). generalize (init inst).
  induction cs as [|c cs IH]; intros b H; [done|].
  cbn [fold_left]. by apply IH, book_call_wf.
Qed.

Lemma wf_side_head key (m : gmap float OrderBookLevel) k l :
  wf_side key (m, k :: l) →
  (∃ p, key p = k ∧ is_Some (m !! p))
  ∧ ∀ q, is_Some (m !! q) → k ≤ key q.
Proof.
  intros [Hs Hk]. cbn [fst snd] in *. split.
  - apply Hk. by left.
  - intros q Hq. assert (key q ∈ k :: l) as Hin by (apply Hk; by exists q).
    apply StronglySorted_inv in Hs as [_ Hall].
    apply elem_of_cons in Hin as [->|Hin]; [apply Qcle_refl|].
    apply Qclt_le_weak. by eapply Forall_forall in Hall.
Qed.

(** On a book whose key lists match its maps, [get_best_bid] returns the
    highest bid price with the size stored for it, and [get_best_ask] the
    lowest ask price with its size, as soon as the side holds a level. *)
Theorem best_prices_are_extremal b :
  wf b →
  (∀ q lv, bids b !! q = Some lv →
     ∃ p lv', get_best_bid b = (p, size lv') ∧ bids b !! p = Some lv'
              ∧ q ≤ p)
  ∧ (∀ q lv, asks b !! q = Some lv →
     ∃ p lv', get_best_ask b = (p, size lv') ∧ asks b !! p = Some lv'
              ∧ p ≤ q).
Proof.
  intros [Hb Ha]. split; intros q lv Hq.
  - assert (bid_key q ∈ sorted_bids b) as Hin.
    { destruct Hb as [_ Hk]. apply (Hk (bid_key q)). exists q.
      split; [done|]. by exists lv. }
    unfold get_best_bid. destruct (sorted_bids b) as [|k l].
    + by apply elem_of_nil in Hin.
    + apply wf_side_head in Hb as [(p & Hp & [lv' Hlv']) Hmin].
      unfold bid_key in Hp. subst k. cbv zeta.
      rewrite Qcopp_involutive, Hlv'. exists p, lv'. split_and!; [done..|].
      assert (bid_key p ≤ bid_key q) as Hle
        by (apply Hmin; by exists lv).
      unfold bid_key in Hle. by apply Qcopp_le_compat in Hle;
        rewrite !Qcopp_involutive in Hle.
  - assert (ask_key q ∈ sorted_asks b) as Hin.
    { destruct Ha as [_ Hk]. apply (Hk (ask_key q)). exists q.
      split; [done|]. by exists lv. }
    unfold get_best_ask. destruct (sorted_asks b) as [|k l].
    + by apply elem_of_nil in Hin.
    + apply wf_side_head in Ha as [(p & Hp & [lv' Hlv']) Hmin].
      unfold ask_key in Hp. subst k. cbv zeta.
      rewrite Hlv'. exists p, lv'. split_and!; [done..|].
      apply (Hmin q). by exists lv.
Qed.

Lemma pressure_difference b t1 t2 :
  buy_pressure (calculate_features b t1 t2).2
  - sell_pressure (calculate_features b t1 t2).2
  = ofi_1s (calculate_features b t1 t2).2.
Proof.
  unfold calculate_features.
  destruct (get_best_bid b) as [bp bs]. destruct (get_best_ask b) as [ap az].
  destruct (calculate_ofi b "1s" t1) as [b1 o1].
  destruct (calculate_ofi b1 "5s" t2) as [b2 o5].
  cbn [snd buy_pressure sell_pressure ofi_1s].
  destruct (decide (0 < o1)) as [Hp|Hp].
  - rewrite decide_False by (by apply Qcle_not_lt, Qclt_le_weak). ring.
  - destruct (decide (o1 < 0)) as [Hn|Hn].
    + unfold Qc_abs. rewrite decide_True by exact Hn. ring.
    + apply Qcnot_lt_le in Hp, Hn.
      assert (o1 = 0) as -> by (by apply Qcle_antisym). ring.
Qed.

(** The pressures of a feature computation split its one-second OFI:
    both are non-negative, at most one is non-zero, and their difference is
    the OFI. *)
Theorem pressure_split b t1 t2 :
  let f := (calculate_features b t1 t2).2 in
  0 ≤ buy_pressure f ∧ 0 ≤ sell_pressure f
  ∧ (buy_pressure f = 0 ∨ sell_pressure f = 0)
  ∧ buy_pressure f - sell_pressure f = ofi_1s f.
Proof.
  cbv zeta. unfold calculate_features.
  destruct (get_best_bid b) as [bp bs]. destruct (get_best_ask b) as [ap az].
  destruct (calculate_ofi b "1s" t1) as [b1 o1].
  destruct (calculate_ofi b1 "5s" t2) as [b2 o5].
  cbn [snd buy_pressure sell_pressure ofi_1s].
  destruct (decide (0 < o1)) as [Hp|Hp].
  - rewrite decide_False by (by apply Qcle_not_lt, Qclt_le_weak).
    split_and!; [by apply Qclt_le_weak|apply Qcle_refl|by right|ring].
  - destruct (decide (o1 < 0)) as [Hn|Hn].
    + unfold Qc_abs. rewrite decide_True by exact Hn.
      split_and!; [apply Qcle_refl| |by left|ring].
      apply Qclt_le_weak. apply (proj1 (Qclt_minus_iff o1 0)) in Hn.
      by rewrite Qcplus_0_l in Hn.
    + apply Qcnot_lt_le in Hp, Hn.
      assert (o1 = 0) as -> by (by apply Qcle_antisym).
      split_and!; [apply Qcle_refl|apply Qcle_refl|by left|ring].
Qed.

Lemma length_deque_append {A} (maxlen : nat) (d : list A) (x : A) :
  length (deque_append maxlen d x) = Nat.min (S (length d)) maxlen.
Proof.
  unfold deque_append. cbv zeta. rewrite length_drop, length_app.
  cbn [length]. lia.
Qed.

Lemma last_deque_append {A} (maxlen : nat) (d : list A) (x : A) :
  (0 < maxlen)%nat → last (deque_append maxlen d x) = Some x.
Proof.
  intros H. unfold deque_append. cbv zeta.
  rewrite length_app. cbn [length].
  rewrite drop_app_le by lia. by rewrite last_snoc.
Qed.

Lemma calculate_ofi_history b tf now :
  let b' := (calculate_ofi b tf now).1 in
  bids_history b'
  = deque_append 100 (bids_history b)
      (mkHist (get_best_bid b).1 (get_best_bid b).2 now)
  ∧ asks_history b'
    = deque_append 100 (asks_history b)
        (mkHist (get_best_ask b).1 (get_best_ask b).2 now).
Proof.
  cbv zeta. unfold calculate_ofi.
  destruct (get_best_bid b) as [bp bs]. destruct (get_best_ask b) as [ap az].
  cbv zeta. by destruct (decide _).
Qed.

Lemma calculate_features_history b t1 t2 :
  let b' := (calculate_features b t1 t2).1 in
  bids_history b'
  = bids_history (calculate_ofi (calculate_ofi b "1s" t1).1 "5s" t2).1
  ∧ asks_history b'
    = asks_history (calculate_ofi (calculate_ofi b "1s" t1).1 "5s" t2).1.
Proof.
  cbv zeta. unfold calculate_features.
  destruct (get_best_bid b) as [bp bs]. destruct (get_best_ask b) as [ap az].
  destruct (calculate_ofi b "1s" t1) as [b1 o1]. cbn [fst].
  by destruct (calculate_ofi b1 "5s" t2) as [b2 o5].
Qed.

Lemma book_call_history_bound b c :
  (length (bids_history b) ≤ 100)%nat →
  length (asks_history b) = length (bids_history b) →
  (length (bids_history (book_call b c)) ≤ 100)%nat
  ∧ length (asks_history (book_call b c))
    = length (bids_history (book_call b c)).
Proof.
  intros H1 H2. destruct c as [bd ad ck|tf now|t1 t2]; cbn [book_call].
  - destruct (update_increment_frame b bd ad ck) as (_ & _ & -> & -> & _).
    done.
  - destruct (calculate_ofi_history b tf now) as [-> ->].
    rewrite !length_deque_append. lia.
  - destruct (calculate_features_history b t1 t2) as [-> ->].
    destruct (calculate_ofi_history (calculate_ofi b "1s" t1).1 "5s" t2)
      as [-> ->].
    destruct (calculate_ofi_history b "1s" t1) as [-> ->].
    rewrite !length_deque_append. lia.
Qed.

(** Each OFI computation appends the current best bid and best ask, with
    the clock reading, to the two histories and keeps the last 100 entries;
    on every book reached from a fresh one the two histories have the same
    length, at most 100. *)
Theorem histories_stay_bounded :
  (∀ b tf now,
     let b' := (calculate_ofi b tf now).1 in
     length (bids_history b') = Nat.min (S (length (bids_history b))) 100
     ∧ length (asks_history b') = Nat.min (S (length (asks_history b))) 100
     ∧ last (bids_history b')
       = Some (mkHist (get_best_bid b).1 (get_best_bid b).2 now)
     ∧ last (asks_history b')
       = Some (mkHist (get_best_ask b).1 (get_best_ask b).2 now))
  ∧ (∀ inst cs,
       let b := book_calls (init inst) cs in
       (length (bids_history b) ≤ 100)%nat
       ∧ length (asks_history b) = length (bids_history b)).
Proof.
  split.
  - intros b tf now. cbv zeta.
    destruct (calculate_ofi_history b tf now) as [-> ->].
    rewrite !length_deque_append, !last_deque_append by lia. done.
  - intros inst cs. cbv zeta. unfold book_calls.
    assert (H : (length (bids_history (init inst)) ≤ 100)%nat
                ∧ length (asks_history (init inst))
                  = length (bids_history (init inst)))
      by (cbn; split; [lia|done]).
    revert H. generalize (init inst).
    induction cs as [|c cs IH]; intros b [H1 H2]; [done|].
    cbn [fold_left]. by apply IH, book_call_history_bound.
Qed.

Lemma Qc_lt_irrefl (x : float) : ¬ x < x.
Proof. intros H. by apply Qclt_not_eq in H. Qed.

Lemma filter_two_same_size (P : HistEntry → Prop) `{∀ e, Decision (P e)}
    e1 e2 :
  h_size e1 = h_size e2 →
  (length (filter P [e1; e2]) < 2)%nat
  ∨ size_change (filter P [e1; e2]) = 0.
Proof.
  intros Hs. rewrite !filter_cons, filter_nil.
  destruct (decide (P e1)); destruct (decide (P e2)); cbn [length];
    try (left; lia).
  right. unfold size_change. cbn [List.last]. rewrite Hs. ring.
Qed.

(** On a book whose histories are empty the first feature computation
    reports no order flow at either horizon and no pressure, whatever the
    clock readings. *)
Theorem first_features_report_no_flow b t1 t2 :
  bids_history b = [] → asks_history b = [] →
  let f := (calculate_features b t1 t2).2 in
  ofi_1s f = 0 ∧ ofi_5s f = 0 ∧ buy_pressure f = 0 ∧ sell_pressure f = 0.
Proof.
  intros Hb Ha. cbv zeta.
  assert (H1 : calculate_ofi b "1s" t1
               = (set_history b
                    [mkHist (get_best_bid b).1 (get_best_bid b).2 t1]
                    [mkHist (get_best_ask b).1 (get_best_ask b).2 t1], 0)).
  { unfold calculate_ofi. rewrite Hb, Ha.
    destruct (get_best_bid b) as [bp bs].
    destruct (get_best_ask b) as [ap az]. cbv zeta. cbn [fst snd].
    change (deque_append 100 [] ?x) with [x].
    rewrite decide_True; [done|]. left.
    rewrite filter_cons, filter_nil. destruct (decide _); cbn; lia. }
  set (b1 := set_history b
               [mkHist (get_best_bid b).1 (get_best_bid b).2 t1]
               [mkHist (get_best_ask b).1 (get_best_ask b).2 t1]) in *.
  assert (H2 : (calculate_ofi b1 "5s" t2).2 = 0).
  { unfold calculate_ofi.
    assert (Hbb : get_best_bid b1 = get_best_bid b) by done.
    assert (Hba : get_best_ask b1 = get_best_ask b) by done.
    rewrite Hbb, Hba.
    destruct (get_best_bid b) as [bp bs].
    destruct (get_best_ask b) as [ap az]. cbv zeta.
    cbn [b1 set_history bids_history asks_history fst snd].
    change (deque_append 100 [?y] ?x) with [y; x].
    set (w := if decide ("5s" = "1s") then seconds 1 else seconds 5).
    clearbody w.
    destruct (decide (_ ∨ _)) as [|Hn]; [done|]. cbn [snd].
    destruct (filter_two_same_size
                (fun e => (t2 - h_time e ≤ w)%Z)
                (mkHist bp bs t1) (mkHist bp bs t2) eq_refl) as [Hx| ->];
      [exfalso; apply Hn; left; exact Hx|].
    destruct (filter_two_same_size
                (fun e => (t2 - h_time e ≤ w)%Z)
                (mkHist ap az t1) (mkHist ap az t2) eq_refl) as [Hx| ->];
      [exfalso; apply Hn; right; exact Hx|].
    ring. }
  unfold calculate_features.
  destruct (get_best_bid b) as [bp bs] eqn:Ebb.
  destruct (get_best_ask b) as [ap az] eqn:Eba.
  rewrite H1. destruct (calculate_ofi b1 "5s" t2) as [b2 o5].
  cbn [snd] in H2. subst o5.
  cbn [snd ofi_1s ofi_5s buy_pressure sell_pressure].
  rewrite !decide_False by apply Qc_lt_irrefl. done.
Qed.

Lemma first_wall_spec side d l :
  match first_wall side d l with
  | Some w =>
      w_side w = side ∧ d ≤ w_depth w
      ∧ ∃ l1 l2, l = l1 ++ (w_price w, w_depth w) :: l2
                 ∧ Forall (fun ps : float * float => ps.2 < d) l1
  | None => Forall (fun ps : float * float => ps.2 < d) l
  end.
Proof.
  unfold first_wall. induction l as [|[p s] l IH]; [by constructor|].
  cbn [List.find]. destruct (decide (d ≤ s)) as [Hd|Hd].
  - rewrite bool_decide_eq_true_2 by exact Hd. cbn.
    split_and!; [done|exact Hd|]. exists [], l. split; [done|constructor].
  - rewrite bool_decide_eq_false_2 by exact Hd.
    apply Qcnot_le_lt in Hd.
    destruct (List.find _ l) as [[p' s']|]; cbn in *.
    + destruct IH as (H1 & H2 & l1 & l2 & -> & H3). split_and!; [done..|].
      exists ((p, s) :: l1), l2. split; [done|]. by constructor.
    + by constructor.
Qed.

(** [detect_wall] answers with the first bid, in book order, whose size
    reaches [min_depth]; with no such bid among the levels looked at, with
    the first such ask; and with nothing exactly when every level looked at
    is below [min_depth]. *)
Theorem detect_wall_first_deep_level b d n :
  match detect_wall b d n with
  | Some w =>
      d ≤ w_depth w
      ∧ ((w_side w = Bid
          ∧ ∃ l1 l2, get_bids b n = l1 ++ (w_price w, w_depth w) :: l2
                     ∧ Forall (fun ps : float * float => ps.2 < d) l1)
         ∨ (w_side w = Ask
            ∧ Forall (fun ps : float * float => ps.2 < d) (get_bids b n)
            ∧ ∃ l1 l2, get_asks b n = l1 ++ (w_price w, w_depth w) :: l2
                       ∧ Forall (fun ps : float * float => ps.2 < d) l1))
  | None =>
      Forall (fun ps : float * float => ps.2 < d) (get_bids b n ++ get_asks b n)
  end.
Proof.
  unfold detect_wall.
  pose proof (first_wall_spec Bid d (get_bids b n)) as Hb.
  pose proof (first_wall_spec Ask d (get_asks b n)) as Ha.
  destruct (first_wall Bid d (get_bids b n)) as [w|].
  - destruct Hb as (H1 & H2 & H3). split; [exact H2|]. left. by split.
  - destruct (first_wall Ask d (get_asks b n)) as [w|].
    + destruct Ha as (H1 & H2 & H3). split; [exact H2|]. right. by split.
    + apply Forall_app. by split.
Qed.

Lemma scan_above_step thr c sc n sn l :
  scan_above thr ((c, sc) :: (n, sn) :: l)
  = if decide (c = 0) then None
    else rest ← scan_above thr ((n, sn) :: l);
         Some (if decide (thr < (n - c) / c) then (c, n) :: rest else rest).
Proof. reflexivity. Qed.

Lemma scan_below_step thr c sc n sn l :
  scan_below thr ((c, sc) :: (n, sn) :: l)
  = if decide (c = 0) then None
    else rest ← scan_below thr ((n, sn) :: l);
         Some (if decide (thr < (c - n) / c) then (n, c) :: rest else rest).
Proof. reflexivity. Qed.

Lemma scan_above_gaps thr l :
  Forall (fun ps : float * float => ps.1 ≠ 0) l →
  scan_above thr l = Some (gaps_above thr l).
Proof.
  induction l as [|[c sc] l IH]; intros H; [done|].
  apply Forall_cons in H as [Hc H]. cbn [fst] in Hc.
  destruct l as [|[n sn] l]; [done|].
  rewrite scan_above_step, decide_False by exact Hc.
  rewrite (IH H). cbn [mbind option_bind].
  unfold gaps_above, adjacent. cbn [tail zip zip_with].
  rewrite filter_cons. cbn [fst snd].
  by destruct (decide (thr < (n - c) / c)).
Qed.

Lemma scan_below_gaps thr l :
  Forall (fun ps : float * float => ps.1 ≠ 0) l →
  scan_below thr l = Some (gaps_below thr l).
Proof.
  induction l as [|[c sc] l IH]; intros H; [done|].
  apply Forall_cons in H as [Hc H]. cbn [fst] in Hc.
  destruct l as [|[n sn] l]; [done|].
  rewrite scan_below_step, decide_False by exact Hc.
  rewrite (IH H). cbn [mbind option_bind].
  unfold gaps_below, adjacent. cbn [tail zip zip_with].
  rewrite filter_cons. cbn [fst snd].
  by destruct (decide (thr < (c - n) / c)).
Qed.

(** With no zero price among the first 50 levels of either side, the
    voids reported are the pairs of neighbouring levels whose relative gap
    exceeds the threshold: asks first (for the directions above and both),
    then bids (for below and both), in book order, and nothing for any
    other direction.  A best ask priced 0 with a further ask behind it makes
    the whole answer empty. *)
Theorem liquidity_voids_are_adjacent_gaps b direction thr g :
  (Forall (fun ps : float * float => ps.1 ≠ 0) (get_asks b 50) →
   Forall (fun ps : float * float => ps.1 ≠ 0) (get_bids b 50) →
   detect_liquidity_void b direction thr g
   = (if decide (direction = "above" ∨ direction = "both")
      then gaps_above thr (get_asks b 50) else [])
     ++ (if decide (direction = "below" ∨ direction = "both")
         then gaps_below thr (get_bids b 50) else []))
  ∧ (∀ s x rest, get_asks b 50 = (0, s) :: x :: rest →
       detect_liquidity_void b "both" thr g = []).
Proof.
  split.
  - intros Ha Hb. unfold detect_liquidity_void.
    rewrite (scan_above_gaps thr _ Ha), (scan_below_gaps thr _ Hb).
    destruct (decide (direction = "above" ∨ direction = "both"));
      destruct (decide (direction = "below" ∨ direction = "both"));
      reflexivity.
  - intros s x rest E. unfold detect_liquidity_void. rewrite E.
    rewrite decide_True by (by right). destruct x as [n sn].
    rewrite scan_above_step.
    destruct (decide ((0 : float) = 0)) as [_|Hne]; [reflexivity|].
    by destruct Hne.
Qed.

Lemma update_snapshot_sides b bd ad ck :
  let b' := update_snapshot b bd ad ck in
  (bids b', sorted_bids b') = fold_left (snapshot_level bid_key) bd (∅, [])
  ∧ (asks b', sorted_asks b') = fold_left (snapshot_level ask_key) ad (∅, []).
Proof.
  cbv zeta. unfold update_snapshot. cbv zeta.
  destruct (decide _); cbn [set_counters set_sides bids asks sorted_bids
                            sorted_asks];
    split; symmetry; apply surjective_pairing.
Qed.

Lemma snapshot_levels_distinct key (s : Side) lvs :
  Inj (=) (=) key → wf_side key s →
  NoDup (msg_prices lvs) →
  (∀ p, p ∈ msg_prices lvs → s.1 !! p = None) →
  let s' := fold_left (snapshot_level key) lvs s in
  wf_side key s'
  ∧ ∀ p lv, s'.1 !! p = Some lv ↔ s.1 !! p = Some lv ∨ listed lvs p lv.
Proof.
  intros Hinj. revert s. induction lvs as [|[[p sz] c] lvs IH];
    intros s Hwf Hnd Hfresh; cbv zeta.
  - split; [done|]. intros p lv. split; [by left|].
    intros [H|(sz & c & H & _)]; [done|]. by apply elem_of_nil in H.
  - cbn [msg_prices fmap list_fmap fst] in Hnd.
    apply NoDup_cons in Hnd as [Hp Hnd]. cbn [fold_left].
    assert (Hsp : s.1 !! p = None) by (apply Hfresh; by left).
    assert (Hstep :
      ∃ s1, snapshot_level key s (p, sz, c) = s1 ∧ wf_side key s1
            ∧ (∀ q, q ≠ p → s1.1 !! q = s.1 !! q)
            ∧ s1.1 !! p = if decide (0 < sz) then Some (new_level p sz c)
                          else None).
    { unfold snapshot_level. destruct (decide (0 < sz)) as [Hsz|Hsz].
      - eexists. split; [done|]. cbn [fst snd]. split_and!.
        + destruct Hwf as [Hs Hk]. split; cbn [fst snd].
          * apply insort_sorted; [|done]. intros Hin.
            apply Hk in Hin as (q & Hq & Hsome). apply Hinj in Hq. subst q.
            rewrite Hsp in Hsome. by destruct Hsome.
          * intros k. rewrite elem_of_insort, Hk. split.
            -- intros [->|(q & Hq & Hsome)].
               ++ exists p. by rewrite lookup_insert_eq.
               ++ exists q. split; [done|].
                  destruct (decide (q = p)) as [->|Hne];
                    [by rewrite lookup_insert_eq|by rewrite lookup_insert_ne].
            -- intros (q & Hq & Hsome).
               destruct (decide (q = p)) as [->|Hne]; [by left|].
               right. exists q. by rewrite lookup_insert_ne in Hsome.
        + intros q Hq. by rewrite lookup_insert_ne.
        + by rewrite lookup_insert_eq.
      - rewrite Hsp. eexists. by split_and!. }
    destruct Hstep as (s1 & -> & Hwf1 & Hother & Hat).
    destruct (IH s1 Hwf1 Hnd) as [Hwf' Hcontent].
    { intros q Hq. rewrite Hother; [apply Hfresh; by right|].
      intros ->. done. }
    split; [exact Hwf'|]. intros q lv. rewrite Hcontent. split.
    + intros [H|(sz' & c' & Hin & Hpos & ->)].
      * destruct (decide (q = p)) as [->|Hne].
        -- rewrite Hat in H. destruct (decide (0 < sz)); [|done].
           injection H as <-. right. exists sz, c. split_and!; [by left|done..].
        -- left. by rewrite <- Hother.
      * right. exists sz', c'. split_and!; [by right|done..].
    + intros [H|(sz' & c' & Hin & Hpos & ->)].
      * left. rewrite Hother; [done|]. intros ->. by rewrite Hsp in H.
      * apply elem_of_cons in Hin as [[= -> -> ->]|Hin].
        -- left. rewrite Hat. by rewrite decide_True.
        -- right. by exists sz', c'.
Qed.

(** A snapshot that lists every price at most once per side replaces the
    book: whatever the book held, the result has matching key lists and
    maps, its maps hold exactly the listed levels of positive size, and the
    update is counted whether or not the checksum matches. *)
Theorem snapshot_of_distinct_prices b bd ad ck :
  NoDup (msg_prices bd) → NoDup (msg_prices ad) →
  let b' := update_snapshot b bd ad ck in
  wf b'
  ∧ (∀ p lv, bids b' !! p = Some lv ↔ listed bd p lv)
  ∧ (∀ p lv, asks b' !! p = Some lv ↔ listed ad p lv)
  ∧ update_count b' = (update_count b + 1)%Z.
Proof.
  intros Hb Ha. cbv zeta.
  destruct (update_snapshot_sides b bd ad ck) as [Eb Ea].
  assert (Hempty : ∀ key, wf_side key (∅, [])).
  { intros key. split; cbn [fst snd]; [constructor|].
    intros k. rewrite elem_of_nil. split; [done|].
    intros (p & _ & H). rewrite lookup_empty in H. by destruct H. }
  destruct (snapshot_levels_distinct bid_key (∅, []) bd bid_key_inj
              (Hempty _) Hb) as [Hwb Hcb]; [by intros|].
  destruct (snapshot_levels_distinct ask_key (∅, []) ad ask_key_inj
              (Hempty _) Ha) as [Hwa Hca]; [by intros|].
  rewrite <- Eb in Hwb, Hcb. rewrite <- Ea in Hwa, Hca.
  cbn [fst snd] in Hcb, Hca. split_and!.
  - by split.
  - intros p lv. rewrite Hcb, lookup_empty. split; [by intros [|]|by right].
  - intros p lv. rewrite Hca, lookup_empty. split; [by intros [|]|by right].
  - unfold update_snapshot. cbv zeta. by destruct (decide _).
Qed.

Lemma snapshot_level_positive key (s : Side) p sz c :
  0 < sz →
  snapshot_level key s (p, sz, c)
  = (<[p := new_level p sz c]> s.1, insort (key p) s.2).
Proof. intros H. unfold snapshot_level. by rewrite decide_True. Qed.

Lemma snapshot_level_zero_present key (s : Side) p c lv :
  s.1 !! p = Some lv →
  snapshot_level key s (p, 0, c) = (delete p s.1, s.2).
Proof.
  intros H. unfold snapshot_level.
  rewrite decide_False by apply Qc_lt_irrefl. by rewrite H.
Qed.

(** A snapshot that repeats a price is not deduplicated.  Listed twice
    with positive sizes, the price has two keys and [get_bids] returns the
    level twice.  Listed with a positive size and later with size 0, the
    price leaves the map but keeps its key, and when that key is the first
    one [get_best_bid] answers (0.0, 0.0) although [get_bids] still lists a
    lower bid. *)
Theorem snapshot_repeating_a_price b p q s1 s2 c1 c2 c3 ck :
  0 < s1 → 0 < s2 →
  (let b' := update_snapshot b [(p, s1, c1); (p, s2, c2)] [] ck in
   sorted_bids b' = [- p; - p]
   ∧ get_bids b' 25 = [(p, s2); (p, s2)]
   ∧ ¬ wf b')
  ∧ (q < p →
     let b' :=
       update_snapshot b [(p, s1, c1); (q, s2, c2); (p, 0, c3)] [] ck in
     bids b' !! p = None
     ∧ bids b' !! q = Some (new_level q s2 c2)
     ∧ sorted_bids b' = [- p; - q]
     ∧ get_bids b' 25 = [(q, s2)]
     ∧ get_best_bid b' = (0, 0)).
Proof.
  intros H1 H2. split.
  - cbv zeta.
    destruct (update_snapshot_sides b [(p, s1, c1); (p, s2, c2)] [] ck)
      as [Eb _].
    cbn [fold_left] in Eb.
    rewrite !snapshot_level_positive in Eb by done.
    cbn [fst snd insort] in Eb. unfold bid_key in Eb.
    rewrite decide_False in Eb by apply Qc_lt_irrefl.
    injection Eb as Em Es.
    assert (Hg : get_bids (update_snapshot b [(p, s1, c1); (p, s2, c2)] [] ck)
                   25 = [(p, s2); (p, s2)]).
    { unfold get_bids. rewrite Em, Es. cbn [take omap list_omap]. cbv zeta.
      rewrite Qcopp_involutive, lookup_insert_eq. done. }
    split_and!; [exact Es|exact Hg|].
    intros [[Hs _] _]. cbn [snd] in Hs. rewrite Es in Hs.
    apply StronglySorted_inv in Hs as [_ Hall].
    apply Forall_cons in Hall as [Hlt _]. by apply Qc_lt_irrefl in Hlt.
  - intros Hqp. cbv zeta.
    destruct (update_snapshot_sides b
                [(p, s1, c1); (q, s2, c2); (p, 0, c3)] [] ck) as [Eb _].
    assert (Hne : q ≠ p) by (intros ->; by apply Qc_lt_irrefl in Hqp).
    cbn [fold_left] in Eb.
    rewrite (snapshot_level_positive _ _ p s1 c1) in Eb by done.
    rewrite (snapshot_level_positive _ _ q s2 c2) in Eb by done.
    cbn [fst snd insort] in Eb. unfold bid_key in Eb.
    rewrite decide_False in Eb.
    2:{ apply Qcle_not_lt, Qclt_le_weak. by apply Qcopp_lt. }
    rewrite (snapshot_level_zero_present _ _ p c3 (new_level p s1 c1)) in Eb.
    2:{ cbn [fst]. rewrite lookup_insert_ne by done.
        by rewrite lookup_insert_eq. }
    cbn [fst snd] in Eb. injection Eb as Em Es.
    assert (Hp : bids (update_snapshot b
                         [(p, s1, c1); (q, s2, c2); (p, 0, c3)] [] ck) !! p
                 = None) by (rewrite Em; apply lookup_delete_eq).
    assert (Hq : bids (update_snapshot b
                         [(p, s1, c1); (q, s2, c2); (p, 0, c3)] [] ck) !! q
                 = Some (new_level q s2 c2)).
    { rewrite Em. rewrite lookup_delete_ne by done.
      by rewrite lookup_insert_eq. }
    split_and!; [exact Hp|exact Hq|exact Es| |].
    + unfold get_bids. rewrite Es. cbn [take omap list_omap]. cbv zeta.
      rewrite !Qcopp_involutive, Hp, Hq. done.
    + unfold get_best_bid. rewrite Es. cbv zeta.
      by rewrite Qcopp_involutive, Hp.
Qed.

Lemma snapshot_repeating_a_price_witness :
  let b' := update_snapshot (init "BTC-USDT")
              [(fl 100 1, fl 5 1, 1%Z); (fl 99 1, fl 3 1, 1%Z);
               (fl 100 1, 0, 0%Z)] [] 0 in
  get_bids b' 25 = [(fl 99 1, fl 3 1)] ∧ get_best_bid b' = (0, 0).
Proof.
  cbv zeta.
  assert (H1 : 0 < fl 5 1) by (vm_compute; reflexivity).
  assert (H2 : 0 < fl 3 1) by (vm_compute; reflexivity).
  assert (H3 : fl 99 1 < fl 100 1) by (vm_compute; reflexivity).
  destruct (snapshot_repeating_a_price (init "BTC-USDT") (fl 100 1) (fl 99 1)
              (fl 5 1) (fl 3 1) 1 1 0 0 H1 H2) as [_ H].
  destruct (H H3) as (_ & _ & _ & Hg & Hb).
  exact (conj Hg Hb).
Defined.

Lemma snapshot_of_distinct_prices_witness :
  let b' := update_snapshot (init "BTC-USDT") scenario_bids scenario_asks 0 in
  (NoDup (msg_prices scenario_bids) ∧ NoDup (msg_prices scenario_asks))
  ∧ wf b'
  ∧ update_count b' = 1%Z.
Proof.
  cbv zeta.
  assert (H1 : NoDup (msg_prices scenario_bids))
    by (apply (bool_decide_unpack _); vm_compute; exact I).
  assert (H2 : NoDup (msg_prices scenario_asks))
    by (apply (bool_decide_unpack _); vm_compute; exact I).
  destruct (snapshot_of_distinct_prices (init "BTC-USDT") scenario_bids
              scenario_asks 0 H1 H2) as (Hw & _ & _ & Hc).
  exact (conj (conj H1 H2) (conj Hw Hc)).
Defined.

Lemma first_features_report_no_flow_witness :
  let f := (calculate_features book_A 0 (seconds 7)).2 in
  (bids_history book_A = [] ∧ asks_history book_A = [])
  ∧ ofi_1s f = 0 ∧ ofi_5s f = 0 ∧ buy_pressure f = 0 ∧ sell_pressure f = 0.
Proof.
  cbv zeta.
  assert (H1 : bids_history book_A = []) by (vm_compute; reflexivity).
  assert (H2 : asks_history book_A = []) by (vm_compute; reflexivity).
  exact (conj (conj H1 H2)
              (first_features_report_no_flow book_A 0 (seconds 7) H1 H2)).
Defined.

Lemma best_prices_are_extremal_witness :
  wf book_A
  ∧ ∃ p lv', get_best_bid book_A = (p, size lv')
             ∧ bids book_A !! p = Some lv' ∧ fl 99 1 ≤ p.
Proof.
  assert (Hw : wf book_A) by exact wf_book_A.
  assert (Hq : bids book_A !! fl 99 1 = Some (new_level (fl 99 1) (fl 3 1) 1))
    by (vm_compute; reflexivity).
  destruct (best_prices_are_extremal book_A Hw) as [H _].
  exact (conj Hw (H _ _ Hq)).
Defined.

Lemma liquidity_voids_are_adjacent_gaps_witness :
  let b := update_snapshot (init "BTC-USDT")
             [(fl 50000 1, fl 10 1, 5%Z); (fl 49000 1, fl 20 1, 10%Z)]
             [(fl 50010 1, fl 5 1, 3%Z); (fl 51000 1, fl 15 1, 8%Z)] 0 in
  detect_liquidity_void b "both" (fl 2 1000) 5
  = gaps_above (fl 2 1000) (get_asks b 50)
    ++ gaps_below (fl 2 1000) (get_bids b 50).
Proof.
  cbv zeta.
  set (b := update_snapshot (init "BTC-USDT")
              [(fl 50000 1, fl 10 1, 5%Z); (fl 49000 1, fl 20 1, 10%Z)]
              [(fl 50010 1, fl 5 1, 3%Z); (fl 51000 1, fl 15 1, 8%Z)] 0).
  assert (Ha : Forall (fun ps : float * float => ps.1 ≠ 0) (get_asks b 50))
    by (apply (bool_decide_unpack _); vm_compute; exact I).
  assert (Hb : Forall (fun ps : float * float => ps.1 ≠ 0) (get_bids b 50))
    by (apply (bool_decide_unpack _); vm_compute; exact I).
  destruct (liquidity_voids_are_adjacent_gaps b "both" (fl 2 1000) 5)
    as [H _].
  exact (H Ha Hb).
Defined.

End OrderBookMore.

(** ** Feature extractor: histories and signals *)

Section FeaturesMore.
Import OrderBook Features.

Lemma calculate_features_two_readings b t1 t2 :
  let b' := (calculate_features b t1 t2).1 in
  length (bids_history b') = Nat.min (length (bids_history b) + 2) 100
  ∧ length (asks_history b') = Nat.min (length (asks_history b) + 2) 100
  ∧ same_sides b' b.
Proof.
  cbv zeta. destruct (calculate_features_history b t1 t2) as [-> ->].
  destruct (calculate_ofi_history (calculate_ofi b "1s" t1).1 "5s" t2)
    as [-> ->].
  destruct (calculate_ofi_history b "1s" t1) as [-> ->].
  rewrite !length_deque_append.
  destruct (calculate_features_book_part b t1 t2) as [Hs _].
  split_and!; [lia|lia|exact Hs].
Qed.

Lemma update_book_and_length b fx t0 t1 t2 :
  (update b fx t0 t1 t2).1 = (calculate_features b t1 t2).1
  ∧ length (ofi_history (update b fx t0 t1 t2).2)
    = Nat.min (S (length (ofi_history fx))) 100.
Proof.
  unfold update. destruct (calculate_features b t1 t2) as [b' f].
  cbn [fst snd ofi_history]. by rewrite length_deque_append.
Qed.

(** [update()] computes the features once and appends one entry to each
    of the four histories of the extractor, keeping the last 100: the OFI,
    the reading of the clock, the spread in basis points and the two best
    sizes.  The histories of a new extractor have equal lengths, at most
    100, and [update()] keeps them so. *)
Theorem update_keeps_histories_aligned b fx t0 t1 t2 :
  let fx' := (update b fx t0 t1 t2).2 in
  let f := (calculate_features b t1 t2).2 in
  (update b fx t0 t1 t2).1 = (calculate_features b t1 t2).1
  ∧ length (ofi_history fx') = Nat.min (S (length (ofi_history fx))) 100
  ∧ last (ofi_history fx') = Some (ofi_1s f)
  ∧ last (ofi_timestamps fx') = Some t0
  ∧ last (spread_history fx') = Some (spread_bps f)
  ∧ last (depth_history fx')
    = Some (mkDepth (bid_depth_5 f) (ask_depth_5 f) t0)
  ∧ last_update fx' = Some t0
  ∧ aligned init
  ∧ (aligned fx → aligned fx').
Proof.
  cbv zeta. unfold update.
  destruct (calculate_features b t1 t2) as [b' f].
  cbn [fst snd ofi_history ofi_timestamps spread_history depth_history
       last_update].
  rewrite !last_deque_append by lia. rewrite length_deque_append.
  split_and!; try done.
  - unfold aligned. cbn. lia.
  - unfold aligned.
    cbn [ofi_history ofi_timestamps spread_history depth_history].
    rewrite !length_deque_append. lia.
Qed.

Lemma get_spread_status_book b t1 t2 :
  (get_spread_status b t1 t2).1 = (calculate_features b t1 t2).1.
Proof.
  unfold get_spread_status. by destruct (calculate_features b t1 t2).
Qed.

Lemma calculate_pressure_index_book b t1 t2 :
  (calculate_pressure_index b t1 t2).1 = (calculate_features b t1 t2).1.
Proof.
  unfold calculate_pressure_index. by destruct (calculate_features b t1 t2).
Qed.

Lemma detect_liquidity_squeeze_book b thr t1 t2 :
  (detect_liquidity_squeeze b thr t1 t2).1 = (calculate_features b t1 t2).1.
Proof.
  unfold detect_liquidity_squeeze.
  destruct (calculate_features b t1 t2) as [b' f]. cbv zeta.
  by destruct (decide _).
Qed.

Lemma get_all_features_book b fx r :
  (get_all_features b fx r).1
  = (calculate_features
       (calculate_features
          (calculate_features
             (calculate_features b r.1.1.1.1 r.1.1.1.2).1
             r.1.1.2.1 r.1.1.2.2).1
          r.1.2.1 r.1.2.2).1
       r.2.1 r.2.2).1.
Proof.
  destruct r as [[[r1 r2] r3] r4]. unfold get_all_features.
  cbn [fst snd].
  destruct (calculate_features b r1.1 r1.2) as [b1 f] eqn:E1. cbn [fst].
  pose proof (get_spread_status_book b1 r2.1 r2.2) as E2.
  destruct (get_spread_status b1 r2.1 r2.2) as [b2 st]. cbn [fst] in E2.
  pose proof (calculate_pressure_index_book b2 r3.1 r3.2) as E3.
  destruct (calculate_pressure_index b2 r3.1 r3.2) as [b3 pr].
  cbn [fst] in E3.
  pose proof (detect_liquidity_squeeze_book b3 (fl 7 10) r4.1 r4.2) as E4.
  destruct (detect_liquidity_squeeze b3 (fl 7 10) r4.1 r4.2) as [b4 sq].
  cbn [fst] in E4 |- *. by rewrite E4, E3, E2.
Qed.

(** One analysis pass computes the features five times (once in
    [update()], four times in [get_all_features()]): the book's sides are
    left as they were, each of its two histories advances by ten readings
    up to the bound of 100, and the extractor's own histories advance by
    one. *)
Theorem analysis_pass_side_effects b fx t0 t1 t2 r :
  let res := analyze b fx t0 t1 t2 r in
  same_sides res.1.1 b
  ∧ length (bids_history res.1.1)
    = Nat.min (length (bids_history b) + 10) 100
  ∧ length (asks_history res.1.1)
    = Nat.min (length (asks_history b) + 10) 100
  ∧ res.1.2 = (update b fx t0 t1 t2).2
  ∧ length (ofi_history res.1.2)
    = Nat.min (S (length (ofi_history fx))) 100
  ∧ res.2.2 = _identify_gambler_behavior res.2.1.
Proof.
  cbv zeta. unfold analyze.
  destruct (update_book_and_length b fx t0 t1 t2) as (Eb & Hl).
  destruct (update b fx t0 t1 t2) as [b1 fx1]. cbn [fst snd] in *.
  pose proof (get_all_features_book b1 fx1 r) as Eg.
  destruct (get_all_features b1 fx1 r) as [b2 features].
  cbn [fst snd] in *. subst b1 b2.
  set (c0 := (calculate_features b t1 t2).1).
  set (c1 := (calculate_features c0 r.1.1.1.1 r.1.1.1.2).1).
  set (c2 := (calculate_features c1 r.1.1.2.1 r.1.1.2.2).1).
  set (c3 := (calculate_features c2 r.1.2.1 r.1.2.2).1).
  destruct (calculate_features_two_readings b t1 t2) as (B0 & A0 & S0).
  destruct (calculate_features_two_readings c0 r.1.1.1.1 r.1.1.1.2)
    as (B1 & A1 & S1).
  destruct (calculate_features_two_readings c1 r.1.1.2.1 r.1.1.2.2)
    as (B2 & A2 & S2).
  destruct (calculate_features_two_readings c2 r.1.2.1 r.1.2.2)
    as (B3 & A3 & S3).
  destruct (calculate_features_two_readings c3 r.2.1 r.2.2)
    as (B4 & A4 & S4).
  fold c0 in B0, A0, S0, B1, A1, S1. fold c1 in B1, A1, S1, B2, A2, S2.
  fold c2 in B2, A2, S2, B3, A3, S3. fold c3 in B3, A3, S3, B4, A4, S4.
  split_and!; [|lia|lia|done|exact Hl|done].
  exact (same_sides_trans _ _ _ S4
           (same_sides_trans _ _ _ S3
              (same_sides_trans _ _ _ S2 (same_sides_trans _ _ _ S1 S0)))).
Qed.

Lemma Qc_abs_nonneg (x : float) : 0 ≤ Qc_abs x.
Proof.
  unfold Qc_abs. destruct (decide (x < 0)) as [H|H].
  - apply Qclt_le_weak. apply (proj1 (Qclt_minus_iff x 0)) in H.
    by rewrite Qcplus_0_l in H.
  - by apply Qcnot_lt_le.
Qed.

Lemma Qc_abs_diff_le (x y : float) : 0 ≤ x → 0 ≤ y → Qc_abs (x - y) ≤ x + y.
Proof.
  intros Hx Hy. unfold Qc_abs. destruct (decide (x - y < 0)).
  - replace (- (x - y)) with (y + - x) by ring. rewrite (Qcplus_comm x y).
    apply Qcplus_le_compat; [apply Qcle_refl|].
    apply Qcle_trans with 0; [|exact Hx].
    apply Qcopp_le_compat in Hx. exact Hx.
  - unfold Qcminus. apply Qcplus_le_compat; [apply Qcle_refl|].
    apply Qcle_trans with 0; [|exact Hy].
    apply Qcopp_le_compat in Hy. exact Hy.
Qed.

(** [detect_liquidity_squeeze] compares the imbalance of the two best
    sizes with the threshold.  It answers no when the sizes sum to zero, and,
    for non-negative sizes, whenever the threshold is at least 1; with one
    best size positive and the other zero it answers yes for every
    threshold below 1. *)
Theorem liquidity_squeeze_cases b thr t1 t2 :
  let bs := (get_best_bid b).2 in
  let az := (get_best_ask b).2 in
  let sq := (detect_liquidity_squeeze b thr t1 t2).2 in
  (bs + az = 0 → sq = false)
  ∧ (0 ≤ bs → 0 ≤ az → 1 ≤ thr → sq = false)
  ∧ (0 < bs → az = 0 → thr < 1 → sq = true)
  ∧ (bs = 0 → 0 < az → thr < 1 → sq = true).
Proof.
  cbv zeta. unfold detect_liquidity_squeeze.
  destruct (calculate_features_book_part b t1 t2) as (_ & Hb & Ha & _).
  destruct (calculate_features b t1 t2) as [b' f]. cbn [snd] in Hb, Ha.
  rewrite <- Hb, <- Ha. cbn [snd]. cbv zeta.
  set (bs := bid_depth_5 f). set (az := ask_depth_5 f).
  clearbody bs az. clear Hb Ha.
  split_and!.
  - intros E. by rewrite decide_True.
  - intros Hb Ha Hthr. destruct (decide (bs + az = 0)) as [|Hnz]; [done|].
    cbn [snd]. apply bool_decide_eq_false. apply Qcle_not_lt.
    apply Qcle_trans with 1; [|exact Hthr].
    assert (Hpos : 0 < bs + az).
    { destruct (Qcle_lt_or_eq 0 (bs + az)) as [H|H]; [|exact H|].
      - by apply Qcplus_nonneg_nonneg.
      - by destruct Hnz. }
    apply (Qcmult_le_mono_pos_r _ _ (bs + az) Hpos).
    unfold Qcdiv. rewrite <- Qcmult_assoc, (Qcmult_comm (/ _)).
    rewrite Qcmult_inv_r, Qcmult_1_r, Qcmult_1_l by exact Hnz.
    by apply Qc_abs_diff_le.
  - intros Hb -> Hthr. rewrite Qcplus_0_r.
    rewrite decide_False
      by (intros E; rewrite E in Hb; by apply Qc_lt_irrefl in Hb).
    cbn [snd]. apply bool_decide_eq_true.
    replace (Qc_abs (bs - 0) / bs) with (1 : float); [exact Hthr|].
    unfold Qc_abs. rewrite decide_False.
    + field. intros E. rewrite E in Hb. by apply Qc_lt_irrefl in Hb.
    + apply Qcle_not_lt. replace (bs - 0) with bs by ring.
      by apply Qclt_le_weak.
  - intros -> Ha Hthr. rewrite Qcplus_0_l.
    assert (Hnz : az ≠ 0)
      by (intros E; rewrite E in Ha; by apply Qc_lt_irrefl in Ha).
    rewrite decide_False by exact Hnz.
    cbn [snd]. apply bool_decide_eq_true.
    replace (Qc_abs (0 - az) / az) with (1 : float); [exact Hthr|].
    unfold Qc_abs. rewrite decide_True.
    + field. exact Hnz.
    + replace (0 - az) with (- az) by ring.
      apply Qcopp_lt in Ha. exact Ha.
Qed.

(** [calculate_pressure_index] runs one feature computation and
    reports the pressures of that computation: its buy and sell pressure
    are those of the features, its net pressure is their one-second OFI,
    and its imbalance is 0 when the two best sizes do not sum to a positive
    number. *)
Theorem pressure_index_matches_features b t1 t2 :
  let r := calculate_pressure_index b t1 t2 in
  let c := calculate_features b t1 t2 in
  r.1 = c.1
  ∧ p_buy_pressure r.2 = buy_pressure c.2
  ∧ p_sell_pressure r.2 = sell_pressure c.2
  ∧ p_net_pressure r.2 = ofi_1s c.2
  ∧ (bid_depth_5 c.2 + ask_depth_5 c.2 ≤ 0 → p_imbalance r.2 = 0).
Proof.
  cbv zeta. split; [apply calculate_pressure_index_book|].
  pose proof (pressure_difference b t1 t2) as Hnet.
  unfold calculate_pressure_index.
  assert (Hbuy : buy_pressure (calculate_features b t1 t2).2
                 = Qc_max 0 (ofi_1s (calculate_features b t1 t2).2)
                 ∧ sell_pressure (calculate_features b t1 t2).2
                   = Qc_max 0 (- ofi_1s (calculate_features b t1 t2).2)).
  { unfold calculate_features.
    destruct (get_best_bid b) as [bp bs].
    destruct (get_best_ask b) as [ap az].
    destruct (calculate_ofi b "1s" t1) as [b1 o1].
    destruct (calculate_ofi b1 "5s" t2) as [b2 o5].
    cbn [snd buy_pressure sell_pressure ofi_1s]. unfold Qc_max, Qc_abs.
    split; [done|].
    destruct (decide (o1 < 0)) as [Hn|Hn].
    - rewrite decide_True; [done|].
      apply Qcopp_lt in Hn. exact Hn.
    - rewrite decide_False; [done|]. intros H. apply Hn.
      apply Qcopp_lt in H. by rewrite Qcopp_involutive in H. }
  destruct Hbuy as [Hbuy Hsell].
  destruct (calculate_features b t1 t2) as [b' f].
  cbn [snd p_buy_pressure p_sell_pressure p_net_pressure p_imbalance] in *.
  rewrite <- Hbuy, <- Hsell. split_and!; [done|done|exact Hnet|].
  intros Hle. rewrite decide_False; [done|]. by apply Qcle_not_lt.
Qed.

(** Of the signals panic selling, FOMO buying and panic covering, no
    two are raised together; the reasons list one tag per raised signal, in
    the order the signals are tested, so at most two; and with a stable OFI
    trend none of the three is raised. *)
Theorem gambler_signals_exclusive features :
  let s := _identify_gambler_behavior features in
  ¬ (panic_selling s = true ∧ fomo_buying s = true)
  ∧ ¬ (panic_selling s = true ∧ panic_covering s = true)
  ∧ ¬ (fomo_buying s = true ∧ panic_covering s = true)
  ∧ reason s
    = (if panic_selling s then [PanicSelling] else [])
      ++ (if fomo_buying s then [FomoBuying] else [])
      ++ (if chasing_rally s then [ChasingRally] else [])
      ++ (if panic_covering s then [PanicCovering] else [])
  ∧ (length (reason s) ≤ 2)%nat
  ∧ (a_ofi_trend features = stable →
     panic_selling s = false ∧ fomo_buying s = false
     ∧ panic_covering s = false).
Proof.
  cbv zeta. unfold _identify_gambler_behavior. cbv zeta.
  cbn [panic_selling fomo_buying chasing_rally panic_covering reason].
  destruct (a_spread_status features), (a_ofi_trend features);
    repeat case_bool_decide; cbn [length app];
    split_and!; try (cbn [length]; lia);
    try (intros [? ?]; discriminate); try reflexivity;
    try (intros ?; discriminate); try (intros _; by split_and!);
    try (exfalso; intuition discriminate).
Qed.

End FeaturesMore.

(** ** Kill switch: causes of a trip, reset, latency window *)

Section KillSwitchMore.
Import KillSwitch.

Lemma check_conditions_due s e :
  _check_conditions s e
  = match due s with
    | Some reason => _trigger s reason e
    | None => (s, [])
    end.
Proof.
  unfold _check_conditions, due.
  destruct (decide _); [done|]. by destruct (decide _).
Qed.

Lemma monitor_step_due s e :
  is_triggered s = false →
  (monitor_step s e).1
  = match due (_update_data s e).1 with
    | Some reason => (_trigger (_update_data s e).1 reason e).1
    | None => (_update_data s e).1
    end.
Proof.
  intros H. unfold monitor_step. rewrite H.
  destruct (_update_data s e) as [s1 c1]. cbn [fst].
  rewrite check_conditions_due. by destruct (due s1).
Qed.

Lemma monitor_loop_cons s e es :
  (_monitor_loop s (e :: es)).1 = (_monitor_loop (monitor_step s e).1 es).1.
Proof.
  cbn [_monitor_loop]. destruct (monitor_step s e) as [s1 c1]. cbn [fst].
  by destruct (_monitor_loop s1 es).
Qed.

(** The monitor loop never trips without cause: when a run that
    started untripped ends tripped, there is one tick of the run before
    which the breaker was untripped and at which, after the balance and
    latency update, the daily-loss or the latency condition held; the final
    state is the one [_trigger] built at that tick, with its reason and
    clock reading, whatever the later ticks brought. *)
Theorem trips_have_a_cause s es :
  is_triggered s = false →
  is_triggered (_monitor_loop s es).1 = true →
  ∃ pre e post reason,
    es = pre ++ e :: post
    ∧ is_triggered (_monitor_loop s pre).1 = false
    ∧ due (_update_data (_monitor_loop s pre).1 e).1 = Some reason
    ∧ (_monitor_loop s es).1
      = (_trigger (_update_data (_monitor_loop s pre).1 e).1 reason e).1.
Proof.
  revert s. induction es as [|e es IH]; intros s Hs Hfin.
  - cbn in Hfin. congruence.
  - rewrite monitor_loop_cons in Hfin |- *.
    pose proof (monitor_step_due s e Hs) as Hstep.
    destruct (due (_update_data s e).1) as [reason|] eqn:Hdue.
    + exists [], e, es, reason. cbn [app _monitor_loop fst].
      split_and!; [done|done|done|].
      rewrite Hstep. by rewrite monitor_loop_triggered.
    + assert (Hs1 : is_triggered (monitor_step s e).1 = false).
      { rewrite Hstep. unfold _update_data. by cbn. }
      destruct (IH _ Hs1 Hfin) as (pre & e' & post & reason & -> & H1 & H2 & H3).
      exists (e :: pre), e', post, reason.
      rewrite monitor_loop_cons. by split_and!.
Qed.

Lemma trips_have_a_cause_witness :
  let s := (start init (Some (fl 10000 1))).1 in
  let es := [tick 10000 1; tick 9800 2; tick 9400 3; tick 9400 13] in
  (is_triggered s = false ∧ is_triggered (_monitor_loop s es).1 = true)
  ∧ ∃ pre e post reason,
      es = pre ++ e :: post
      ∧ is_triggered (_monitor_loop s pre).1 = false
      ∧ due (_update_data (_monitor_loop s pre).1 e).1 = Some reason
      ∧ (_monitor_loop s es).1
        = (_trigger (_update_data (_monitor_loop s pre).1 e).1 reason e).1.
Proof.
  cbv zeta.
  assert (H1 : is_triggered (start init (Some (fl 10000 1))).1 = false)
    by (vm_compute; reflexivity).
  assert (H2 : is_triggered
                 (_monitor_loop (start init (Some (fl 10000 1))).1
                    [tick 10000 1; tick 9800 2; tick 9400 3; tick 9400 13]).1
               = true) by (vm_compute; reflexivity).
  exact (conj (conj H1 H2) (trips_have_a_cause _ _ H1 H2)).
Defined.

Lemma monitor_step_baseline s e :
  daily_start_balance (monitor_step s e).1 = daily_start_balance s.
Proof.
  unfold monitor_step. destruct (is_triggered s); [done|].
  unfold _update_data, _check_conditions.
  by repeat destruct (decide _).
Qed.

Lemma monitor_step_no_baseline s e :
  ¬ 0 < daily_start_balance s →
  trigger_reason s ≠ "daily_loss" →
  trigger_reason (monitor_step s e).1 ≠ "daily_loss".
Proof.
  intros Hb Hr. unfold monitor_step. destruct (is_triggered s); [done|].
  unfold _update_data, _check_conditions.
  cbn [fst snd daily_start_balance].
  rewrite decide_False by (intros [H _]; by apply Hb).
  destruct (decide _); [|done]. cbn. discriminate.
Qed.

(** A breaker whose start balance is not positive (as after a
    [start()] that got no balance) never trips for daily loss: the loop
    leaves the start balance alone, and the loss check is skipped however
    far the balance falls. *)
Theorem no_baseline_no_loss_trip s es :
  ¬ 0 < daily_start_balance s →
  trigger_reason s ≠ "daily_loss" →
  trigger_reason (_monitor_loop s es).1 ≠ "daily_loss"
  ∧ daily_start_balance (_monitor_loop s es).1 = daily_start_balance s.
Proof.
  revert s. induction es as [|e es IH]; intros s Hb Hr; [done|].
  rewrite monitor_loop_cons.
  destruct (IH (monitor_step s e).1) as [H1 H2].
  - by rewrite monitor_step_baseline.
  - by apply monitor_step_no_baseline.
  - split; [exact H1|]. by rewrite H2, monitor_step_baseline.
Qed.

Lemma no_baseline_no_loss_trip_witness :
  let s := (start init None).1 in
  let es := [tick 10000 1; tick 5000 2; tick 0 3] in
  (¬ 0 < daily_start_balance s ∧ trigger_reason s ≠ "daily_loss")
  ∧ trigger_reason (_monitor_loop s es).1 ≠ "daily_loss"
  ∧ is_triggered (_monitor_loop s es).1 = false.
Proof.
  cbv zeta.
  assert (H1 : ¬ 0 < daily_start_balance (start init None).1)
    by (vm_compute; discriminate).
  assert (H2 : trigger_reason (start init None).1 ≠ "daily_loss")
    by (vm_compute; discriminate).
  destruct (no_baseline_no_loss_trip (start init None).1
              [tick 10000 1; tick 5000 2; tick 0 3] H1 H2) as [H3 _].
  refine (conj (conj H1 H2) (conj H3 _)). vm_compute. reflexivity.
Defined.

(** [reset()] keeps the latency samples.  After a trip with the mean
    latency above the limit, a reset makes the breaker safe, and the next
    tick that brings no new latency sample trips it again. *)
Theorem reset_keeps_latency_samples s e :
  latency_samples s ≠ [] →
  max_latency_ms s < mean_latency s →
  ¬ 0 < avg_latency e →
  latency_samples (reset s) = latency_samples s
  ∧ is_safe (reset s) = true
  ∧ is_triggered (monitor_step (reset s) e).1 = true
  ∧ trigger_time (monitor_step (reset s) e).1 = Some (now e).
Proof.
  intros Hne Hm He.
  assert (Hstep := monitor_step_due (reset s) e eq_refl).
  assert (Hs : latency_samples (_update_data (reset s) e).1
               = latency_samples s).
  { unfold _update_data. cbn [fst latency_samples].
    by rewrite decide_False. }
  assert (Hd : is_Some (due (_update_data (reset s) e).1)).
  { unfold due. destruct (decide _); [by eexists|].
    rewrite decide_True; [by eexists|].
    unfold mean_latency. rewrite Hs. split; [exact Hne|exact Hm]. }
  destruct Hd as [reason Hd]. rewrite Hd in Hstep. rewrite Hstep.
  by split_and!.
Qed.

Lemma reset_keeps_latency_samples_witness :
  let e := mkEnv (Some (fl 10000 1)) (fl 150 1) ["BTC-USDT-SWAP"] 0 in
  let s := (monitor_step (start init (Some (fl 10000 1))).1 e).1 in
  let e' := mkEnv (Some (fl 10000 1)) 0 [] (seconds 60) in
  trigger_reason s = "latency"
  ∧ is_safe (reset s) = true
  ∧ is_triggered (monitor_step (reset s) e').1 = true.
Proof.
  cbv zeta.
  set (e := mkEnv (Some (fl 10000 1)) (fl 150 1) ["BTC-USDT-SWAP"] 0).
  set (s := (monitor_step (start init (Some (fl 10000 1))).1 e).1).
  set (e' := mkEnv (Some (fl 10000 1)) 0 [] (seconds 60)).
  assert (H0 : trigger_reason s = "latency") by (vm_compute; reflexivity).
  assert (H1 : latency_samples s ≠ []) by (vm_compute; discriminate).
  assert (H2 : max_latency_ms s < mean_latency s)
    by (vm_compute; reflexivity).
  assert (H3 : ¬ 0 < avg_latency e') by (vm_compute; discriminate).
  destruct (reset_keeps_latency_samples s e' H1 H2 H3) as (_ & Ha & Hb & _).
  exact (conj H0 (conj Ha Hb)).
Defined.

Lemma update_data_window s e :
  (length (latency_samples s) ≤ 100)%nat →
  Forall (fun x => 0 < x) (latency_samples s) →
  (length (latency_samples (_update_data s e).1) ≤ 100)%nat
  ∧ Forall (fun x => 0 < x) (latency_samples (_update_data s e).1).
Proof.
  intros Hl Hp. unfold _update_data. cbn [fst latency_samples].
  destruct (decide (0 < avg_latency e)) as [Hpos|]; [|done].
  assert (Hall : Forall (fun x => 0 < x) (latency_samples s ++ [avg_latency e]))
    by (apply Forall_app; split; [done|by constructor]).
  destruct (decide (100 < length _)%nat) as [Hlen|Hlen].
  - split; [rewrite length_drop; rewrite length_app in *; cbn in *; lia|].
    by apply Forall_drop.
  - split; [lia|done].
Qed.

Lemma monitor_step_window s e :
  (length (latency_samples s) ≤ 100)%nat →
  Forall (fun x => 0 < x) (latency_samples s) →
  (length (latency_samples (monitor_step s e).1) ≤ 100)%nat
  ∧ Forall (fun x => 0 < x) (latency_samples (monitor_step s e).1).
Proof.
  intros Hl Hp. unfold monitor_step. destruct (is_triggered s); [done|].
  pose proof (update_data_window s e Hl Hp) as H.
  destruct (_update_data s e) as [s1 c1]. cbn [fst] in H.
  rewrite check_conditions_due. by destruct (due s1).
Qed.

Lemma sum_positive (l : list float) :
  Forall (fun x => 0 < x) l → l ≠ [] → 0 < foldr Qcplus 0 l.
Proof.
  induction 1 as [|x l Hx Hl IH]; [done|]. intros _. cbn [foldr].
  destruct l as [|y l].
  - cbn [foldr]. by rewrite Qcplus_0_r.
  - apply Qcplus_pos_pos; [exact Hx|]. by apply IH.
Qed.

Lemma mean_positive s :
  Forall (fun x => 0 < x) (latency_samples s) →
  latency_samples s ≠ [] → 0 < mean_latency s.
Proof.
  intros Hp Hne. unfold mean_latency, Qcdiv.
  apply Qcmult_pos_pos; [by apply sum_positive|].
  apply Qcinv_pos. rewrite <- Z2Qc_inj_0.
  apply (proj1 (Z2Qc_inj_lt _ _)).
  destruct (latency_samples s); [done|]. cbn [length]. lia.
Qed.

(** Along every run of the monitor loop of a started breaker the
    latency window holds at most 100 samples, all of them positive, so that
    their mean, when there is one, is positive. *)
Theorem latency_window_bounded balance es :
  let s := (_monitor_loop (start init balance).1 es).1 in
  (length (latency_samples s) ≤ 100)%nat
  ∧ Forall (fun x => 0 < x) (latency_samples s)
  ∧ (latency_samples s ≠ [] → 0 < mean_latency s).
Proof.
  cbv zeta.
  assert (H : (length (latency_samples (start init balance).1) ≤ 100)%nat
              ∧ Forall (fun x => 0 < x)
                       (latency_samples (start init balance).1)).
  { unfold start. destruct balance; cbn; split; (lia || constructor). }
  assert (G : ∀ s, (length (latency_samples s) ≤ 100)%nat
                   ∧ Forall (fun x => 0 < x) (latency_samples s) →
                   (length (latency_samples (_monitor_loop s es).1) ≤ 100)%nat
                   ∧ Forall (fun x => 0 < x)
                            (latency_samples (_monitor_loop s es).1)).
  { induction es as [|e es IH]; intros s [H1 H2]; [by split|].
    rewrite monitor_loop_cons. by apply IH, monitor_step_window. }
  destruct (G _ H) as [G1 G2]. split_and!; [exact G1|exact G2|].
  intros Hne. by apply mean_positive.
Qed.

End KillSwitchMore.

(** ** Risk manager: approvals, the stop, metrics *)

Section RiskManagerMore.
Import RiskManager.

(** An approval of the pre-trade gate is sound: when the gate passes a
    signal, the emergency stop is off, the daily loss limit is not reached,
    the position value is within the maximum position size, the required
    margin is covered by the available balance, the leverage after the
    trade is within the limit, and the manager is left as it was. *)
Theorem approval_is_sound r i sd sz p reason :
  (pre_trade_check r i sd sz p).2 = Returns true reason →
  reason = CheckPassed
  ∧ (pre_trade_check r i sd sz p).1 = r
  ∧ emergency_stop r = false
  ∧ ¬ daily_loss_ratio (metrics r) ≤ - max_daily_loss r
  ∧ sz * p ≤ max_position_size r
  ∧ leverage_limit r ≠ 0%Z
  ∧ sz * p / Qc_of_Z (leverage_limit r) ≤ available_balance (metrics r)
  ∧ total_balance (metrics r) ≠ 0
  ∧ (total_position_value (metrics r) + sz * p) / total_balance (metrics r)
    ≤ Qc_of_Z (leverage_limit r).
Proof.
  unfold pre_trade_check. destruct (emergency_stop r); [discriminate|].
  destruct (decide (daily_loss_ratio _ ≤ _)) as [|H1]; [discriminate|].
  cbv zeta.
  destruct (decide (max_position_size r < _)) as [|H2]; [discriminate|].
  destruct (decide (leverage_limit r = 0%Z)) as [|H3]; [discriminate|].
  destruct (decide (available_balance _ < _)) as [|H4]; [discriminate|].
  destruct (decide (total_balance _ = 0)) as [|H5]; [discriminate|].
  destruct (decide (Qc_of_Z _ < _)) as [|H6]; [discriminate|].
  cbn [fst snd]. intros [= <-].
  apply Qcnot_lt_le in H2, H4, H6. by split_and!.
Qed.

Lemma approval_is_sound_witness :
  let r := update_metrics init example_balance [] in
  (pre_trade_check r "BTC-USDT" "buy" (fl 1 100) (fl 50000 1)).2
  = Returns true CheckPassed
  ∧ fl 1 100 * fl 50000 1 ≤ max_position_size r
  ∧ (pre_trade_check r "BTC-USDT" "buy" (fl 1 100) (fl 50000 1)).1 = r.
Proof.
  cbv zeta.
  assert (H : (pre_trade_check (update_metrics init example_balance [])
                 "BTC-USDT" "buy" (fl 1 100) (fl 50000 1)).2
              = Returns true CheckPassed) by (vm_compute; reflexivity).
  destruct (approval_is_sound _ _ _ _ _ _ H) as (_ & H1 & _ & _ & H2 & _).
  exact (conj H (conj H2 H1)).
Defined.

Lemma risk_call_keeps_stop r c :
  emergency_stop r = true → emergency_stop (risk_call r c) = true.
Proof.
  intros H. destruct c; cbn [risk_call].
  - unfold update_metrics. cbv zeta.
    by destruct (decide (start_balance r = 0)).
  - by rewrite pre_trade_check_emergency_stop.
  - unfold post_trade_check. destruct realizedPnl as [pnl|]; [|done].
    by destruct (decide _).
  - unfold check_emergency_stop. by destruct (decide _).
  - done.
  - done.
Qed.

(** The emergency stop is sticky: once it is set, no metrics update,
    gate call, post-trade check, stop check or daily reset clears it, and
    every later signal is rejected for the stop with the manager unchanged;
    [disable_emergency_stop] alone clears it. *)
Theorem stop_is_sticky r cs :
  emergency_stop r = true →
  emergency_stop (risk_calls r cs) = true
  ∧ (∀ i sd sz p,
       pre_trade_check (risk_calls r cs) i sd sz p
       = (risk_calls r cs, Returns false EmergencyStopped))
  ∧ emergency_stop (disable_emergency_stop (risk_calls r cs)) = false.
Proof.
  intros H.
  assert (Hs : emergency_stop (risk_calls r cs) = true).
  { unfold risk_calls. revert r H.
    induction cs as [|c cs IH]; intros r H; [done|].
    cbn [fold_left]. by apply IH, risk_call_keeps_stop. }
  split_and!; [exact Hs| |done].
  intros i sd sz p. by apply pre_trade_check_emergency_stop.
Qed.

Lemma stop_is_sticky_witness :
  let r0 := update_metrics (update_metrics init example_balance [])
              example_loss [] in
  let r := (pre_trade_check r0 "BTC-USDT" "buy" (fl 1 100) (fl 50000 1)).1 in
  let later := risk_calls r [UpdateMetrics example_balance []; ResetDaily] in
  emergency_stop r0 = false
  ∧ emergency_stop r = true
  ∧ daily_loss_ratio (metrics later) = 0
  ∧ pre_trade_check later "BTC-USDT" "buy" (fl 1 100) (fl 50000 1)
    = (later, Returns false EmergencyStopped).
Proof.
  cbv zeta.
  set (r0 := update_metrics (update_metrics init example_balance [])
               example_loss []).
  set (r := (pre_trade_check r0 "BTC-USDT" "buy" (fl 1 100) (fl 50000 1)).1).
  assert (H0 : emergency_stop r0 = false) by (vm_compute; reflexivity).
  assert (H : emergency_stop r = true) by (vm_compute; reflexivity).
  assert (Hr : daily_loss_ratio
                 (metrics (risk_calls r [UpdateMetrics example_balance [];
                                         ResetDaily])) = 0)
    by (apply (bool_decide_unpack _); vm_compute; exact I).
  destruct (stop_is_sticky r [UpdateMetrics example_balance []; ResetDaily] H)
    as (_ & Hg & _).
  exact (conj H0 (conj H (conj Hr (Hg _ _ _ _)))).
Defined.

Lemma update_metrics_balance r details positions d :
  List.find (fun d => bool_decide (ccy d = "USDT")) details = Some d →
  total_balance (metrics (update_metrics r (Some details) positions)) = bal d
  ∧ available_balance (metrics (update_metrics r (Some details) positions))
    = availBal d
  ∧ leverage_limit (update_metrics r (Some details) positions)
    = leverage_limit r.
Proof.
  intros H. unfold update_metrics. cbv zeta. rewrite H.
  by destruct (decide (start_balance r = 0)).
Qed.

(** Once the metrics were updated from a balance whose USDT entry is
    non-zero, the gate of a manager with a non-zero leverage limit returns
    its pair for every signal. *)
Theorem updated_manager_gate_returns r details positions d i sd sz p :
  leverage_limit r ≠ 0%Z →
  List.find (fun d => bool_decide (ccy d = "USDT")) details = Some d →
  bal d ≠ 0 →
  ∃ passed reason,
    (pre_trade_check (update_metrics r (Some details) positions) i sd sz p).2
    = Returns passed reason.
Proof.
  intros Hl Hd Hb.
  destruct (update_metrics_balance r details positions d Hd) as (Ht & _ & Hlev).
  apply pre_trade_check_returns.
  - by rewrite Hlev.
  - by rewrite Ht.
Qed.

Lemma updated_manager_gate_returns_witness :
  ∃ passed reason,
    (pre_trade_check
       (update_metrics init (Some [mkDetail "USDT" (fl 10000 1) (fl 9000 1)])
                       [])
       "BTC-USDT" "buy" 0 (fl 50000 1)).2
    = Returns passed reason.
Proof.
  assert (H1 : leverage_limit init ≠ 0%Z) by (vm_compute; discriminate).
  assert (H2 : List.find (fun d => bool_decide (ccy d = "USDT"))
                 [mkDetail "USDT" (fl 10000 1) (fl 9000 1)]
               = Some (mkDetail "USDT" (fl 10000 1) (fl 9000 1)))
    by reflexivity.
  assert (H3 : bal (mkDetail "USDT" (fl 10000 1) (fl 9000 1)) ≠ 0)
    by (vm_compute; discriminate).
  exact (updated_manager_gate_returns init _ [] _ "BTC-USDT" "buy" 0
           (fl 50000 1) H1 H2 H3).
Defined.

(** [update_metrics] adds up only the positions whose instrument id
    ends in "-USDT": positions on other instruments, such as
    BTC-USDT-SWAP, leave the position value, the unrealized PnL and the
    leverage at what they are with no position at all. *)
Theorem only_usdt_suffixed_positions_count r balance positions :
  Forall (fun pos => endswith (instId pos) "-USDT" = false) positions →
  let r' := update_metrics r balance positions in
  total_position_value (metrics r') = 0
  ∧ unrealized_pnl (metrics r') = 0
  ∧ (0 < total_balance (metrics r') → leverage (metrics r') = 0)
  ∧ r' = update_metrics r balance [].
Proof.
  intros H. cbv zeta.
  assert (Hc : counted positions = []).
  { unfold counted. induction H as [|pos l Hp _ IH]; [done|].
    rewrite filter_cons, decide_False by (by rewrite Hp). exact IH. }
  unfold update_metrics. cbv zeta. rewrite Hc.
  change (counted []) with ([] : list Position). cbn [foldl].
  destruct (decide (start_balance r = 0));
    cbn [set_metrics metrics total_position_value unrealized_pnl
         total_balance leverage];
    (split_and!; [done|done| |done]);
    intros Hpos; rewrite decide_True by exact Hpos;
    unfold Qcdiv; ring.
Qed.

Lemma only_usdt_suffixed_positions_count_witness :
  let swap := mkPosition "BTC-USDT-SWAP" (fl 500000 1) (fl (-1200) 1) in
  let r' := update_metrics init example_balance [swap] in
  endswith "BTC-USDT-SWAP" "-USDT" = false
  ∧ endswith "BTC-USDT" "-USDT" = true
  ∧ total_position_value (metrics r') = 0
  ∧ unrealized_pnl (metrics r') = 0.
Proof.
  cbv zeta.
  assert (H : Forall (fun pos => endswith (instId pos) "-USDT" = false)
                [mkPosition "BTC-USDT-SWAP" (fl 500000 1) (fl (-1200) 1)]).
  { constructor; [|constructor]. vm_compute. reflexivity. }
  destruct (only_usdt_suffixed_positions_count init example_balance _ H)
    as (H1 & H2 & _).
  refine (conj _ (conj _ (conj H1 H2))); vm_compute; reflexivity.
Defined.

(** [_kelly_criterion] answers a tenth of the maximum position size when
    the average win is zero; otherwise, on a non-negative balance, a size
    between 0 and a quarter of the balance. *)
Theorem kelly_size_is_capped r win avg_win avg_loss :
  (avg_win = 0 →
   _kelly_criterion r win avg_win avg_loss = max_position_size r * fl 1 10)
  ∧ (avg_win ≠ 0 → 0 ≤ total_balance (metrics r) →
     0 ≤ _kelly_criterion r win avg_win avg_loss
     ∧ _kelly_criterion r win avg_win avg_loss
       ≤ total_balance (metrics r) * fl 25 100).
Proof.
  unfold _kelly_criterion. split_and!.
  - intros ->. by rewrite decide_True.
  - intros Hw Hb. rewrite decide_False by exact Hw. cbv zeta.
    set (k := (win * avg_win - (1 - win) * avg_loss) / avg_win).
    assert (Hk : 0 ≤ Qc_max 0 (Qc_min k (fl 25 100))
                 ∧ Qc_max 0 (Qc_min k (fl 25 100)) ≤ fl 25 100).
    { assert (H25 : 0 ≤ fl 25 100) by (vm_compute; discriminate).
      unfold Qc_max, Qc_min. destruct (decide (fl 25 100 < k)) as [H1|H1].
      - rewrite decide_True by (vm_compute; reflexivity).
        split; [exact H25|apply Qcle_refl].
      - apply Qcnot_lt_le in H1. destruct (decide (0 < k)) as [H2|H2].
        + split; [by apply Qclt_le_weak|exact H1].
        + split; [apply Qcle_refl|exact H25]. }
    destruct Hk as [Hk1 Hk2]. split.
    + by apply Qcmult_nonneg_nonneg.
    + by apply Qcmult_le_mono_nonneg_l.
Qed.

Lemma risk_call_counters r c :
  (0 ≤ winning_trades r)%Z → (0 ≤ losing_trades r)%Z →
  (winning_trades r + losing_trades r ≤ total_trades r)%Z →
  (0 ≤ winning_trades (risk_call r c))%Z
  ∧ (0 ≤ losing_trades (risk_call r c))%Z
  ∧ (winning_trades (risk_call r c) + losing_trades (risk_call r c)
     ≤ total_trades (risk_call r c))%Z.
Proof.
  intros H1 H2 H3. destruct c; cbn [risk_call].
  - unfold update_metrics. cbv zeta.
    by destruct (decide (start_balance r = 0)).
  - unfold pre_trade_check. cbv zeta.
    destruct (emergency_stop r); [done|].
    repeat (destruct (decide _); [done|]). done.
  - unfold post_trade_check. destruct realizedPnl as [pnl|].
    + destruct (decide _); cbn; lia.
    + cbn. lia.
  - unfold check_emergency_stop. by destruct (decide _).
  - done.
  - done.
Qed.

(** Whatever calls were made on a new manager, the counts of winning
    and losing trades are non-negative and sum to at most the number of
    trades, so the win rate lies between 0 and 1; each post-trade check
    counts one trade. *)
Theorem trade_counters_add_up cs :
  let r := risk_calls init cs in
  (0 ≤ winning_trades r)%Z ∧ (0 ≤ losing_trades r)%Z
  ∧ (winning_trades r + losing_trades r ≤ total_trades r)%Z
  ∧ 0 ≤ win_rate r ∧ win_rate r ≤ 1
  ∧ (∀ pnl, total_trades (post_trade_check r pnl) = (total_trades r + 1)%Z).
Proof.
  cbv zeta.
  assert (H : (0 ≤ winning_trades (risk_calls init cs))%Z
              ∧ (0 ≤ losing_trades (risk_calls init cs))%Z
              ∧ (winning_trades (risk_calls init cs)
                 + losing_trades (risk_calls init cs)
                 ≤ total_trades (risk_calls init cs))%Z).
  { unfold risk_calls.
    assert (H0 : (0 ≤ winning_trades init)%Z ∧ (0 ≤ losing_trades init)%Z
                 ∧ (winning_trades init + losing_trades init
                    ≤ total_trades init)%Z) by (cbn; lia).
    revert H0. generalize init.
    induction cs as [|c cs IH]; intros r (H1 & H2 & H3); [done|].
    cbn [fold_left]. by apply IH, risk_call_counters. }
  destruct H as (H1 & H2 & H3).
  set (r := risk_calls init cs) in *. clearbody r.
  split_and!; [exact H1|exact H2|exact H3| | |].
  - unfold win_rate. destruct (decide (0 < total_trades r)%Z) as [Ht|];
      [|apply Qcle_refl].
    unfold Qcdiv. apply Qcmult_nonneg_nonneg.
    + rewrite <- Z2Qc_inj_0. by apply (proj1 (Z2Qc_inj_le _ _)).
    + apply Qclt_le_weak, Qcinv_pos. rewrite <- Z2Qc_inj_0.
      by apply (proj1 (Z2Qc_inj_lt _ _)).
  - unfold win_rate. destruct (decide (0 < total_trades r)%Z) as [Ht|].
    + assert (Hpos : 0 < Qc_of_Z (total_trades r)).
      { rewrite <- Z2Qc_inj_0. by apply (proj1 (Z2Qc_inj_lt _ _)). }
      apply (Qcmult_le_mono_pos_r _ _ _ Hpos).
      unfold Qcdiv. rewrite <- Qcmult_assoc, (Qcmult_comm (/ _)).
      rewrite Qcmult_inv_r, Qcmult_1_r, Qcmult_1_l.
      * apply (proj1 (Z2Qc_inj_le _ _)). lia.
      * intros E. rewrite E in Hpos. by apply Qclt_not_eq in Hpos.
    + vm_compute. discriminate.
  - intros pnl. unfold post_trade_check. destruct pnl as [x|]; [|done].
    by destruct (decide _).
Qed.

End RiskManagerMore.

(** ** Streamer: registration and dispatch *)

Section StreamerMore.
Import Streamer.

Lemma init_keys key :
  callbacks init !! key = if decide (key ∈ callback_keys) then Some [] else None.
Proof.
  unfold init, callback_keys. cbn [callbacks].
  destruct (decide (key = "ticker")) as [->|H1]; [done|].
  destruct (decide (key = "orderbook")) as [->|H2]; [done|].
  destruct (decide (key = "trades")) as [->|H3]; [done|].
  destruct (decide (key = "liquidation")) as [->|H4]; [done|].
  destruct (decide (key = "account")) as [->|H5]; [done|].
  destruct (decide (key = "orders")) as [->|H6]; [done|].
  rewrite !lookup_insert_ne, lookup_empty by done.
  rewrite decide_False; [done|].
  rewrite !elem_of_cons, elem_of_nil. tauto.
Qed.

Lemma register_callback_lookup s ch c key :
  callbacks (register_callback s ch c) !! key
  = if decide (key = ch)
    then (fun l => l ++ [c]) <$> callbacks s !! key
    else callbacks s !! key.
Proof.
  unfold register_callback. destruct (decide (key = ch)) as [->|Hne].
  - destruct (callbacks s !! ch) as [l|] eqn:E; cbn [callbacks].
    + by rewrite lookup_insert_eq.
    + by rewrite E.
  - destruct (callbacks s !! ch) as [l|]; cbn [callbacks]; [|done].
    by rewrite lookup_insert_ne.
Qed.

Lemma register_all_lookup regs s key :
  callbacks (register_all s regs) !! key
  = (fun l => l ++ registered_under key regs) <$> callbacks s !! key.
Proof.
  unfold register_all, registered_under.
  revert s. induction regs as [|[ch c] regs IH]; intros s.
  - cbn. destruct (callbacks s !! key); cbn; [|done]. by rewrite app_nil_r.
  - cbn [fold_left fst snd]. rewrite IH, register_callback_lookup.
    rewrite filter_cons. cbn [fst].
    destruct (decide (key = ch)) as [->|Hne].
    + rewrite decide_True by done.
      destruct (callbacks s !! ch); cbn; [|done]. by rewrite <- app_assoc.
    + rewrite decide_False by done. done.
Qed.

(** Callbacks are kept and called in the order of their registration:
    after any sequence of [register_callback] calls on a new streamer, a key
    of [self.callbacks] holds exactly the callbacks registered under it, in
    that order, and no other key exists; a registration under an unknown
    key changes nothing; and a data message of a handled channel runs the
    callbacks of its key in that order. *)
Theorem registrations_keep_their_order regs key channel payload :
  (callbacks (register_all init regs) !! key
   = if decide (key ∈ callback_keys) then Some (registered_under key regs)
     else None)
  ∧ (∀ s c, callbacks s !! key = None → register_callback s key c = s)
  ∧ ((channel, key) ∈ handled_channels →
     _handle_message (register_all init regs) (data_message channel payload)
     = invoke_all (registered_under key regs) payload).
Proof.
  assert (H : callbacks (register_all init regs) !! key
              = if decide (key ∈ callback_keys)
                then Some (registered_under key regs) else None).
  { rewrite register_all_lookup, init_keys. by destruct (decide _). }
  split_and!; [exact H| |].
  - intros s c E. unfold register_callback. by rewrite E.
  - intros Hin. rewrite (handle_message_routes _ _ key) by done.
    unfold dispatch. rewrite H. rewrite decide_True; [done|].
    unfold handled_channels, callback_keys in *.
    rewrite !elem_of_cons, elem_of_nil in Hin.
    rewrite !elem_of_cons.
    destruct Hin as [E|[E|[E|[E|[E|[E|[]]]]]]]; injection E as _ ->; tauto.
Qed.

Lemma invoke_all_app_raise l1 c l2 payload :
  Forall (fun c => cb_raises c = false) l1 → cb_raises c = true →
  invoke_all (l1 ++ c :: l2) payload
  = (fun c => (cb_id c, payload)) <$> (l1 ++ [c]).
Proof.
  intros H Hc. induction H as [|c1 l1 H1 _ IH].
  - cbn [app invoke_all]. by rewrite Hc.
  - cbn [app invoke_all fmap list_fmap]. rewrite H1. by rewrite IH.
Qed.

(** A callback that raises ends the dispatch of its message: the
    callbacks registered before it, and the raising one, have been called
    with the payload; those registered after it are not called. *)
Theorem raising_callback_ends_dispatch s channel key payload l1 c l2 :
  (channel, key) ∈ handled_channels →
  callbacks s !! key = Some (l1 ++ c :: l2) →
  Forall (fun c => cb_raises c = false) l1 →
  cb_raises c = true →
  _handle_message s (data_message channel payload)
  = (fun c => (cb_id c, payload)) <$> (l1 ++ [c]).
Proof.
  intros Hin Hl H1 Hc. rewrite (handle_message_routes _ _ key) by done.
  unfold dispatch. rewrite Hl. by apply invoke_all_app_raise.
Qed.

Lemma raising_callback_ends_dispatch_witness :
  let s := register_all init
             [("orderbook", mkCallback 1 false);
              ("orderbook", mkCallback 2 true);
              ("orderbook", mkCallback 3 false)] in
  _handle_message s (data_message "books" "payload")
  = [(1%nat, "payload"); (2%nat, "payload")].
Proof.
  cbv zeta.
  assert (H0 : ("books", "orderbook") ∈ handled_channels)
    by (apply (bool_decide_unpack _); vm_compute; exact I).
  assert (H1 : callbacks (register_all init
                            [("orderbook", mkCallback 1 false);
                             ("orderbook", mkCallback 2 true);
                             ("orderbook", mkCallback 3 false)])
               !! "orderbook"
               = Some ([mkCallback 1 false] ++ mkCallback 2 true
                                            :: [mkCallback 3 false]))
    by (vm_compute; reflexivity).
  assert (H2 : Forall (fun c => cb_raises c = false) [mkCallback 1 false])
    by (constructor; [reflexivity|constructor]).
  exact (raising_callback_ends_dispatch _ "books" "orderbook" "payload"
           _ _ _ H0 H1 H2 eq_refl).
Defined.

Ltac in_routes :=
  unfold handled_channels; rewrite !elem_of_cons; tauto.

(** [_handle_message] calls a callback only for a message that has both
    [data] and an [arg] with a channel, whose channel is one of the six the
    method has a branch for, and then only the callbacks registered under
    the key of that branch. *)
Theorem only_handled_channels_reach_callbacks s data :
  _handle_message s data ≠ [] →
  ∃ channel key payload l,
    m_arg data = Some (Some channel) ∧ m_data data = Some payload
    ∧ (channel, key) ∈ handled_channels
    ∧ callbacks s !! key = Some l ∧ l ≠ []
    ∧ _handle_message s data = invoke_all l payload.
Proof.
  unfold _handle_message.
  destruct (m_data data) as [payload|] eqn:Ed; [|done].
  destruct (m_arg data) as [[channel|]|] eqn:Ea; [|done|done].
  assert (G : ∀ key, (channel, key) ∈ handled_channels →
              dispatch s key payload ≠ [] →
              ∃ channel0 key0 payload0 l,
                Some (Some channel) = Some (Some channel0)
                ∧ Some payload = Some payload0
                ∧ (channel0, key0) ∈ handled_channels
                ∧ callbacks s !! key0 = Some l ∧ l ≠ []
                ∧ dispatch s key payload = invoke_all l payload0).
  { intros key Hin. unfold dispatch.
    destruct (callbacks s !! key) as [l|] eqn:E; [|done].
    intros Hne. exists channel, key, payload, l.
    split_and!; try done. by intros ->. }
  destruct (decide (channel = "tickers")) as [->|]; [apply G; in_routes|].
  destruct (decide (channel = "books")) as [->|]; [apply G; in_routes|].
  destruct (decide (channel = "trades")) as [->|]; [apply G; in_routes|].
  destruct (decide (channel = "liquidation-orders")) as [->|];
    [apply G; in_routes|].
  destruct (decide (channel = "account")) as [->|]; [apply G; in_routes|].
  destruct (decide (channel = "orders")) as [->|]; [apply G; in_routes|].
  done.
Qed.

Lemma only_handled_channels_reach_callbacks_witness :
  let s := register_all init [("orderbook", mkCallback 1 false)] in
  let data := data_message "books" "payload" in
  ∃ channel key payload l,
    m_arg data = Some (Some channel) ∧ m_data data = Some payload
    ∧ (channel, key) ∈ handled_channels
    ∧ callbacks s !! key = Some l ∧ l ≠ []
    ∧ _handle_message s data = invoke_all l payload.
Proof.
  cbv zeta. apply only_handled_channels_reach_callbacks.
  vm_compute. discriminate.
Defined.

End StreamerMore.

(** ** WallRiding: unbound clock and instruments *)

Section WallRidingMore.
Import WallRiding.

Lemma can_ride_wall_walls s s' clock inst :
  wall_persistence_time s' = wall_persistence_time s →
  default [] (walls s' !! inst) = default [] (walls s !! inst) →
  can_ride_wall s' clock inst = can_ride_wall s clock inst.
Proof.
  intros Hp Hw. destruct clock as [now|].
  - by rewrite !can_ride_wall_find, Hp, Hw.
  - by rewrite !can_ride_wall_unbound.
Qed.

Lemma handle_all_unbound msgs s j :
  default [] (walls (handle_all s (unbound msgs)) !! j)
  = default [] (walls s !! j).
Proof.
  unfold handle_all, unbound. revert s.
  induction msgs as [|d msgs IH]; intros s; [done|].
  cbn [fmap list_fmap fold_left fst snd]. rewrite IH.
  apply on_orderbook_unbound.
Qed.

(** tactical_strategies.py uses [datetime] without importing it.  With
    the name unbound, whatever order-book messages a new strategy handles,
    no wall is ever recorded for any instrument, and [can_ride_wall] answers
    [None]; with the name unbound [can_ride_wall] answers [None] on every
    strategy. *)
Theorem unbound_clock_records_no_wall msgs clock inst :
  default [] (walls (handle_all init (unbound msgs)) !! inst) = []
  ∧ can_ride_wall (handle_all init (unbound msgs)) clock inst = None
  ∧ (∀ s, can_ride_wall s None inst = None).
Proof.
  assert (H : default [] (walls (handle_all init (unbound msgs)) !! inst) = []).
  { rewrite handle_all_unbound. cbn [init walls]. by rewrite lookup_empty. }
  split_and!; [exact H| |intros s; apply can_ride_wall_unbound].
  destruct clock as [now|]; [|apply can_ride_wall_unbound].
  rewrite can_ride_wall_find, H. done.
Qed.

(** Walls are kept per instrument: handling a message of one instrument
    leaves the walls of every other instrument, and the answer of
    [can_ride_wall] for it, as they were. *)
Theorem walls_are_kept_per_instrument s clock data j now :
  j ≠ instId data →
  default [] (walls (on_orderbook s clock data) !! j)
  = default [] (walls s !! j)
  ∧ can_ride_wall (on_orderbook s clock data) now j = can_ride_wall s now j.
Proof.
  intros Hj.
  assert (H : default [] (walls (on_orderbook s clock data) !! j)
              = default [] (walls s !! j)).
  { destruct clock as [t|].
    - by apply on_orderbook_other.
    - apply on_orderbook_unbound. }
  split; [exact H|].
  apply can_ride_wall_walls; [|exact H].
  apply on_orderbook_settings.
Qed.

Lemma walls_are_kept_per_instrument_witness :
  let s := feed init [0; 1; 2; 3; 4; 5]%Z wall_msg in
  let data := mkMsg "ETH-USDT-SWAP" [(fl 3000 1, fl 500 1)] in
  let s' := on_orderbook s (Some (seconds 5)) data in
  default [] (walls s' !! "BTC-USDT-SWAP")
  = default [] (walls s !! "BTC-USDT-SWAP")
  ∧ can_ride_wall s' (Some (seconds 5)) "BTC-USDT-SWAP"
    = can_ride_wall s (Some (seconds 5)) "BTC-USDT-SWAP".
Proof.
  cbv zeta.
  apply (walls_are_kept_per_instrument
           (feed init [0; 1; 2; 3; 4; 5]%Z wall_msg) (Some (seconds 5))
           (mkMsg "ETH-USDT-SWAP" [(fl 3000 1, fl 500 1)])
           "BTC-USDT-SWAP" (Some (seconds 5))).
  cbn [instId]. discriminate.
Defined.

End WallRidingMore.
